(** * chatServer: credential hashing, account lifecycle and message exchange

    A shallow embedding of [src/lib/utils.ts], [src/lib/resend.ts] and the
    request handlers of [src/index.tsx], together with the tables declared in
    [migrations/0001_initial_schema.sql].

    - JavaScript strings are sequences of UTF-16 code units ([jsstring]).
    - [TextEncoder.encode] and [crypto.subtle.digest('SHA-256', _)] are
      written out (WHATWG Encoding, FIPS 180-4) so that the hasher runs.
    - The D1 database is a record of four row lists; a statement that
      violates a PRIMARY KEY, UNIQUE or FOREIGN KEY constraint throws.
      A message text comes back from the store with U+FFFD in the place
      of every unpaired surrogate; the other strings written (ids, tokens,
      digests, and emails, taken to be well-formed) come back as given.
    - The body of a registration or a login is modelled when its fields
      are strings or absent.
    - Numbers are exact integers; the statements about cursors and
      timestamps are made for integers a JavaScript number holds
      exactly.
    - A handler is a function from the world (store plus the positions of
      the clock and of the entropy source) to a response and a new world;
      a [try]/[catch] keeps the writes made before the exception. *)

From Stdlib Require Import String Ascii.
From Stdlib Require Import List NArith ZArith Lia Bool.
From Stdlib Require Import Sorted Permutation.
Import ListNotations.

Set Implicit Arguments.

(* ================================================================== *)
(** ** JavaScript strings *)

(** A string is the list of its UTF-16 code units. *)
Definition jsstring := list N.

(** ASCII literal to [jsstring]. *)
Definition js (s : string) : jsstring :=
  map N_of_ascii (list_ascii_of_string s).

Definition jsstring_eqb (a b : jsstring) : bool :=
  if list_eq_dec N.eq_dec a b then true else false.

(** [!s] for a value that is a string or [undefined]. *)
Definition falsy (s : option jsstring) : bool :=
  match s with
  | None => true
  | Some [] => true
  | Some (_ :: _) => false
  end.

(** [s.charCodeAt(i)]; out of range is [NaN], which the bit operators
    read as 0. *)
Definition charCodeAt (s : jsstring) (i : nat) : N := nth i s 0%N.

(** [s.split(sep)] for a one-unit separator. *)
Fixpoint split_on (sep : N) (s : jsstring) : list jsstring :=
  match s with
  | [] => [[]]
  | c :: rest =>
      if N.eqb c sep then [] :: split_on sep rest
      else match split_on sep rest with
           | [] => [[c]]
           | piece :: pieces => (c :: piece) :: pieces
           end
  end.

(** [s.padStart(n, fill)] for a one-unit [fill]. *)
Definition padStart (n : nat) (fill : N) (s : jsstring) : jsstring :=
  repeat fill (n - length s) ++ s.

(** White space and line terminators removed by [String.prototype.trim]. *)
Definition is_js_space (c : N) : bool :=
  existsb (N.eqb c)
    [0x09; 0x0A; 0x0B; 0x0C; 0x0D; 0x20; 0xA0; 0x1680;
     0x2000; 0x2001; 0x2002; 0x2003; 0x2004; 0x2005; 0x2006; 0x2007;
     0x2008; 0x2009; 0x200A; 0x2028; 0x2029; 0x202F; 0x205F; 0x3000;
     0xFEFF]%N.

Fixpoint trimStart (s : jsstring) : jsstring :=
  match s with
  | [] => []
  | c :: rest => if is_js_space c then trimStart rest else s
  end.

Definition trimEnd (s : jsstring) : jsstring := rev (trimStart (rev s)).

Definition trim (s : jsstring) : jsstring := trimEnd (trimStart s).

(* ================================================================== *)
(** ** TextEncoder: UTF-16 code units to UTF-8 bytes *)

Module Utf8.
Local Open Scope N_scope.

Definition is_high_surrogate (c : N) : bool := (0xD800 <=? c) && (c <=? 0xDBFF).
Definition is_low_surrogate (c : N) : bool := (0xDC00 <=? c) && (c <=? 0xDFFF).

(** U+FFFD, written for every unpaired surrogate. *)
Definition replacement : list N := [0xEF; 0xBF; 0xBD].

Definition two_bytes (c : N) : list N :=
  [N.lor 0xC0 (N.shiftr c 6); N.lor 0x80 (N.land c 0x3F)].

Definition three_bytes (c : N) : list N :=
  [N.lor 0xE0 (N.shiftr c 12);
   N.lor 0x80 (N.land (N.shiftr c 6) 0x3F);
   N.lor 0x80 (N.land c 0x3F)].

Definition four_bytes (hi lo : N) : list N :=
  let cp := 0x10000 + N.shiftl (hi - 0xD800) 10 + (lo - 0xDC00) in
  [N.lor 0xF0 (N.shiftr cp 18);
   N.lor 0x80 (N.land (N.shiftr cp 12) 0x3F);
   N.lor 0x80 (N.land (N.shiftr cp 6) 0x3F);
   N.lor 0x80 (N.land cp 0x3F)].

Fixpoint encode (s : jsstring) : list N :=
  match s with
  | [] => []
  | c :: rest =>
      if c <? 0x80 then c :: encode rest
      else if c <? 0x800 then two_bytes c ++ encode rest
      else if is_high_surrogate c then
        match rest with
        | d :: rest' =>
            if is_low_surrogate d then four_bytes c d ++ encode rest'
            else replacement ++ encode rest
        | [] => replacement
        end
      else if is_low_surrogate c then replacement ++ encode rest
      else three_bytes c ++ encode rest
  end.

End Utf8.

(** What a TEXT column gives back for a string bound to it.  The store
    keeps the text as UTF-8, so every unpaired surrogate comes back as
    U+FFFD; a high surrogate is paired when a low one follows it, a low
    one when a high one precedes it.  [prev_high] tells whether the unit
    before [s] was a high surrogate. *)
Fixpoint text_after (prev_high : bool) (s : jsstring) : jsstring :=
  match s with
  | [] => []
  | c :: rest =>
      (if Utf8.is_high_surrogate c
       then match rest with
            | d :: _ => if Utf8.is_low_surrogate d then c else 0xFFFD%N
            | [] => 0xFFFD%N
            end
       else if Utf8.is_low_surrogate c
       then (if prev_high then c else 0xFFFD%N)
       else c)
      :: text_after (Utf8.is_high_surrogate c) rest
  end.

Definition stored_text (s : jsstring) : jsstring := text_after false s.

(* ================================================================== *)
(** ** crypto.subtle.digest('SHA-256', data) *)

Module Sha256.
Local Open Scope N_scope.

Definition mask32 : N := 0xFFFFFFFF.
Definition add32 (x y : N) : N := N.land (x + y) mask32.
Definition rotr (n x : N) : N :=
  N.lor (N.shiftr x n) (N.land (N.shiftl x (32 - n)) mask32).
Definition not32 (x : N) : N := N.lxor (N.land x mask32) mask32.

Definition ch (x y z : N) : N := N.lxor (N.land x y) (N.land (not32 x) z).
Definition maj (x y z : N) : N :=
  N.lxor (N.lxor (N.land x y) (N.land x z)) (N.land y z).
Definition bsig0 (x : N) : N := N.lxor (N.lxor (rotr 2 x) (rotr 13 x)) (rotr 22 x).
Definition bsig1 (x : N) : N := N.lxor (N.lxor (rotr 6 x) (rotr 11 x)) (rotr 25 x).
Definition ssig0 (x : N) : N := N.lxor (N.lxor (rotr 7 x) (rotr 18 x)) (N.shiftr x 3).
Definition ssig1 (x : N) : N := N.lxor (N.lxor (rotr 17 x) (rotr 19 x)) (N.shiftr x 10).

(** The first 64 primes. *)
Definition is_prime (n : nat) : bool :=
  forallb (fun d => negb (Nat.eqb (n mod d) 0)) (seq 2 (n - 2)).

Definition primes : list N :=
  Eval vm_compute in map N.of_nat (filter is_prime (seq 2 310)).

(** Integer cube root, one bit at a time from bit [bits - 1] down. *)
Fixpoint cube_root (bits : nat) (x r : N) : N :=
  match bits with
  | O => r
  | S bits' =>
      let c := r + N.shiftl 1 (N.of_nat bits') in
      cube_root bits' x (if c * c * c <=? x then c else r)
  end.

(** FIPS 180-4, 4.2.2: the first 32 bits of the fractional parts of the
    cube roots of the first 64 primes. *)
Definition round_constants : list N :=
  Eval vm_compute in
    map (fun q => N.land (cube_root 40 (N.shiftl q 96) 0) mask32) primes.

(** The eight chaining words. *)
Record chain := Chain {
  ha : N; hb : N; hc : N; hd : N; he : N; hf : N; hg : N; hh : N
}.

(** FIPS 180-4, 5.3.3: the first 32 bits of the fractional parts of the
    square roots of the first 8 primes. *)
Definition initial_word (i : nat) : N :=
  N.land (N.sqrt (N.shiftl (nth i primes 0) 64)) mask32.

Definition initial_chain : chain :=
  Eval vm_compute in
    Chain (initial_word 0) (initial_word 1) (initial_word 2) (initial_word 3)
          (initial_word 4) (initial_word 5) (initial_word 6) (initial_word 7).

(** Padding: the byte 0x80, zero bytes up to 56 modulo 64, then the bit
    length as a 64-bit big-endian integer. *)
Definition be_bytes (count : nat) (v : N) : list N :=
  map (fun i => N.land (N.shiftr v (8 * N.of_nat (count - 1 - i))) 0xFF)
      (seq 0 count).

Definition zero_pad (len : nat) : nat := ((119 - len mod 64) mod 64)%nat.

Definition pad (msg : list N) : list N :=
  msg ++ [0x80] ++ repeat 0 (zero_pad (length msg))
      ++ be_bytes 8 (8 * N.of_nat (length msg)).

Definition be_word (b : list N) : N :=
  fold_left (fun acc x => N.lor (N.shiftl acc 8) (N.land x 0xFF)) b 0.

(** Cut off the first [n] items. *)
Fixpoint chunks {A} (fuel n : nat) (l : list A) : list (list A) :=
  match fuel with
  | O => []
  | S fuel' =>
      match l with
      | [] => []
      | _ => firstn n l :: chunks fuel' n (skipn n l)
      end
  end.

Definition block_words (block : list N) : list N :=
  map be_word (chunks 16 4 block).

(** The message schedule, newest word first: [recent] holds
    W(t-1), W(t-2), ... *)
Fixpoint extend_schedule (n : nat) (recent : list N) : list N :=
  match n with
  | O => recent
  | S n' =>
      let w := add32 (add32 (add32 (ssig1 (nth 1 recent 0)) (nth 6 recent 0))
                            (ssig0 (nth 14 recent 0)))
                     (nth 15 recent 0) in
      extend_schedule n' (w :: recent)
  end.

Definition schedule (block : list N) : list N :=
  rev (extend_schedule 48 (rev (block_words block))).

Definition round (s : chain) (kw : N * N) : chain :=
  let t1 := add32 (add32 (add32 (add32 (hh s) (bsig1 (he s)))
                                (ch (he s) (hf s) (hg s)))
                         (fst kw))
                  (snd kw) in
  let t2 := add32 (bsig0 (ha s)) (maj (ha s) (hb s) (hc s)) in
  Chain (add32 t1 t2) (ha s) (hb s) (hc s)
        (add32 (hd s) t1) (he s) (hf s) (hg s).

Definition compress (h : chain) (block : list N) : chain :=
  let s := fold_left round (combine round_constants (schedule block)) h in
  Chain (add32 (ha h) (ha s)) (add32 (hb h) (hb s))
        (add32 (hc h) (hc s)) (add32 (hd h) (hd s))
        (add32 (he h) (he s)) (add32 (hf h) (hf s))
        (add32 (hg h) (hg s)) (add32 (hh h) (hh s)).

Definition chain_bytes (h : chain) : list N :=
  be_bytes 4 (ha h) ++ be_bytes 4 (hb h) ++ be_bytes 4 (hc h)
    ++ be_bytes 4 (hd h) ++ be_bytes 4 (he h) ++ be_bytes 4 (hf h)
    ++ be_bytes 4 (hg h) ++ be_bytes 4 (hh h).

Definition digest (msg : list N) : list N :=
  let padded := pad msg in
  chain_bytes
    (fold_left compress (chunks (length padded) 64 padded) initial_chain).

End Sha256.

(* ================================================================== *)
(** ** src/lib/utils.ts *)

(** [Number.prototype.toString(radix)] on a non-negative integer
    (radix 10 or 16). *)
Definition digit_chars : jsstring := js "0123456789abcdef".

Definition digit_char (d : N) : N := nth (N.to_nat d) digit_chars 0%N.

Fixpoint toString_aux (fuel : nat) (radix n : N) : jsstring :=
  match fuel with
  | O => [digit_char (n mod radix)]
  | S fuel' =>
      if (n <? radix)%N then [digit_char n]
      else toString_aux fuel' radix (n / radix) ++ [digit_char (n mod radix)]
  end.

Definition toString (radix n : N) : jsstring :=
  toString_aux (N.size_nat n) radix n.

(** [String(n)] for an integer [n], as a template literal prints it. *)
Definition number_toString (n : Z) : jsstring :=
  if (n <? 0)%Z then 45%N :: toString 10 (Z.to_N (- n))
  else toString 10 (Z.to_N n).

(** [hashArray.map(b => b.toString(16).padStart(2, '0')).join('')] *)
Definition to_hex (bytes : list N) : jsstring :=
  flat_map (fun b => padStart 2 48%N (toString 16 b)) bytes.

(** [generateToken(length)]: [randomValues] is the array that
    [crypto.getRandomValues] filled. *)
Definition token_chars : jsstring :=
  js "ABCDEFGHIJKLMNOPQRSTUVWXYZabcdefghijklmnopqrstuvwxyz0123456789".

Definition generateToken (randomValues : list N) : jsstring :=
  map (fun v => nth (N.to_nat (v mod N.of_nat (length token_chars)))
                    token_chars 0%N)
      randomValues.

Definition colon : N := 58%N.

(** [hashPassword(password)], given the sixteen random bytes of its salt.
    The unsalted digest computed first is never used. *)
Definition hashPassword (randomValues : list N) (password : jsstring)
  : jsstring :=
  let salt := generateToken randomValues in
  let saltedPassword := salt ++ password in
  let saltedData := Utf8.encode saltedPassword in
  let saltedHashHex := to_hex (Sha256.digest saltedData) in
  salt ++ [colon] ++ saltedHashHex.

(** The comparison loop of [verifyPassword]. *)
Fixpoint compare_loop (steps i : nat) (computedHash storedHash : jsstring)
  (result : N) : N :=
  match steps with
  | O => result
  | S steps' =>
      compare_loop steps' (S i) computedHash storedHash
        (N.lor result
               (N.lxor (charCodeAt computedHash i) (charCodeAt storedHash i)))
  end.

Definition verifyPassword (hash password : jsstring) : bool :=
  let parts := split_on colon hash in
  let salt := nth_error parts 0 in
  let storedHash := nth_error parts 1 in
  match salt, storedHash with
  | Some salt, Some storedHash =>
      if falsy (Some salt) || falsy (Some storedHash) then false
      else
        let saltedPassword := salt ++ password in
        let saltedData := Utf8.encode saltedPassword in
        let computedHash := to_hex (Sha256.digest saltedData) in
        if negb (Nat.eqb (length computedHash) (length storedHash)) then false
        else
          N.eqb (compare_loop (length computedHash) 0 computedHash storedHash
                              0%N)
                0%N
  | _, _ => false
  end.


(* ================================================================== *)
(** ** The store: migrations/0001_initial_schema.sql *)

Record user_row := UserRow {
  user_id : jsstring;            (* TEXT PRIMARY KEY *)
  user_email : jsstring;         (* TEXT UNIQUE NOT NULL *)
  user_password_hash : jsstring; (* TEXT NOT NULL *)
  user_verified : Z;             (* INTEGER NOT NULL DEFAULT 0 *)
  user_created_at : Z            (* INTEGER NOT NULL *)
}.

Record token_row := TokenRow {
  token_token : jsstring;        (* TEXT PRIMARY KEY *)
  token_user_id : jsstring;      (* REFERENCES users(id) *)
  token_expires_at : Z
}.

Record session_row := SessionRow {
  session_id : jsstring;         (* TEXT PRIMARY KEY *)
  session_user_id : jsstring;    (* REFERENCES users(id) *)
  session_expires_at : Z
}.

Record message_row := MessageRow {
  message_id : Z;                (* INTEGER PRIMARY KEY AUTOINCREMENT *)
  message_user_id : jsstring;    (* REFERENCES users(id) *)
  message_message : jsstring;
  message_created_at : Z
}.

(** Rows are kept in insertion (rowid) order. *)
Record Db := MkDb {
  users : list user_row;
  email_verification_tokens : list token_row;
  sessions : list session_row;
  messages : list message_row
}.

Definition empty_db : Db := MkDb [] [] [] [].

Definition has_user (d : Db) (id : jsstring) : bool :=
  existsb (fun u => jsstring_eqb (user_id u) id) (users d).

(** The constraints the schema declares. *)
Record schema_ok (d : Db) : Prop := {
  users_pk : NoDup (map user_id (users d));
  users_email_unique : NoDup (map user_email (users d));
  tokens_pk : NoDup (map token_token (email_verification_tokens d));
  sessions_pk : NoDup (map session_id (sessions d));
  messages_pk : NoDup (map message_id (messages d));
  tokens_fk : forall t, In t (email_verification_tokens d) ->
                        has_user d (token_user_id t) = true;
  sessions_fk : forall s, In s (sessions d) ->
                          has_user d (session_user_id s) = true;
  messages_fk : forall m, In m (messages d) ->
                          has_user d (message_user_id m) = true
}.

(* ================================================================== *)
(** ** What a request sees of the outside *)

(** Outcome of the [fetch] to the mail service in [sendEmail]. *)
Inductive fetch_result :=
| FetchResponse (status : Z) (text : option jsstring)
    (* [text = None]: reading the body rejects *)
| FetchRejects.

Record EmailOptions := MkEmailOptions {
  email_to : jsstring;
  email_subject : jsstring;
  email_html : jsstring;
  email_apiKey : jsstring
}.

Record Env := MkEnv {
  clock : nat -> Z;               (* successive readings of Date.now() *)
  entropy : nat -> N;             (* successive bytes of getRandomValues *)
  RESEND_API_KEY : option jsstring;
  BASE_URL : option jsstring;
  request_origin : jsstring;      (* new URL(c.req.url).origin *)
  resend_fetch : EmailOptions -> fetch_result;
  markup_head : jsstring;         (* static text of the mail template *)
  markup_middle : jsstring;
  markup_tail : jsstring;
  session_id_length : nat;        (* session policy of the auth library *)
  session_ttl : Z
}.

Record World := MkWorld {
  db : Db;
  clock_reads : nat;
  entropy_reads : nat
}.

(* ================================================================== *)
(** ** Handler monad: reader of [Env], state [World], exceptions *)

Inductive outcome (A : Type) :=
| Value (a : A)
| Thrown.
Arguments Thrown {A}.

Definition M (A : Type) := Env -> World -> outcome A * World.

Definition ret {A} (a : A) : M A := fun _ w => (Value a, w).

Definition bind {A B} (m : M A) (k : A -> M B) : M B :=
  fun env w =>
    match m env w with
    | (Value a, w') => k a env w'
    | (Thrown, w') => (Thrown, w')
    end.

Definition throw {A} : M A := fun _ w => (Thrown, w).

Declare Scope handler_scope.
Delimit Scope handler_scope with handler.
Notation "x <- m ;; k" := (bind m (fun x => k))
  (at level 61, m at next level, right associativity) : handler_scope.
Notation "m ;; k" := (bind m (fun _ => k))
  (at level 61, right associativity) : handler_scope.
Local Open Scope handler_scope.

Definition ask : M Env := fun env w => (Value env, w).
Definition get_db : M Db := fun _ w => (Value (db w), w).
Definition put_db (d : Db) : M unit :=
  fun _ w => (Value tt, MkWorld d (clock_reads w) (entropy_reads w)).

(** [Date.now()] *)
Definition date_now : M Z :=
  fun env w =>
    (Value (clock env (clock_reads w)),
     MkWorld (db w) (S (clock_reads w)) (entropy_reads w)).

(** The [n] bytes of the entropy source from position [pos] on. *)
Definition draw (env : Env) (pos n : nat) : list N :=
  map (fun i => (entropy env (pos + i) mod 256)%N) (seq 0 n).

(** [crypto.getRandomValues(new Uint8Array(n))] *)
Definition getRandomValues (n : nat) : M (list N) :=
  fun env w =>
    (Value (draw env (entropy_reads w) n),
     MkWorld (db w) (clock_reads w) (entropy_reads w + n)).

(** [try { body } catch { return fallback }] *)
Definition try_catch {A} (body : M A) (fallback : A) : Env -> World -> A * World :=
  fun env w =>
    match body env w with
    | (Value a, w') => (a, w')
    | (Thrown, w') => (fallback, w')
    end.

(* ================================================================== *)
(** ** SQL statements of the handlers *)

Module Sql.

(** [SELECT ... FROM users WHERE email = ?], [.first()] *)
Definition select_user_by_email (email : jsstring) : M (option user_row) :=
  d <- get_db ;;
  ret (find (fun u => jsstring_eqb (user_email u) email) (users d)).

(** [INSERT INTO users (id, email, password_hash, verified, created_at)
    VALUES (?, ?, ?, 0, ?)] *)
Definition insert_user (id email password_hash : jsstring) (created_at : Z)
  : M unit :=
  d <- get_db ;;
  if has_user d id
     || existsb (fun u => jsstring_eqb (user_email u) email) (users d)
  then throw
  else put_db (MkDb (users d ++ [UserRow id email password_hash 0 created_at])
                    (email_verification_tokens d) (sessions d) (messages d)).

(** [UPDATE users SET verified = 1 WHERE id = ?] *)
Definition set_verified (id : jsstring) (u : user_row) : user_row :=
  if jsstring_eqb (user_id u) id
  then UserRow (user_id u) (user_email u) (user_password_hash u) 1
               (user_created_at u)
  else u.

Definition update_user_verified (id : jsstring) : M unit :=
  d <- get_db ;;
  put_db (MkDb (map (set_verified id) (users d))
               (email_verification_tokens d) (sessions d) (messages d)).

(** [INSERT INTO email_verification_tokens (token, user_id, expires_at)
    VALUES (?, ?, ?)] *)
Definition insert_token (token user : jsstring) (expires_at : Z) : M unit :=
  d <- get_db ;;
  if existsb (fun t => jsstring_eqb (token_token t) token)
             (email_verification_tokens d)
     || negb (has_user d user)
  then throw
  else put_db (MkDb (users d)
                    (email_verification_tokens d
                       ++ [TokenRow token user expires_at])
                    (sessions d) (messages d)).

(** [SELECT user_id, expires_at FROM email_verification_tokens
    WHERE token = ?], [.first()] *)
Definition select_token (token : jsstring) : M (option token_row) :=
  d <- get_db ;;
  ret (find (fun t => jsstring_eqb (token_token t) token)
            (email_verification_tokens d)).

(** [DELETE FROM email_verification_tokens WHERE token = ?] *)
Definition delete_token (token : jsstring) : M unit :=
  d <- get_db ;;
  put_db (MkDb (users d)
               (filter (fun t => negb (jsstring_eqb (token_token t) token))
                       (email_verification_tokens d))
               (sessions d) (messages d)).

(** AUTOINCREMENT: one more than the largest rowid. *)
Definition next_message_id (ms : list message_row) : Z :=
  fold_right (fun m acc => Z.max (message_id m) acc) 0%Z ms + 1.

(** [INSERT INTO messages (user_id, message, created_at) VALUES (?, ?, ?)];
    the text read back from the row is [stored_text message]. *)
Definition insert_message (user message : jsstring) (created_at : Z)
  : M unit :=
  d <- get_db ;;
  if negb (has_user d user) then throw
  else put_db (MkDb (users d) (email_verification_tokens d) (sessions d)
                    (messages d
                       ++ [MessageRow (next_message_id (messages d))
                                      user (stored_text message)
                                      created_at])).

End Sql.

(* ================================================================== *)
(** ** JavaScript numbers reaching the message query *)

(** [parseInt] yields an integer or [NaN].  The integer is kept exact; it
    is the JavaScript value as long as it stays below 2^53 in absolute
    value (beyond that JavaScript rounds to a double), and the statements
    about numeric cursors are made within that range. *)
Inductive jsnumber :=
| Num (z : Z)
| NaN.

Definition digit_value (c : N) : option N :=
  if ((48 <=? c) && (c <=? 57))%N then Some (c - 48)%N
  else if ((97 <=? c) && (c <=? 122))%N then Some (c - 87)%N
  else if ((65 <=? c) && (c <=? 90))%N then Some (c - 55)%N
  else None.

(** Value of the longest prefix of radix digits; [None] when it is empty. *)
Fixpoint parse_digits (radix : N) (s : jsstring) (acc : option N) : option N :=
  match s with
  | [] => acc
  | c :: rest =>
      match digit_value c with
      | Some d =>
          if (d <? radix)%N
          then parse_digits radix rest
                 (Some (match acc with
                        | Some a => a * radix + d
                        | None => d
                        end)%N)
          else acc
      | None => acc
      end
  end.

(** An optional sign is taken off the front. *)
Definition strip_sign (s : jsstring) : Z * jsstring :=
  match s with
  | c :: r =>
      if N.eqb c 45 then ((-1)%Z, r)        (* - *)
      else if N.eqb c 43 then (1%Z, r)      (* + *)
      else (1%Z, s)
  | [] => (1%Z, s)
  end.

(** With no radix given, a leading 0x or 0X selects radix 16. *)
Definition strip_prefix (s : jsstring) : N * jsstring :=
  match s with
  | z :: x :: r =>
      if (N.eqb z 48 && (N.eqb x 120 || N.eqb x 88))%bool
      then (16%N, r) else (10%N, s)
  | _ => (10%N, s)
  end.

(** [parseInt(string)] with no radix argument. *)
Definition parseInt (string : jsstring) : jsnumber :=
  let '(sign, s1) := strip_sign (trimStart string) in
  let '(radix, s2) := strip_prefix s1 in
  match parse_digits radix s2 None with
  | None => NaN
  | Some v => Num (sign * Z.of_N v)
  end.

(* ================================================================== *)
(** ** The message query *)

(** A row of [SELECT m.id, m.message, m.created_at, u.email]. *)
Record joined_row := JoinedRow {
  row_id : Z;
  row_message : jsstring;
  row_created_at : Z;
  row_email : jsstring
}.

(** [m.created_at > ?]; no row is greater than [NaN]. *)
Definition created_after (after : jsnumber) (r : joined_row) : bool :=
  match after with
  | Num t => (t <? row_created_at r)%Z
  | NaN => false
  end.

(** [FROM messages m JOIN users u ON m.user_id = u.id] *)
Definition join_users (us : list user_row) (m : message_row)
  : list joined_row :=
  map (fun u => JoinedRow (message_id m) (message_message m)
                          (message_created_at m) (user_email u))
      (filter (fun u => jsstring_eqb (message_user_id m) (user_id u)) us).

(** [ORDER BY m.created_at ASC]: insertion sort, ties in rowid order. *)
Fixpoint insert_by_created_at (r : joined_row) (l : list joined_row)
  : list joined_row :=
  match l with
  | [] => [r]
  | x :: l' =>
      if (row_created_at r <=? row_created_at x)%Z then r :: l
      else x :: insert_by_created_at r l'
  end.

Definition order_by_created_at (l : list joined_row) : list joined_row :=
  fold_right insert_by_created_at [] l.

Definition select_messages (d : Db) (after : jsnumber) : list joined_row :=
  firstn 100
    (order_by_created_at
       (filter (created_after after)
               (flat_map (join_users (users d)) (messages d)))).

(* ================================================================== *)
(** ** Session manager *)

Module Lucia.

Record Cookie := MkCookie {
  cookie_name : jsstring;
  cookie_value : jsstring;
  cookie_secure : bool;
  cookie_path : jsstring;
  cookie_max_age : option Z
}.

Definition sessionCookieName : jsstring := js "auth_session".

Definition insert_session (id user : jsstring) (expires_at : Z) : M unit :=
  d <- get_db ;;
  if existsb (fun s => jsstring_eqb (session_id s) id) (sessions d)
     || negb (has_user d user)
  then throw
  else put_db (MkDb (users d) (email_verification_tokens d)
                    (sessions d ++ [SessionRow id user expires_at])
                    (messages d)).

Definition delete_session (id : jsstring) : M unit :=
  d <- get_db ;;
  put_db (MkDb (users d) (email_verification_tokens d)
               (filter (fun s => negb (jsstring_eqb (session_id s) id))
                       (sessions d))
               (messages d)).

(** Modelled from the spec: the session library is not part of the
    sources.  "createSession(userId): generates an opaque session
    identifier, sets an expiry (a fixed duration from now), persists the
    record". *)
Definition createSession (userId : jsstring) : M session_row :=
  env <- ask ;;
  randomValues <- getRandomValues (session_id_length env) ;;
  now <- date_now ;;
  let id := generateToken randomValues in
  let expires_at := (now + session_ttl env)%Z in
  insert_session id userId expires_at ;;
  ret (SessionRow id userId expires_at).

(** Modelled from the spec: "returns a cookie-equivalent credential (name,
    value, attributes including secure, path scoping)". *)
Definition createSessionCookie (id : jsstring) : Cookie :=
  MkCookie sessionCookieName id true (js "/") None.

(** Modelled from the spec: "blankCredential(): a credential value that
    instructs the caller to clear any stored session cookie (empty value,
    immediate expiry)". *)
Definition createBlankSessionCookie : Cookie :=
  MkCookie sessionCookieName [] true (js "/") (Some 0%Z).

(** Modelled from the spec: "validateSession(sessionId): looks up the
    session by identifier; if absent or expired, treat as invalid and, for
    expired sessions, delete the stale record as a side effect.  If valid,
    joins to the owning User and returns both". *)
Definition validateSession (sessionId : jsstring)
  : M (option (session_row * user_row)) :=
  d <- get_db ;;
  match find (fun s => jsstring_eqb (session_id s) sessionId) (sessions d) with
  | None => ret None
  | Some s =>
      match find (fun u => jsstring_eqb (user_id u) (session_user_id s))
                 (users d) with
      | None => ret None
      | Some u =>
          now <- date_now ;;
          if (now <? session_expires_at s)%Z then ret (Some (s, u))
          else delete_session sessionId ;; ret None
      end
  end.

(** Modelled from the spec: "invalidateSession(sessionId): deletes the
    session record if present; idempotent". *)
Definition invalidateSession (sessionId : jsstring) : M unit :=
  delete_session sessionId.

End Lucia.

(* ================================================================== *)
(** ** src/lib/utils.ts and src/lib/resend.ts inside a request *)

(** [generateToken(length)] with its own draw. *)
Definition generateTokenM (length : nat) : M jsstring :=
  randomValues <- getRandomValues length ;;
  ret (generateToken randomValues).

(** [`user_${Date.now()}_${generateToken(16)}`] *)
Definition generateUserId : M jsstring :=
  now <- date_now ;;
  token <- generateTokenM 16 ;;
  ret (js "user_" ++ number_toString now ++ js "_" ++ token).

Definition hashPasswordM (password : jsstring) : M jsstring :=
  randomValues <- getRandomValues 16 ;;
  ret (hashPassword randomValues password).

Record send_result := MkSendResult {
  success : bool;
  error : option jsstring
}.

(** What [sendEmail] returns for each outcome of its [fetch]: a response
    that is not ok, and any exception, become a failure. *)
Definition send_result_of (r : fetch_result) : send_result :=
  match r with
  | FetchRejects => MkSendResult false (Some (js "Failed to send email"))
  | FetchResponse status text =>
      if ((200 <=? status) && (status <=? 299))%Z
      then MkSendResult true None
      else
        match text with
        | None => MkSendResult false (Some (js "Failed to send email"))
        | Some _ =>
            MkSendResult false
              (Some (js "Failed to send email: " ++ number_toString status))
        end
  end.

(** [sendEmail(options)]: never throws. *)
Definition sendEmail (options : EmailOptions) : M send_result :=
  env <- ask ;;
  ret (send_result_of (resend_fetch env options)).

Definition generateVerificationEmail (verifyUrl : jsstring) : M jsstring :=
  env <- ask ;;
  ret (markup_head env ++ verifyUrl ++ markup_middle env ++ verifyUrl
         ++ markup_tail env).

(* ================================================================== *)
(** ** Requests and responses *)

(** One element of the [messages] array of GET /api/messages. *)
Record message_view := MessageView {
  view_id : Z;
  view_message : jsstring;
  view_email : jsstring;
  view_createdAt : Z
}.

Inductive payload :=
| JsonError (error : option jsstring)      (* { ok: false, error } *)
| JsonOk (message : jsstring)              (* { ok: true, message } *)
| JsonUser (id email : jsstring) (verified : Z)
| JsonMessages (messages : list message_view)
| Html (markup : jsstring)
| Redirect (location : jsstring).

Record response := MkResponse {
  status : Z;
  body : payload;
  set_cookie : option Lucia.Cookie
}.

Definition json_error (code : Z) (msg : string) : response :=
  MkResponse code (JsonError (Some (js msg))) None.
Definition json_ok (msg : string) : response :=
  MkResponse 200 (JsonOk (js msg)) None.
Definition html (markup : string) : response :=
  MkResponse 200 (Html (js markup)) None.

(** Body of POST /api/register and POST /api/login after [c.req.json()],
    for a body whose [email] and [password] are strings or absent; a field
    that is absent is [None].  A body that gives either field another kind
    of JSON value (a number, a boolean, an array, an object) is not
    covered. *)
Record credentials := MkCredentials {
  email : option jsstring;
  password : option jsstring
}.

(** [await c.req.json()]: rejects when the body is not JSON. *)
Definition req_json {A} (parsed : option A) : M A :=
  match parsed with
  | Some b => ret b
  | None => throw
  end.

(** Subject line of the verification mail. *)
Definition mail_subject : jsstring :=
  [0x30E1; 0x30FC; 0x30EB; 0x8A8D; 0x8A3C; 0x3092; 0x5B8C; 0x4E86;
   0x3057; 0x3066; 0x304F; 0x3060; 0x3055; 0x3044]%N.

(* ================================================================== *)
(** ** src/index.tsx: the handlers *)

(** POST /api/register *)
Definition register_body (json : option credentials) : M response :=
  b <- req_json json ;;
  match email b, password b with
  | Some (ec :: et), Some (pc :: pt) =>
      let email := ec :: et in
      let password := pc :: pt in
      if (length password <? 8)%nat
      then ret (json_error 400 "Password must be at least 8 characters")
      else
        existingUser <- Sql.select_user_by_email email ;;
        match existingUser with
        | Some _ => ret (json_error 400 "Email already registered")
        | None =>
            userId <- generateUserId ;;
            passwordHash <- hashPasswordM password ;;
            createdAt <- date_now ;;
            Sql.insert_user userId email passwordHash createdAt ;;
            token <- generateTokenM 48 ;;
            now <- date_now ;;
            let expiresAt := (now + 60 * 60 * 1000)%Z in
            Sql.insert_token token userId expiresAt ;;
            env <- ask ;;
            let baseUrl := match BASE_URL env with
                           | Some (uc :: ut) => uc :: ut
                           | _ => request_origin env
                           end in
            let verifyUrl := baseUrl ++ js "/verify?token=" ++ token in
            match RESEND_API_KEY env with
            | Some (kc :: kt) =>
                let apiKey := kc :: kt in
                mail <- generateVerificationEmail verifyUrl ;;
                emailResult <- sendEmail
                  (MkEmailOptions email mail_subject mail apiKey) ;;
                if negb (success emailResult)
                then ret (MkResponse 500 (JsonError (error emailResult)) None)
                else ret (json_ok "Check your email for verification link")
            | _ => ret (json_error 500 "Email service is not configured")
            end
        end
  | _, _ => ret (json_error 400 "Email and password are required")
  end.

Definition post_api_register (json : option credentials)
  : Env -> World -> response * World :=
  try_catch (register_body json) (json_error 500 "Registration failed").

(** GET /verify *)
Definition verify_body (query_token : option jsstring) : M response :=
  match query_token with
  | Some (tc :: tl) =>
      let token := tc :: tl in
      tokenData <- Sql.select_token token ;;
      match tokenData with
      | None => ret (html "<h1>Invalid or expired verification link</h1>")
      | Some tokenData =>
          now <- date_now ;;
          if (token_expires_at tokenData <? now)%Z
          then
            Sql.delete_token token ;;
            ret (html "<h1>Verification link has expired</h1>")
          else
            Sql.update_user_verified (token_user_id tokenData) ;;
            Sql.delete_token token ;;
            session <- Lucia.createSession (token_user_id tokenData) ;;
            let sessionCookie := Lucia.createSessionCookie (session_id session) in
            ret (MkResponse 302 (Redirect (js "/chat")) (Some sessionCookie))
      end
  | _ => ret (html "<h1>Invalid verification link</h1>")
  end.

Definition get_verify (query_token : option jsstring)
  : Env -> World -> response * World :=
  try_catch (verify_body query_token) (html "<h1>Verification failed</h1>").

(** POST /api/login.  [verify] stands for the call
    [verifyPassword(user.password_hash, password)]. *)
Section Login.

Variable verify : jsstring -> jsstring -> M bool.

Definition login_body (json : option credentials) : M response :=
  b <- req_json json ;;
  match email b, password b with
  | Some (ec :: et), Some (pc :: pt) =>
      let email := ec :: et in
      let password := pc :: pt in
      user <- Sql.select_user_by_email email ;;
      match user with
      | None => ret (json_error 401 "Invalid email or password")
      | Some user =>
          if (user_verified user =? 0)%Z
          then ret (json_error 401 "Please verify your email first")
          else
            isValidPassword <- verify (user_password_hash user) password ;;
            if negb isValidPassword
            then ret (json_error 401 "Invalid email or password")
            else
              session <- Lucia.createSession (user_id user) ;;
              let sessionCookie :=
                Lucia.createSessionCookie (session_id session) in
              ret (MkResponse 200 (JsonOk (js "Login successful"))
                              (Some sessionCookie))
      end
  | _, _ => ret (json_error 400 "Email and password are required")
  end.

Definition login_with (json : option credentials)
  : Env -> World -> response * World :=
  try_catch (login_body json) (json_error 500 "Login failed").

End Login.

Definition verifyPasswordM (hash password : jsstring) : M bool :=
  ret (verifyPassword hash password).

Definition post_api_login : option credentials -> Env -> World -> response * World :=
  login_with verifyPasswordM.

(** POST /api/logout; [sessionId] is
    [getCookie(c, lucia.sessionCookieName)]. *)
Definition logout_body (sessionId : option jsstring) : M response :=
  match sessionId with
  | Some (sc :: st) => Lucia.invalidateSession (sc :: st)
  | _ => ret tt
  end ;;
  ret (MkResponse 200 (JsonOk (js "Logout successful"))
                  (Some Lucia.createBlankSessionCookie)).

Definition post_api_logout (sessionId : option jsstring)
  : Env -> World -> response * World :=
  try_catch (logout_body sessionId) (json_error 500 "Logout failed").

(** GET /api/user *)
Definition user_body (sessionId : option jsstring) : M response :=
  match sessionId with
  | Some (sc :: st) =>
      validated <- Lucia.validateSession (sc :: st) ;;
      match validated with
      | None => ret (json_error 401 "Invalid session")
      | Some (_, user) =>
          ret (MkResponse 200
                 (JsonUser (user_id user) (user_email user)
                           (user_verified user))
                 None)
      end
  | _ => ret (json_error 401 "Not authenticated")
  end.

Definition get_api_user (sessionId : option jsstring)
  : Env -> World -> response * World :=
  try_catch (user_body sessionId) (json_error 500 "Failed to get user").

(** POST /api/messages; the body is [{ message }]. *)
Definition post_message_body (sessionId : option jsstring)
  (json : option (option jsstring)) : M response :=
  match sessionId with
  | Some (sc :: st) =>
      validated <- Lucia.validateSession (sc :: st) ;;
      match validated with
      | None => ret (json_error 401 "Invalid session")
      | Some (_, user) =>
          message <- req_json json ;;
          match message with
          | Some (mc :: mt) =>
              let message := mc :: mt in
              if (length (trim message) =? 0)%nat
              then ret (json_error 400 "Message cannot be empty")
              else if (1000 <? length message)%nat
              then ret (json_error 400
                          "Message is too long (max 1000 characters)")
              else
                createdAt <- date_now ;;
                Sql.insert_message (user_id user) (trim message) createdAt ;;
                ret (json_ok "Message posted")
          | _ => ret (json_error 400 "Message cannot be empty")
          end
      end
  | _ => ret (json_error 401 "Not authenticated")
  end.

Definition post_api_messages (sessionId : option jsstring)
  (json : option (option jsstring)) : Env -> World -> response * World :=
  try_catch (post_message_body sessionId json)
            (json_error 500 "Failed to post message").

(** GET /api/messages; [after] is [c.req.query('after')]. *)
Definition afterTimestamp (after : option jsstring) : jsnumber :=
  match after with
  | Some (ac :: at_) => parseInt (ac :: at_)
  | _ => Num 0
  end.

(** [{ id: msg.id, message: msg.message, email: msg.email,
       createdAt: msg.created_at }] *)
Definition to_view (msg : joined_row) : message_view :=
  MessageView (row_id msg) (row_message msg) (row_email msg)
              (row_created_at msg).

Definition messages_body (after : option jsstring) : M response :=
  d <- get_db ;;
  let results := select_messages d (afterTimestamp after) in
  ret (MkResponse 200 (JsonMessages (map to_view results)) None).

Definition get_api_messages (after : option jsstring)
  : Env -> World -> response * World :=
  try_catch (messages_body after) (json_error 500 "Failed to get messages").

(** The routes of the application that touch the store. *)
Inductive request :=
| PostRegister (json : option credentials)
| GetVerify (query_token : option jsstring)
| PostLogin (json : option credentials)
| PostLogout (sessionId : option jsstring)
| GetUser (sessionId : option jsstring)
| PostMessage (sessionId : option jsstring) (json : option (option jsstring))
| GetMessages (after : option jsstring).

Definition handle (r : request) : Env -> World -> response * World :=
  match r with
  | PostRegister json => post_api_register json
  | GetVerify t => get_verify t
  | PostLogin json => post_api_login json
  | PostLogout sid => post_api_logout sid
  | GetUser sid => get_api_user sid
  | PostMessage sid json => post_api_messages sid json
  | GetMessages after => get_api_messages after
  end.

(** A run of the server: each request meets its own environment. *)
Fixpoint run (trace : list (Env * request)) (w : World) : World :=
  match trace with
  | [] => w
  | (env, r) :: rest => run rest (snd (handle r env w))
  end.

(* ================================================================== *)
(** ** Notions used in the statements *)

(** Two hexadecimal characters of one byte, as [to_hex] writes them. *)
Definition hex_byte (b : N) : jsstring := padStart 2 48%N (toString 16 b).

(** The bytes [hashPassword] draws for its salt in world [w]. *)
Definition salt_bytes (env : Env) (w : World) : list N :=
  draw env (entropy_reads w) 16.

(** Email of the author of a message. *)
Definition author_email (d : Db) (m : message_row) : jsstring :=
  match find (fun u => jsstring_eqb (message_user_id m) (user_id u))
             (users d) with
  | Some u => user_email u
  | None => []
  end.

(** A stored message as GET /api/messages shows it. *)
Definition view_of (d : Db) (m : message_row) : message_view :=
  MessageView (message_id m) (message_message m) (author_email d m)
              (message_created_at m).

(** Rows in nondecreasing [created_at]. *)
Definition rows_ascending (l : list joined_row) : Prop :=
  StronglySorted (fun a b => (row_created_at a <= row_created_at b)%Z) l.

(** Nondecreasing [createdAt]. *)
Definition ascending (vs : list message_view) : Prop :=
  StronglySorted (fun a b => (view_createdAt a <= view_createdAt b)%Z) vs.

(** The cursor of the chat page:
    [lastTimestamp = Math.max(lastTimestamp, msg.createdAt)] over the
    messages of a response. *)
Definition max_seen (lastTimestamp : Z) (vs : list message_view) : Z :=
  fold_left (fun acc v => Z.max acc (view_createdAt v)) vs lastTimestamp.


(** A 400 answer carrying an error message. *)
Definition validation_error (r : response) : Prop :=
  status r = 400%Z /\ exists e, body r = JsonError (Some e).

(** The session [sid] is valid at the next reading of the clock: it is
    stored, its owner exists and it has not expired. *)
Definition valid_session (env : Env) (w : World) (sid : jsstring)
  (s : session_row) (u : user_row) : Prop :=
  sid <> [] /\
  find (fun s => jsstring_eqb (session_id s) sid) (sessions (db w)) = Some s /\
  find (fun u => jsstring_eqb (user_id u) (session_user_id s)) (users (db w))
  = Some u /\
  (clock env (clock_reads w) < session_expires_at s)%Z.

(** The store after one more message. *)
Definition with_message (d : Db) (user text : jsstring) (created_at : Z) : Db :=
  MkDb (users d) (email_verification_tokens d) (sessions d)
       (messages d ++ [MessageRow (Sql.next_message_id (messages d))
                                  user text created_at]).

(** What POST /api/register draws and writes in world [w]: the user
    id, the two rows, and the mail it hands to the dispatcher. *)
Definition register_user_id (env : Env) (w : World) : jsstring :=
  js "user_" ++ number_toString (clock env (clock_reads w)) ++ js "_"
    ++ generateToken (draw env (entropy_reads w) 16).







(** The row of a verification token, if it is stored. *)
Definition stored_token (d : Db) (token : jsstring) : option token_row :=
  find (fun t => jsstring_eqb (token_token t) token)
       (email_verification_tokens d).

(** The session identifier that [createSession] draws in world [w]. *)
Definition next_session_id (env : Env) (w : World) : jsstring :=
  generateToken (draw env (entropy_reads w) (session_id_length env)).

(** The store after a token has been used: its owner is marked, the
    token is gone. *)
Definition with_verification (d : Db) (t : token_row) : Db :=
  MkDb (map (Sql.set_verified (token_user_id t)) (users d))
       (filter (fun x => negb (jsstring_eqb (token_token x) (token_token t)))
               (email_verification_tokens d))
       (sessions d) (messages d).

(** The store after a token has been dropped. *)
Definition without_token (d : Db) (token : jsstring) : Db :=
  MkDb (users d)
       (filter (fun x => negb (jsstring_eqb (token_token x) token))
               (email_verification_tokens d))
       (sessions d) (messages d).

(** The store after one more session. *)
Definition with_session (d : Db) (s : session_row) : Db :=
  MkDb (users d) (email_verification_tokens d) (sessions d ++ [s])
       (messages d).

(** A relation between the worlds before and after that every run of
    the computation [m] establishes, whether it returns or throws. *)
Definition framed (P : World -> World -> Prop) {A} (m : M A) : Prop :=
  forall env w, P w (snd (m env w)).

(** The user rows are the same. *)
Definition same_users (w w' : World) : Prop :=
  users (db w') = users (db w).

(** The user rows are the same, followed by new rows that are all
    unverified. *)
Definition adds_unverified (w w' : World) : Prop :=
  exists new, users (db w') = users (db w) ++ new /\
              Forall (fun u => user_verified u = 0%Z) new.

(** The constraints of the schema survive. *)
Definition keeps_schema (w w' : World) : Prop :=
  schema_ok (db w) -> schema_ok (db w').

(** A small store: a verified and an unverified account, a pending
    token, a session and two messages. *)
Definition alice : user_row :=
  UserRow (js "user_1_A") (js "alice@x.com")
          (hashPassword (map N.of_nat (seq 1 16)) (js "correct horse"))
          1 10.

Definition bob : user_row :=
  UserRow (js "user_2_B") (js "bob@x.com")
          (hashPassword (map N.of_nat (seq 40 16)) (js "battery staple"))
          0 20.

Definition sample_db : Db :=
  MkDb [alice; bob]
       [TokenRow (js "tokbob") (js "user_2_B") 5000]
       [SessionRow (js "sessalice") (js "user_1_A") 9000]
       [MessageRow 1 (js "user_1_A") (js "hello") 100;
        MessageRow 2 (js "user_1_A") (js "again") 200].

Definition sample_world : World := MkWorld sample_db 0 0.

Definition sample_env : Env :=
  MkEnv (fun n => 1000 + Z.of_nat n)%Z (fun n => N.of_nat (7 * n + 3))
        (Some (js "re_key")) None (js "https://chat.example")
        (fun _ => FetchResponse 200 (Some []))
        (js "<a href=") (js ">verify</a> ") (js "")
        40 2592000000.


Definition failing_mail_env : Env :=
  MkEnv (clock sample_env) (entropy sample_env) (RESEND_API_KEY sample_env)
        (BASE_URL sample_env) (request_origin sample_env)
        (fun _ => FetchResponse 503 (Some (js "unavailable")))
        (markup_head sample_env) (markup_middle sample_env)
        (markup_tail sample_env) (session_id_length sample_env)
        (session_ttl sample_env).

(** The sample environment with the clock standing at 5000, the expiry
    of the sample token. *)
Definition expiry_instant_env : Env :=
  MkEnv (fun _ => 5000%Z) (entropy sample_env) (RESEND_API_KEY sample_env)
        (BASE_URL sample_env) (request_origin sample_env)
        (resend_fetch sample_env)
        (markup_head sample_env) (markup_middle sample_env)
        (markup_tail sample_env) (session_id_length sample_env)
        (session_ttl sample_env).

(* ================================================================== *)
(** ** Notions used in the further properties *)

(** Letters and digits, the alphabet of [generateToken]. *)
Definition is_alnum (c : N) : bool :=
  ((48 <=? c) && (c <=? 57) || (65 <=? c) && (c <=? 90)
   || (97 <=? c) && (c <=? 122))%N.

(** The characters [toString(16)] writes. *)
Definition is_lower_hex (c : N) : bool :=
  ((48 <=? c) && (c <=? 57) || (97 <=? c) && (c <=? 102))%N.

(** A code unit that UTF-8 keeps as one byte. *)
Definition is_ascii (c : N) : bool := (c <? 128)%N.

Definition is_decimal_digit (c : N) : bool := ((48 <=? c) && (c <=? 57))%N.

(** The largest integer up to which JavaScript numbers are exact. *)
Definition max_safe_integer : Z := 2 ^ 53 - 1.

(** What may follow a number without changing what [parseInt] reads:
    nothing, or a character that is neither a decimal digit nor the x of a
    hexadecimal prefix. *)
Definition stops_number (rest : jsstring) : bool :=
  match rest with
  | [] => true
  | c :: _ => negb (is_decimal_digit c) && negb (N.eqb c 120) && negb (N.eqb c 88)
  end.

(** The value [parse_digits] has accumulated. *)
Definition accumulated (acc : option N) : N :=
  match acc with
  | Some a => a
  | None => 0
  end.


(** The store without the session [sid]. *)
Definition without_session (d : Db) (sid : jsstring) : Db :=
  MkDb (users d) (email_verification_tokens d)
       (filter (fun s => negb (jsstring_eqb (session_id s) sid)) (sessions d))
       (messages d).

(** The constant answer of POST /api/logout. *)
Definition logout_ok : response :=
  MkResponse 200 (JsonOk (js "Logout successful"))
             (Some Lucia.createBlankSessionCookie).


(** The session row [createSession] stores for [uid] in world [w]. *)
Definition next_session (env : Env) (w : World) (uid : jsstring) : session_row :=
  SessionRow (next_session_id env w) uid
             (clock env (clock_reads w) + session_ttl env).

(** The world after [createSession] has stored its row. *)
Definition session_world (env : Env) (w : World) (uid : jsstring) : World :=
  MkWorld (with_session (db w) (next_session env w uid))
          (S (clock_reads w)) (entropy_reads w + session_id_length env).


(** What a request may do to one table of the store: leave it as it is,
    only delete rows of it, or only add rows at its end. *)
Definition keeps {A} (tbl : Db -> list A) (w w' : World) : Prop :=
  tbl (db w') = tbl (db w).

Definition only_deletes {A} (tbl : Db -> list A) (w w' : World) : Prop :=
  exists keep, tbl (db w') = filter keep (tbl (db w)).

Definition only_appends {A} (tbl : Db -> list A) (w w' : World) : Prop :=
  exists new, tbl (db w') = tbl (db w) ++ new.

(** Some stored row of the user [uid] has its flag set. *)
Definition verified_in (d : Db) (uid : jsstring) : Prop :=
  exists u, In u (users d) /\ user_id u = uid /\ user_verified u <> 0%Z.

(** Every session belongs to a verified user. *)
Definition sessions_verified (d : Db) : Prop :=
  forall s, In s (sessions d) -> verified_in d (session_user_id s).

(** Every message was written by a verified user and holds a trimmed,
    non-empty text of at most 1000 code units. *)
Definition messages_wellformed (d : Db) : Prop :=
  forall m, In m (messages d) ->
    verified_in d (message_user_id m) /\
    message_message m <> [] /\
    trim (message_message m) = message_message m /\
    (length (message_message m) <= 1000)%nat.

Definition accounts_ok (d : Db) : Prop :=
  sessions_verified d /\ messages_wellformed d.

(** A surrogate code unit. *)
Definition is_surrogate (c : N) : bool :=
  Utf8.is_high_surrogate c || Utf8.is_low_surrogate c.

(** A unit as the store gives it back: itself, or U+FFFD in the place of
    a surrogate. *)
Definition unit_stored (c c' : N) : Prop :=
  c' = c \/ (is_surrogate c = true /\ c' = 0xFFFD%N).

(** [t] is [text] without the white space at its two ends. *)
Definition trimmed_of (text t : jsstring) : Prop :=
  exists l r,
    text = l ++ t ++ r /\
    forallb is_js_space l = true /\ forallb is_js_space r = true /\
    (t = [] \/
     (is_js_space (hd 0%N t) = false /\ is_js_space (last t 0%N) = false)).

(** An integer that a JavaScript number holds exactly. *)
Definition safe_integer (z : Z) : Prop := (Z.abs z <= max_safe_integer)%Z.

(** A store of 101 messages, written at the instants 1 to 101. *)
Definition crowded_db : Db :=
  MkDb [alice] [] []
       (map (fun i => MessageRow (Z.of_nat i) (js "user_1_A") (js "m")
                                 (Z.of_nat i))
            (seq 1 101)).

Definition crowded_world : World := MkWorld crowded_db 0 0.

(* ================================================================== *)
(** * Properties *)

Unset Implicit Arguments.

(** ** Strings and bytes *)

Lemma jsstring_eqb_eq (a b : jsstring) : jsstring_eqb a b = true <-> a = b.
Proof.
  unfold jsstring_eqb. destruct (list_eq_dec N.eq_dec a b); split; congruence.
Qed.

Lemma jsstring_eqb_refl (a : jsstring) : jsstring_eqb a a = true.
Proof. now apply jsstring_eqb_eq. Qed.

Lemma jsstring_eqb_neq (a b : jsstring) : jsstring_eqb a b = false <-> a <> b.
Proof.
  unfold jsstring_eqb. destruct (list_eq_dec N.eq_dec a b); split; congruence.
Qed.

(** A property checked on 0 .. k-1 holds below k. *)
Lemma below_forallb (f : N -> bool) (k : nat) :
  forallb (fun i => f (N.of_nat i)) (seq 0 k) = true ->
  forall b, (b < N.of_nat k)%N -> f b = true.
Proof.
  intros H b Hb. rewrite forallb_forall in H.
  rewrite <- (N2Nat.id b). apply H. apply in_seq. lia.
Qed.

Lemma split_on_free (sep : N) (s : jsstring) :
  Forall (fun c => c <> sep) s -> split_on sep s = [s].
Proof.
  induction 1 as [|c s Hc _ IH]; simpl; [reflexivity|].
  apply N.eqb_neq in Hc. now rewrite Hc, IH.
Qed.

Lemma split_on_first (sep : N) (a b : jsstring) :
  Forall (fun c => c <> sep) a ->
  split_on sep (a ++ sep :: b) = a :: split_on sep b.
Proof.
  induction 1 as [|c a Hc _ IH]; simpl.
  - now rewrite N.eqb_refl.
  - apply N.eqb_neq in Hc. now rewrite Hc, IH.
Qed.

Lemma app_eq_same_length {A} (a a' b b' : list A) :
  length a = length a' -> a ++ b = a' ++ b' -> a = a' /\ b = b'.
Proof.
  revert a'. induction a as [|x a IH]; destruct a' as [|x' a']; simpl;
    try discriminate; intros Hl He.
  - now split.
  - injection He as -> He. destruct (IH a') as [-> ->]; [lia|exact He|].
    now split.
Qed.

(** ** White space, and text that comes back from the store *)

Lemma trimStart_length (s : jsstring) : (length (trimStart s) <= length s)%nat.
Proof.
  induction s as [|c s IH]; [reflexivity|]. cbn [trimStart].
  destruct (is_js_space c); cbn [length]; lia.
Qed.

Lemma trim_length (s : jsstring) : (length (trim s) <= length s)%nat.
Proof.
  unfold trim, trimEnd. rewrite length_rev.
  etransitivity; [apply trimStart_length|]. rewrite length_rev.
  apply trimStart_length.
Qed.

Lemma trimStart_idem (s : jsstring) : trimStart (trimStart s) = trimStart s.
Proof.
  induction s as [|c s IH]; [reflexivity|]. cbn [trimStart].
  destruct (is_js_space c) eqn:E; [exact IH|]. cbn [trimStart]. now rewrite E.
Qed.

Lemma trimStart_head (s : jsstring) :
  trimStart s = [] \/
  exists c t, trimStart s = c :: t /\ is_js_space c = false.
Proof.
  induction s as [|c s IH]; [now left|]. cbn [trimStart].
  destruct (is_js_space c) eqn:E; [exact IH|]. right. now exists c, s.
Qed.

Lemma trimStart_keeps_last (x : jsstring) (c : N) :
  is_js_space c = false -> exists y, trimStart (x ++ [c]) = y ++ [c].
Proof.
  intros Hc. induction x as [|a x IH]; cbn [app trimStart].
  - rewrite Hc. now exists [].
  - destruct (is_js_space a); [exact IH|]. now exists (a :: x).
Qed.

Lemma trim_idem (s : jsstring) : trim (trim s) = trim s.
Proof.
  unfold trim, trimEnd.
  destruct (trimStart_head s) as [E|(c & t & E & Hc)]; rewrite E;
    [reflexivity|].
  cbn [rev]. destruct (trimStart_keeps_last (rev t) c Hc) as [y Ey].
  rewrite Ey, rev_app_distr. cbn [rev app trimStart]. rewrite Hc.
  cbn [rev]. rewrite rev_involutive, <- Ey, trimStart_idem, Ey.
  now rewrite rev_app_distr.
Qed.

(** What [trim] removes, and what it leaves. *)
Lemma trimStart_split (s : jsstring) :
  exists l, s = l ++ trimStart s /\ forallb is_js_space l = true.
Proof.
  induction s as [|c s (l & E & Hl)]; [now exists []|]. cbn [trimStart].
  destruct (is_js_space c) eqn:Hc; [|now exists []].
  exists (c :: l). cbn [app forallb]. rewrite Hc, Hl.
  split; [now f_equal|reflexivity].
Qed.

Lemma forallb_rev {A} (f : A -> bool) (l : list A) :
  forallb f (rev l) = forallb f l.
Proof.
  induction l as [|a l IH]; [reflexivity|]. cbn [rev forallb].
  rewrite forallb_app, IH. cbn [forallb].
  now rewrite andb_true_r, andb_comm.
Qed.

Lemma trimEnd_split (s : jsstring) :
  exists r, s = trimEnd s ++ r /\ forallb is_js_space r = true.
Proof.
  unfold trimEnd. destruct (trimStart_split (rev s)) as (l & E & Hl).
  exists (rev l). split; [|now rewrite forallb_rev].
  apply (f_equal (@rev N)) in E.
  now rewrite rev_involutive, rev_app_distr in E.
Qed.

Lemma trim_ends (s : jsstring) :
  trim s = [] \/
  (is_js_space (hd 0%N (trim s)) = false /\
   is_js_space (last (trim s) 0%N) = false).
Proof.
  unfold trim, trimEnd.
  destruct (trimStart_head s) as [E|(c & t & E & Hc)]; rewrite E;
    [now left|].
  right. cbn [rev].
  destruct (trimStart_keeps_last (rev t) c Hc) as [y Ey].
  destruct (trimStart_head (rev t ++ [c])) as [E2|(d & x & E2 & Hd)];
    rewrite Ey in E2; [now destruct y|].
  rewrite Ey. split.
  - rewrite rev_app_distr. exact Hc.
  - rewrite E2. cbn [rev]. now rewrite last_last.
Qed.

Lemma trim_trimmed_of (text : jsstring) : trimmed_of text (trim text).
Proof.
  destruct (trimStart_split text) as (l & El & Hl).
  destruct (trimEnd_split (trimStart text)) as (r & Er & Hr).
  exists l, r. unfold trim at 1. rewrite <- Er.
  split; [exact El|]. split; [exact Hl|]. split; [exact Hr|].
  apply trim_ends.
Qed.

Lemma trim_blank (text : jsstring) :
  forallb is_js_space text = true -> trim text = [].
Proof.
  intros H. unfold trim.
  replace (trimStart text) with (@nil N); [reflexivity|].
  induction text as [|c text IH]; [reflexivity|].
  cbn [forallb] in H. apply andb_true_iff in H as [Hc H].
  cbn [trimStart]. rewrite Hc. now apply IH.
Qed.

Lemma trim_same_length (s : jsstring) :
  length (trim s) = length s -> trim s = s.
Proof.
  destruct (trim_trimmed_of s) as (l & r & E & _). intros Hlen.
  apply (f_equal (@length N)) in E as E'. rewrite !length_app in E'.
  assert (Hl : l = []) by (apply length_zero_iff_nil; lia).
  assert (Hr : r = []) by (apply length_zero_iff_nil; lia).
  subst l r. now rewrite app_nil_r in E.
Qed.

(** What the store gives back for a text. *)
Lemma text_after_units (prev_high : bool) (s : jsstring) :
  Forall2 unit_stored s (text_after prev_high s).
Proof.
  revert prev_high. induction s as [|c rest IH]; intros prev_high;
    cbn [text_after]; constructor; [|apply IH].
  unfold unit_stored, is_surrogate.
  destruct (Utf8.is_high_surrogate c) eqn:Hh.
  - destruct rest as [|d rest']; [now right|].
    destruct (Utf8.is_low_surrogate d); [now left|now right].
  - destruct (Utf8.is_low_surrogate c) eqn:Hlow; [|now left].
    destruct prev_high; [now left|now right].
Qed.

Lemma stored_text_units (s : jsstring) : Forall2 unit_stored s (stored_text s).
Proof. apply text_after_units. Qed.

Lemma stored_text_length (s : jsstring) : length (stored_text s) = length s.
Proof. symmetry. exact (Forall2_length (stored_text_units s)). Qed.

Lemma text_after_plain (prev_high : bool) (s : jsstring) :
  existsb is_surrogate s = false -> text_after prev_high s = s.
Proof.
  revert prev_high. induction s as [|c rest IH]; intros prev_high H;
    [reflexivity|].
  cbn [existsb] in H. apply orb_false_iff in H as [Hc H].
  unfold is_surrogate in Hc. apply orb_false_iff in Hc as [Hh Hlow].
  cbn [text_after]. rewrite Hh, Hlow. now rewrite IH.
Qed.

(** The text that comes back has the UTF-8 bytes of the text that was
    bound. *)
Lemma encode_replaced (s : jsstring) :
  Utf8.encode (0xFFFD%N :: s) = Utf8.replacement ++ Utf8.encode s.
Proof. reflexivity. Qed.

Lemma high_surrogate_wide (c : N) :
  Utf8.is_high_surrogate c = true ->
  (c <? 0x80)%N = false /\ (c <? 0x800)%N = false /\
  Utf8.is_low_surrogate c = false.
Proof.
  unfold Utf8.is_high_surrogate, Utf8.is_low_surrogate. intros H.
  apply andb_true_iff in H as [H1 H2]. apply N.leb_le in H1, H2.
  split; [apply N.ltb_ge; lia|]. split; [apply N.ltb_ge; lia|].
  apply andb_false_iff. left. apply N.leb_gt. lia.
Qed.

Lemma low_surrogate_wide (c : N) :
  Utf8.is_low_surrogate c = true ->
  (c <? 0x80)%N = false /\ (c <? 0x800)%N = false /\
  Utf8.is_high_surrogate c = false.
Proof.
  unfold Utf8.is_high_surrogate, Utf8.is_low_surrogate. intros H.
  apply andb_true_iff in H as [H1 H2]. apply N.leb_le in H1, H2.
  split; [apply N.ltb_ge; lia|]. split; [apply N.ltb_ge; lia|].
  apply andb_false_iff. right. apply N.leb_gt. lia.
Qed.

Lemma encode_lone_low (c : N) (s : jsstring) :
  Utf8.is_low_surrogate c = true ->
  Utf8.encode (c :: s) = Utf8.replacement ++ Utf8.encode s.
Proof.
  intros Hl. destruct (low_surrogate_wide c Hl) as (H1 & H2 & Hh).
  cbn [Utf8.encode]. now rewrite H1, H2, Hh, Hl.
Qed.

Lemma encode_text_after (prev_high : bool) (s : jsstring) :
  Utf8.encode (text_after prev_high s) = Utf8.encode s.
Proof.
  revert prev_high. induction s as [|c rest IH]; intros prev_high;
    [reflexivity|].
  cbn [text_after].
  destruct (Utf8.is_high_surrogate c) eqn:Hh.
  - destruct (high_surrogate_wide c Hh) as (H1 & H2 & _).
    destruct rest as [|d rest'].
    + cbn [text_after]. rewrite encode_replaced.
      cbn [Utf8.encode]. now rewrite H1, H2, Hh.
    + destruct (Utf8.is_low_surrogate d) eqn:Hl.
      * destruct (low_surrogate_wide d Hl) as (_ & _ & Hdh).
        pose proof (IH true) as IHd. cbn [text_after] in IHd.
        rewrite Hdh, Hl in IHd. rewrite !(encode_lone_low d _ Hl) in IHd.
        apply app_inv_head in IHd.
        cbn [text_after]. rewrite Hdh, Hl.
        cbn [Utf8.encode]. rewrite H1, H2, Hh, Hl. now rewrite IHd.
      * rewrite encode_replaced, IH.
        cbn [Utf8.encode]. now rewrite H1, H2, Hh, Hl.
  - destruct (Utf8.is_low_surrogate c) eqn:Hl.
    + rewrite (encode_lone_low c rest Hl).
      destruct prev_high;
        [rewrite (encode_lone_low c _ Hl)|rewrite encode_replaced];
        now rewrite IH.
    + cbn [Utf8.encode]. rewrite Hh, Hl, IH. reflexivity.
Qed.

Lemma encode_stored_text (s : jsstring) :
  Utf8.encode (stored_text s) = Utf8.encode s.
Proof. apply encode_text_after. Qed.

Lemma surrogate_not_space (c : N) :
  is_surrogate c = true -> is_js_space c = false.
Proof.
  intros H.
  assert (Hr : (0xD800 <= c <= 0xDFFF)%N).
  { unfold is_surrogate, Utf8.is_high_surrogate, Utf8.is_low_surrogate in H.
    apply orb_true_iff in H as [H|H]; apply andb_true_iff in H as [H1 H2];
      apply N.leb_le in H1, H2; lia. }
  unfold is_js_space. cbn [existsb].
  repeat match goal with
         | |- context [N.eqb c ?k] =>
             destruct (N.eqb_spec c k) as [E|_]; [rewrite E in Hr; lia|];
             cbn [orb]
         end.
  reflexivity.
Qed.

Lemma unit_stored_space (c c' : N) :
  unit_stored c c' -> is_js_space c' = is_js_space c.
Proof.
  intros [->|[Hs ->]]; [reflexivity|].
  now rewrite (surrogate_not_space c Hs).
Qed.

Lemma trimStart_units (s s' : jsstring) :
  Forall2 unit_stored s s' ->
  Forall2 unit_stored (trimStart s) (trimStart s').
Proof.
  induction 1 as [|c c' s s' Hc Hs IH]; [constructor|]. cbn [trimStart].
  rewrite (unit_stored_space c c' Hc).
  destruct (is_js_space c); [exact IH|now constructor].
Qed.

Lemma rev_units (s s' : jsstring) :
  Forall2 unit_stored s s' -> Forall2 unit_stored (rev s) (rev s').
Proof.
  induction 1 as [|c c' s s' Hc Hs IH]; [constructor|]. cbn [rev].
  apply Forall2_app; [exact IH|]. constructor; [exact Hc|constructor].
Qed.

Lemma trim_units (s s' : jsstring) :
  Forall2 unit_stored s s' -> Forall2 unit_stored (trim s) (trim s').
Proof.
  intros H. unfold trim, trimEnd.
  now apply rev_units, trimStart_units, rev_units, trimStart_units.
Qed.

(** A trimmed text is still trimmed when it comes back from the store. *)
Lemma stored_text_trimmed (s : jsstring) :
  trim (stored_text (trim s)) = stored_text (trim s).
Proof.
  apply trim_same_length.
  pose proof (trim_units _ _ (stored_text_units (trim s))) as H.
  rewrite trim_idem in H. apply Forall2_length in H.
  now rewrite <- H, stored_text_length.
Qed.

Lemma stored_text_not_empty (s : jsstring) : s <> [] -> stored_text s <> [].
Proof.
  intros Hs E. apply Hs, length_zero_iff_nil.
  now rewrite <- stored_text_length, E.
Qed.

(** ** The comparison loop of verifyPassword *)

Lemma compare_loop_zero (steps i : nat) (a b : jsstring) (r : N) :
  compare_loop steps i a b r = 0%N <->
  r = 0%N /\ forall j, (j < steps)%nat -> nth (i + j) a 0%N = nth (i + j) b 0%N.
Proof.
  revert i r. induction steps as [|n IH]; intros i r; simpl.
  - split; [intros ->; split; [reflexivity|intros; lia]|tauto].
  - rewrite IH. unfold charCodeAt. rewrite N.lor_eq_0_iff, N.lxor_eq_0_iff.
    split.
    + intros [[-> Hi] Hrest]. split; [reflexivity|].
      intros [|j] Hj.
      * now rewrite Nat.add_0_r.
      * replace (i + S j)%nat with (S i + j)%nat by lia. apply Hrest. lia.
    + intros [-> Hall]. repeat split.
      * specialize (Hall 0%nat). rewrite Nat.add_0_r in Hall. apply Hall. lia.
      * intros j Hj. replace (S i + j)%nat with (i + S j)%nat by lia.
        apply Hall. lia.
Qed.

Lemma compare_loop_eq (a b : jsstring) :
  length a = length b ->
  (N.eqb (compare_loop (length a) 0 a b 0%N) 0%N = true <-> a = b).
Proof.
  intros Hl. rewrite N.eqb_eq, compare_loop_zero. split.
  - intros [_ H]. apply (nth_ext a b 0%N 0%N Hl). intros n Hn. now apply H.
  - intros ->. now split.
Qed.

(** ** Hexadecimal rendering of bytes *)

Lemma hex_byte_length (b : N) : (b < 256)%N -> length (hex_byte b) = 2%nat.
Proof.
  intros Hb.
  apply Nat.eqb_eq.
  apply (below_forallb (fun b => Nat.eqb (length (hex_byte b)) 2) 256);
    [vm_compute; reflexivity|exact Hb].
Qed.

Lemma hex_byte_no_colon (b : N) :
  (b < 256)%N -> Forall (fun c => c <> colon) (hex_byte b).
Proof.
  intros Hb.
  assert (H : forallb (fun c => negb (N.eqb c colon)) (hex_byte b) = true).
  { apply (below_forallb
             (fun b => forallb (fun c => negb (N.eqb c colon)) (hex_byte b))
             256); [vm_compute; reflexivity|exact Hb]. }
  rewrite forallb_forall in H. apply Forall_forall. intros c Hc.
  specialize (H c Hc). apply negb_true_iff in H. now apply N.eqb_neq.
Qed.

Lemma hex_byte_inj (b1 b2 : N) :
  (b1 < 256)%N -> (b2 < 256)%N -> hex_byte b1 = hex_byte b2 -> b1 = b2.
Proof.
  intros H1 H2 He.
  pose (inner := fun x : N =>
          forallb (fun j => implb (jsstring_eqb (hex_byte x)
                                                (hex_byte (N.of_nat j)))
                                  (N.eqb x (N.of_nat j)))
                  (seq 0 256)).
  assert (H : inner b1 = true)
    by (apply (below_forallb inner 256); [vm_compute; reflexivity|exact H1]).
  unfold inner in H.
  pose proof (below_forallb
                (fun y => implb (jsstring_eqb (hex_byte b1) (hex_byte y))
                                (N.eqb b1 y)) 256 H b2 H2) as Hb.
  cbv beta in Hb. rewrite He, jsstring_eqb_refl in Hb. simpl in Hb.
  now apply N.eqb_eq.
Qed.

Lemma to_hex_cons (b : N) (bs : list N) :
  to_hex (b :: bs) = hex_byte b ++ to_hex bs.
Proof. reflexivity. Qed.

Lemma to_hex_length (bs : list N) :
  Forall (fun b => (b < 256)%N) bs -> length (to_hex bs) = (2 * length bs)%nat.
Proof.
  induction 1 as [|b bs Hb _ IH]; [reflexivity|].
  rewrite to_hex_cons, length_app, hex_byte_length, IH by exact Hb.
  simpl. lia.
Qed.

Lemma to_hex_no_colon (bs : list N) :
  Forall (fun b => (b < 256)%N) bs -> Forall (fun c => c <> colon) (to_hex bs).
Proof.
  induction 1 as [|b bs Hb _ IH]; [constructor|].
  rewrite to_hex_cons. apply Forall_app. split; [now apply hex_byte_no_colon|exact IH].
Qed.

Lemma to_hex_inj (bs1 bs2 : list N) :
  Forall (fun b => (b < 256)%N) bs1 -> Forall (fun b => (b < 256)%N) bs2 ->
  to_hex bs1 = to_hex bs2 -> bs1 = bs2.
Proof.
  intros H1. revert bs2. induction H1 as [|b1 bs1 Hb1 Hbs1 IH];
    intros bs2 H2 He.
  - destruct H2 as [|b2 bs2 Hb2 _]; [reflexivity|].
    rewrite to_hex_cons in He. pose proof (hex_byte_length b2 Hb2) as Hl.
    simpl in He. destruct (hex_byte b2); [discriminate Hl|discriminate He].
  - destruct H2 as [|b2 bs2 Hb2 Hbs2].
    + rewrite to_hex_cons in He. pose proof (hex_byte_length b1 Hb1) as Hl.
      simpl in He. destruct (hex_byte b1); [discriminate Hl|discriminate He].
    + rewrite !to_hex_cons in He.
      apply app_eq_same_length in He as [Hh Ht];
        [|now rewrite !hex_byte_length].
      f_equal; [now apply hex_byte_inj|now apply IH].
Qed.

(** ** SHA-256 returns thirty-two bytes *)

Lemma be_bytes_byte (count : nat) (v : N) :
  Forall (fun b => (b < 256)%N) (Sha256.be_bytes count v).
Proof.
  unfold Sha256.be_bytes. apply Forall_forall. intros b Hb.
  apply in_map_iff in Hb as [i [<- _]].
  change 255%N with (N.ones 8). rewrite N.land_ones.
  apply N.mod_lt. discriminate.
Qed.

Lemma digest_bytes (msg : list N) :
  Forall (fun b => (b < 256)%N) (Sha256.digest msg).
Proof.
  unfold Sha256.digest, Sha256.chain_bytes.
  repeat (apply Forall_app; split); apply be_bytes_byte.
Qed.

Lemma digest_length (msg : list N) : length (Sha256.digest msg) = 32%nat.
Proof.
  unfold Sha256.digest, Sha256.chain_bytes.
  rewrite !length_app. unfold Sha256.be_bytes.
  rewrite !length_map, !length_seq. reflexivity.
Qed.

(** ** generateToken *)

Lemma token_chars_no_colon : Forall (fun c => c <> colon) token_chars.
Proof.
  apply Forall_forall. intros c Hc.
  assert (H : forallb (fun c => negb (N.eqb c colon)) token_chars = true)
    by (vm_compute; reflexivity).
  rewrite forallb_forall in H. specialize (H c Hc).
  apply negb_true_iff in H. now apply N.eqb_neq.
Qed.

Lemma generateToken_length (rv : list N) :
  length (generateToken rv) = length rv.
Proof. apply length_map. Qed.

Lemma generateToken_no_colon (rv : list N) :
  Forall (fun c => c <> colon) (generateToken rv).
Proof.
  unfold generateToken. apply Forall_forall. intros c Hc.
  apply in_map_iff in Hc as [v [<- _]].
  pose proof token_chars_no_colon as H. rewrite Forall_forall in H.
  apply H. apply nth_In.
  assert (v mod N.of_nat (length token_chars) < N.of_nat (length token_chars))%N
    by (apply N.mod_lt; vm_compute; discriminate).
  lia.
Qed.

(** ** hashPassword and verifyPassword *)

(** What [verifyPassword] computes on a well-formed stored digest. *)
Lemma verifyPassword_parts (salt stored computed p' : jsstring) :
  salt <> [] -> stored <> [] ->
  Forall (fun c => c <> colon) salt -> Forall (fun c => c <> colon) stored ->
  computed = to_hex (Sha256.digest (Utf8.encode (salt ++ p'))) ->
  length computed = length stored ->
  (verifyPassword (salt ++ colon :: stored) p' = true <-> computed = stored).
Proof.
  intros Hsalt Hstored Hcs Hch Hcomputed Hlen. unfold verifyPassword.
  rewrite (split_on_first colon salt stored Hcs), (split_on_free colon stored Hch).
  cbn [nth_error]. cbv zeta. rewrite <- Hcomputed. clear Hcomputed.
  destruct salt as [|s0 salt]; [congruence|].
  destruct stored as [|h0 stored]; [congruence|].
  cbn [falsy orb].
  rewrite Hlen, Nat.eqb_refl. cbn [negb].
  rewrite <- Hlen. now apply compare_loop_eq.
Qed.

(** A stored digest [salt:hex] with a non-empty colon-free salt is
    accepted for exactly the candidates with the same salted digest. *)
Lemma verifyPassword_salted (salt p p' : jsstring) :
  salt <> [] -> Forall (fun c => c <> colon) salt ->
  (verifyPassword
     (salt ++ [colon] ++ to_hex (Sha256.digest (Utf8.encode (salt ++ p)))) p'
   = true
   <-> Sha256.digest (Utf8.encode (salt ++ p'))
       = Sha256.digest (Utf8.encode (salt ++ p))).
Proof.
  intros Hne Hsalt.
  pose proof (digest_bytes (Utf8.encode (salt ++ p))) as Hb.
  pose proof (digest_bytes (Utf8.encode (salt ++ p'))) as Hb'.
  pose proof (digest_length (Utf8.encode (salt ++ p))) as Hd.
  pose proof (digest_length (Utf8.encode (salt ++ p'))) as Hd'.
  revert Hb Hb' Hd Hd'.
  generalize (Sha256.digest (Utf8.encode (salt ++ p))) as d.
  intros d Hb Hb' Hd Hd'.
  change (salt ++ [colon] ++ to_hex d) with (salt ++ colon :: to_hex d).
  rewrite (verifyPassword_parts salt (to_hex d)
             (to_hex (Sha256.digest (Utf8.encode (salt ++ p')))) p').
  - split; [now apply to_hex_inj|now intros ->].
  - exact Hne.
  - pose proof (to_hex_length d Hb) as Hl. rewrite Hd in Hl.
    destruct (to_hex d); [discriminate Hl|discriminate].
  - exact Hsalt.
  - now apply to_hex_no_colon.
  - reflexivity.
  - rewrite !to_hex_length by assumption. now rewrite Hd, Hd'.
Qed.



(** ** Decimal numbers through parseInt *)

Lemma digit_char_value (d : N) :
  (d < 10)%N ->
  digit_value (digit_char d) = Some d /\ is_decimal_digit (digit_char d) = true.
Proof.
  intros Hd.
  pose (chk := fun d : N =>
          match digit_value (digit_char d) with
          | Some v => N.eqb v d
          | None => false
          end && is_decimal_digit (digit_char d)).
  assert (H : chk d = true)
    by (apply (below_forallb chk 10); [vm_compute; reflexivity|exact Hd]).
  unfold chk in H. apply andb_true_iff in H as [Hv Hdig].
  split; [|exact Hdig].
  destruct (digit_value (digit_char d)) as [v|]; [|discriminate Hv].
  apply N.eqb_eq in Hv. now subst v.
Qed.

Lemma toString_aux_decimal (fuel : nat) (n : N) :
  exists c cs, toString_aux fuel 10 n = c :: cs /\
               forallb is_decimal_digit (c :: cs) = true.
Proof.
  revert n. induction fuel as [|fuel IH]; intros n; cbn [toString_aux].
  - eexists. eexists. split; [reflexivity|]. cbn [forallb].
    rewrite (proj2 (digit_char_value (n mod 10) ltac:(apply N.mod_lt; discriminate))).
    reflexivity.
  - destruct (N.ltb_spec n 10) as [Hlt|Hge].
    + eexists. eexists. split; [reflexivity|]. cbn [forallb].
      now rewrite (proj2 (digit_char_value n Hlt)).
    + destruct (IH (n / 10)%N) as (c & cs & -> & Hall).
      exists c, (cs ++ [digit_char (n mod 10)]). split; [reflexivity|].
      change (c :: cs ++ [digit_char (n mod 10)])
        with ((c :: cs) ++ [digit_char (n mod 10)]).
      rewrite forallb_app, Hall. cbn [forallb].
      rewrite (proj2 (digit_char_value (n mod 10) ltac:(apply N.mod_lt; discriminate))).
      reflexivity.
Qed.

Lemma parse_digits_digit (d : N) (rest : jsstring) (acc : option N) :
  (d < 10)%N ->
  parse_digits 10 (digit_char d :: rest) acc
  = parse_digits 10 rest (Some (accumulated acc * 10 + d)%N).
Proof.
  intros Hd. cbn [parse_digits].
  rewrite (proj1 (digit_char_value d Hd)).
  apply N.ltb_lt in Hd. rewrite Hd. destruct acc; reflexivity.
Qed.

Lemma parse_digits_stop (rest : jsstring) (acc : option N) :
  match rest with
  | [] => true
  | c :: _ => negb (is_decimal_digit c)
  end = true ->
  parse_digits 10 rest acc = acc.
Proof.
  destruct rest as [|c rest]; [reflexivity|]. intros Hc.
  apply negb_true_iff in Hc. unfold is_decimal_digit in Hc.
  cbn [parse_digits]. unfold digit_value. rewrite Hc.
  destruct ((97 <=? c) && (c <=? 122))%N eqn:Hlow.
  - apply andb_true_iff in Hlow as [Hl _]. apply N.leb_le in Hl.
    replace (c - 87 <? 10)%N with false; [reflexivity|].
    symmetry. apply N.ltb_ge. lia.
  - destruct ((65 <=? c) && (c <=? 90))%N eqn:Hup; [|reflexivity].
    apply andb_true_iff in Hup as [Hl _]. apply N.leb_le in Hl.
    replace (c - 55 <? 10)%N with false; [reflexivity|].
    symmetry. apply N.ltb_ge. lia.
Qed.

(** The digits printed for [n] accumulate to [n]. *)
Lemma parse_digits_toString_aux (fuel : nat) (n : N) (rest : jsstring)
  (acc : option N) :
  (n < 10 ^ N.of_nat (S fuel))%N ->
  parse_digits 10 (toString_aux fuel 10 n ++ rest) acc
  = parse_digits 10 rest
      (Some (accumulated acc
             * 10 ^ N.of_nat (length (toString_aux fuel 10 n)) + n)%N).
Proof.
  revert n rest acc. induction fuel as [|fuel IH]; intros n rest acc Hn.
  - change (10 ^ N.of_nat 1)%N with 10%N in Hn.
    cbn [toString_aux length app]. rewrite N.mod_small by exact Hn.
    rewrite parse_digits_digit by exact Hn.
    change (10 ^ N.of_nat 1)%N with 10%N. reflexivity.
  - cbn [toString_aux]. destruct (N.ltb_spec n 10) as [Hlt|Hge].
    + cbn [length app]. rewrite parse_digits_digit by exact Hlt.
      change (10 ^ N.of_nat 1)%N with 10%N. reflexivity.
    + assert (Hq : (n / 10 < 10 ^ N.of_nat (S fuel))%N).
      { apply N.Div0.div_lt_upper_bound.
        rewrite <- N.pow_succ_r', <- Nat2N.inj_succ. exact Hn. }
      rewrite <- app_assoc. cbn [app]. rewrite IH by exact Hq.
      rewrite parse_digits_digit by (apply N.mod_lt; discriminate).
      cbn [accumulated]. rewrite length_app. cbn [length].
      rewrite Nat.add_1_r, Nat2N.inj_succ, N.pow_succ_r'.
      f_equal. f_equal.
      pose proof (N.div_mod n 10 ltac:(discriminate)) as Hdm. lia.
Qed.

Lemma pos_below_pow2 (p : positive) :
  (N.pos p < 2 ^ N.of_nat (Pos.size_nat p))%N.
Proof.
  induction p as [p IH|p IH|]; cbn [Pos.size_nat];
    rewrite ?Nat2N.inj_succ, ?N.pow_succ_r'; lia.
Qed.

Lemma below_pow10_size (n : N) : (n < 10 ^ N.of_nat (S (N.size_nat n)))%N.
Proof.
  assert (H2 : (n < 2 ^ N.of_nat (N.size_nat n))%N).
  { destruct n as [|p]; [reflexivity|apply pos_below_pow2]. }
  assert (Hle : (2 ^ N.of_nat (N.size_nat n) <= 10 ^ N.of_nat (N.size_nat n))%N)
    by (apply N.pow_le_mono_l; lia).
  rewrite Nat2N.inj_succ, N.pow_succ_r'.
  assert (0 < 10 ^ N.of_nat (N.size_nat n))%N by (apply N.neq_0_lt_0, N.pow_nonzero; discriminate).
  lia.
Qed.

Lemma parse_digits_toString (n : N) (rest : jsstring) :
  match rest with
  | [] => true
  | c :: _ => negb (is_decimal_digit c)
  end = true ->
  parse_digits 10 (toString 10 n ++ rest) None = Some n.
Proof.
  intros Hrest. unfold toString.
  rewrite parse_digits_toString_aux by apply below_pow10_size.
  rewrite parse_digits_stop by exact Hrest. reflexivity.
Qed.

Lemma decimal_is_not_space (c : N) :
  is_decimal_digit c = true -> is_js_space c = false.
Proof.
  unfold is_decimal_digit. intros H. apply andb_true_iff in H as [Hl Hu].
  apply N.leb_le in Hl, Hu. unfold is_js_space. cbn [existsb].
  repeat match goal with
         | |- context [N.eqb c ?k] =>
             replace (N.eqb c k) with false by (symmetry; apply N.eqb_neq; lia)
         end.
  reflexivity.
Qed.

Lemma stops_number_weaken (rest : jsstring) :
  stops_number rest = true ->
  match rest with
  | [] => true
  | c :: _ => negb (is_decimal_digit c)
  end = true.
Proof.
  destruct rest as [|c rest]; [reflexivity|]. unfold stops_number.
  intros H. apply andb_true_iff in H as [H _].
  now apply andb_true_iff in H as [H _].
Qed.

(** A run of decimal digits followed by a stop has no 0x prefix. *)
Lemma strip_prefix_decimal (c : N) (cs rest : jsstring) :
  forallb is_decimal_digit (c :: cs) = true -> stops_number rest = true ->
  strip_prefix ((c :: cs) ++ rest) = (10%N, (c :: cs) ++ rest).
Proof.
  intros Hd Hrest. cbn [forallb] in Hd. apply andb_true_iff in Hd as [_ Hcs].
  unfold strip_prefix. cbn [app].
  destruct cs as [|x cs]; cbn [app].
  - destruct rest as [|x rest]; [reflexivity|].
    unfold stops_number in Hrest.
    apply andb_true_iff in Hrest as [Hrest H88].
    apply andb_true_iff in Hrest as [_ H120].
    apply negb_true_iff in H88, H120. rewrite H88, H120.
    now rewrite andb_false_r.
  - cbn [forallb] in Hcs. apply andb_true_iff in Hcs as [Hx _].
    unfold is_decimal_digit in Hx. apply andb_true_iff in Hx as [Hl Hu].
    apply N.leb_le in Hl, Hu.
    replace (N.eqb x 120) with false by (symmetry; apply N.eqb_neq; lia).
    replace (N.eqb x 88) with false by (symmetry; apply N.eqb_neq; lia).
    now rewrite andb_false_r.
Qed.

Lemma parseInt_unsigned (n : N) (rest : jsstring) :
  stops_number rest = true ->
  strip_sign (toString 10 n ++ rest) = (1%Z, toString 10 n ++ rest) /\
  trimStart (toString 10 n ++ rest) = toString 10 n ++ rest /\
  (let '(radix, s2) := strip_prefix (toString 10 n ++ rest) in
   parse_digits radix s2 None) = Some n.
Proof.
  intros Hrest.
  pose proof (parse_digits_toString n rest (stops_number_weaken rest Hrest))
    as Hparse.
  unfold toString in *.
  destruct (toString_aux_decimal (N.size_nat n) n) as (c & cs & E & Hd).
  rewrite E in *.
  assert (Hc : is_decimal_digit c = true)
    by (cbn [forallb] in Hd; now apply andb_true_iff in Hd as [Hc _]).
  pose proof Hc as Hc'. unfold is_decimal_digit in Hc'.
  apply andb_true_iff in Hc' as [Hl Hu]. apply N.leb_le in Hl, Hu.
  split; [|split].
  - cbn [app strip_sign].
    replace (N.eqb c 45) with false by (symmetry; apply N.eqb_neq; lia).
    replace (N.eqb c 43) with false by (symmetry; apply N.eqb_neq; lia).
    reflexivity.
  - cbn [app trimStart]. now rewrite (decimal_is_not_space c Hc).
  - rewrite (strip_prefix_decimal c cs rest Hd Hrest). exact Hparse.
Qed.

Lemma parseInt_decimal (n : Z) (rest : jsstring) :
  stops_number rest = true ->
  parseInt (number_toString n ++ rest) = Num n.
Proof.
  intros Hrest. unfold parseInt, number_toString.
  destruct (Z.ltb_spec n 0) as [Hneg|Hpos].
  - destruct (parseInt_unsigned (Z.to_N (- n)) rest Hrest) as (_ & _ & Hp).
    cbn [app trimStart].
    replace (is_js_space 45) with false by reflexivity.
    cbn [strip_sign]. replace (N.eqb 45 45) with true by reflexivity.
    destruct (strip_prefix (toString 10 (Z.to_N (- n)) ++ rest)) as [radix s2].
    rewrite Hp. f_equal. lia.
  - destruct (parseInt_unsigned (Z.to_N n) rest Hrest) as (Hs & Ht & Hp).
    rewrite Ht, Hs.
    destruct (strip_prefix (toString 10 (Z.to_N n) ++ rest)) as [radix s2].
    rewrite Hp. f_equal. lia.
Qed.

Lemma number_toString_not_empty (n : Z) : number_toString n <> [].
Proof.
  unfold number_toString, toString.
  destruct (n <? 0)%Z; [discriminate|].
  destruct (toString_aux_decimal (N.size_nat (Z.to_N n)) (Z.to_N n))
    as (c & cs & -> & _).
  discriminate.
Qed.

Lemma afterTimestamp_number (n : Z) :
  afterTimestamp (Some (number_toString n)) = Num n.
Proof.
  assert (H : parseInt (number_toString n) = Num n).
  { rewrite <- (app_nil_r (number_toString n)). now apply parseInt_decimal. }
  pose proof (number_toString_not_empty n) as Hne.
  unfold afterTimestamp. destruct (number_toString n); [congruence|exact H].
Qed.

(** ** The message query *)

Lemma insert_by_created_at_perm (r : joined_row) (l : list joined_row) :
  Permutation (r :: l) (insert_by_created_at r l).
Proof.
  induction l as [|x l IH]; simpl; [reflexivity|].
  destruct (row_created_at r <=? row_created_at x)%Z; [reflexivity|].
  rewrite perm_swap. now constructor.
Qed.

Lemma order_by_created_at_perm (l : list joined_row) :
  Permutation l (order_by_created_at l).
Proof.
  induction l as [|r l IH]; simpl; [constructor|].
  rewrite <- insert_by_created_at_perm. now constructor.
Qed.

Lemma insert_by_created_at_sorted (r : joined_row) (l : list joined_row) :
  rows_ascending l -> rows_ascending (insert_by_created_at r l).
Proof.
  unfold rows_ascending.
  induction 1 as [|x l Hl IH Hx]; simpl.
  - repeat constructor.
  - destruct (row_created_at r <=? row_created_at x)%Z eqn:E.
    + apply Z.leb_le in E. constructor; [now constructor|].
      constructor; [exact E|].
      rewrite Forall_forall in Hx |- *. intros y Hy.
      specialize (Hx y Hy). simpl in *. lia.
    + apply Z.leb_gt in E. constructor; [exact IH|].
      rewrite Forall_forall in Hx |- *. intros y Hy.
      apply (Permutation_in _ (Permutation_sym (insert_by_created_at_perm r l)))
        in Hy.
      destruct Hy as [<-|Hy]; [lia|now apply Hx].
Qed.

Lemma order_by_created_at_sorted (l : list joined_row) :
  rows_ascending (order_by_created_at l).
Proof.
  induction l as [|r l IH]; simpl; [constructor|].
  now apply insert_by_created_at_sorted.
Qed.

Lemma StronglySorted_firstn {A} (R : A -> A -> Prop) (n : nat) (l : list A) :
  StronglySorted R l -> StronglySorted R (firstn n l).
Proof.
  intros H. revert n. induction H as [|x l Hl IH Hx]; intros [|n]; simpl;
    try constructor.
  - apply IH.
  - rewrite Forall_forall in Hx |- *. intros y Hy. apply Hx.
    rewrite <- (firstn_skipn n l). apply in_or_app. now left.
Qed.

Lemma ascending_map_to_view (l : list joined_row) :
  rows_ascending l -> ascending (map to_view l).
Proof.
  unfold rows_ascending, ascending.
  induction 1 as [|x l Hl IH Hx]; simpl; constructor; [exact IH|].
  rewrite Forall_forall in Hx |- *. intros y Hy.
  apply in_map_iff in Hy as [r [<- Hr]]. simpl. now apply Hx.
Qed.

(** With unique ids the join finds at most one author. *)
Lemma filter_by_id_unique (id : jsstring) (us : list user_row) :
  NoDup (map user_id us) ->
  filter (fun u => jsstring_eqb id (user_id u)) us
  = match find (fun u => jsstring_eqb id (user_id u)) us with
    | Some u => [u]
    | None => []
    end.
Proof.
  induction us as [|u us IH]; simpl; [reflexivity|].
  intros Hnd. apply NoDup_cons_iff in Hnd as [Hnotin Hnd].
  destruct (jsstring_eqb id (user_id u)) eqn:E.
  - f_equal. apply jsstring_eqb_eq in E.
    rewrite IH by exact Hnd.
    destruct (find _ us) as [u'|] eqn:F; [|reflexivity].
    apply find_some in F as [Hin Heq]. apply jsstring_eqb_eq in Heq.
    exfalso. apply Hnotin. rewrite <- E, Heq. now apply in_map.
  - now apply IH.
Qed.

Lemma has_user_find (d : Db) (id : jsstring) :
  has_user d id = true ->
  exists u, find (fun u => jsstring_eqb id (user_id u)) (users d) = Some u.
Proof.
  unfold has_user. intros H. apply existsb_exists in H as [u [Hin Heq]].
  destruct (find (fun u => jsstring_eqb id (user_id u)) (users d)) as [u'|] eqn:F.
  - now exists u'.
  - exfalso. apply (find_none _ _ F) in Hin.
    apply jsstring_eqb_eq in Heq. rewrite <- Heq, jsstring_eqb_refl in Hin.
    discriminate.
Qed.

Lemma join_users_view (d : Db) (m : message_row) :
  NoDup (map user_id (users d)) ->
  has_user d (message_user_id m) = true ->
  map to_view (join_users (users d) m) = [view_of d m].
Proof.
  intros Hnd Hfk. unfold join_users, view_of, author_email.
  rewrite filter_by_id_unique by exact Hnd.
  destruct (@has_user_find d _ Hfk) as [u ->]. reflexivity.
Qed.

(** In a store that satisfies its schema each message is joined to
    exactly one author. *)
Lemma joined_views (d : Db) (ms : list message_row) (f : Z -> bool) :
  NoDup (map user_id (users d)) ->
  (forall m, In m ms -> has_user d (message_user_id m) = true) ->
  map to_view
      (filter (fun r => f (row_created_at r))
              (flat_map (join_users (users d)) ms))
  = map (view_of d) (filter (fun m => f (message_created_at m)) ms).
Proof.
  intros Hnd Hfk. induction ms as [|m ms IH]; [reflexivity|].
  cbn [flat_map]. rewrite filter_app, map_app.
  rewrite IH by (intros m' Hm'; apply Hfk; now right).
  assert (Hm : has_user d (message_user_id m) = true) by (apply Hfk; now left).
  pose proof (@join_users_view d m Hnd Hm) as Hj.
  unfold join_users in *. rewrite filter_by_id_unique in * by exact Hnd.
  destruct (@has_user_find d _ Hm) as [u Hu]. rewrite Hu in *.
  cbn [map] in Hj.
  pose proof (f_equal (hd (view_of d m)) Hj) as E. cbn [hd] in E.
  cbn [map filter row_created_at].
  destruct (f (message_created_at m)); cbn [map app filter]; [|reflexivity].
  now rewrite E.
Qed.

Lemma max_seen_ge (t : Z) (vs : list message_view) :
  (t <= max_seen t vs)%Z /\
  Forall (fun v => (view_createdAt v <= max_seen t vs)%Z) vs.
Proof.
  unfold max_seen. revert t. induction vs as [|v vs IH]; intros t; simpl.
  - split; [lia|constructor].
  - destruct (IH (Z.max t (view_createdAt v))) as [H1 H2].
    split; [lia|]. constructor; [lia|exact H2].
Qed.


Lemma filter_nil_iff {A} (f : A -> bool) (l : list A) :
  filter f l = [] <-> forall x, In x l -> f x = false.
Proof.
  induction l as [|a l IH]; simpl.
  - split; [intros _ x []|reflexivity].
  - destruct (f a) eqn:E.
    + split; [discriminate|]. intros H. specialize (H a (or_introl eq_refl)).
      congruence.
    + rewrite IH. split.
      * intros H x [<-|Hx]; [exact E|now apply H].
      * intros H x Hx. apply H. now right.
Qed.

Lemma get_api_messages_eq (after : option jsstring) (env : Env) (w : World) :
  get_api_messages after env w
  = (MkResponse 200
       (JsonMessages (map to_view (select_messages (db w) (afterTimestamp after))))
       None, w).
Proof. reflexivity. Qed.

(** The views of the rows newer than [t], before the LIMIT. *)
Lemma newer_views (d : Db) (t : Z) :
  schema_ok d ->
  map to_view (filter (created_after (Num t))
                      (flat_map (join_users (users d)) (messages d)))
  = map (view_of d) (filter (fun m => (t <? message_created_at m)%Z) (messages d)).
Proof.
  intros Hok.
  change (created_after (Num t))
    with (fun r => (fun c => (t <? c)%Z) (row_created_at r)).
  apply (@joined_views d (messages d) (fun c => (t <? c)%Z)).
  - apply Hok.
  - apply Hok.
Qed.

Lemma select_messages_nothing_newer (d : Db) (t : Z) :
  schema_ok d ->
  (forall m, In m (messages d) -> (t <? message_created_at m)%Z = false) ->
  select_messages d (Num t) = [].
Proof.
  intros Hok Hall. unfold select_messages.
  assert (E : filter (created_after (Num t))
                     (flat_map (join_users (users d)) (messages d)) = []).
  { apply (map_eq_nil to_view). rewrite (newer_views d t Hok).
    replace (filter _ (messages d)) with (@nil message_row); [reflexivity|].
    symmetry. now apply filter_nil_iff. }
  rewrite E. reflexivity.
Qed.

Lemma max_seen_cases (t : Z) (vs : list message_view) :
  max_seen t vs = t \/
  exists v, In v vs /\ max_seen t vs = view_createdAt v.
Proof.
  unfold max_seen. revert t.
  induction vs as [|v vs IH]; intros t; cbn [fold_left]; [now left|].
  destruct (IH (Z.max t (view_createdAt v))) as [E|(v' & Hin & E)].
  - rewrite E.
    destruct (Z.max_spec t (view_createdAt v)) as [[_ ->]|[_ ->]];
      [right; exists v; split; [now left|reflexivity]|now left].
  - right. exists v'. split; [now right|exact E].
Qed.

(** C3 (amended).  In a store that satisfies its schema and whose
    timestamps are integers a JavaScript number holds exactly, a request
    whose [after] parameter reads as such an integer [t] answers with
    [views], the first 100 of [newer], where [newer] holds exactly the
    messages with [created_at > t] (each with its author's email) in
    nondecreasing [createdAt]; the store is not changed.  So: the answer
    is ascending and has [min 100 (length newer)] elements; when every
    message is newer than [t] and there are at most 100 of them, all are
    returned (the case of list(0)); when no message is newer than [t] the
    answer is empty; and after an answer that the cap did not cut, asking
    again with the largest [createdAt] seen, written as the chat page
    writes it, gives the empty sequence as long as the store is the
    same. *)
Theorem list_messages_contract (env : Env) (w : World)
  (after : option jsstring) (t : Z) :
  schema_ok (db w) ->
  afterTimestamp after = Num t ->
  safe_integer t ->
  Forall (fun m => safe_integer (message_created_at m)) (messages (db w)) ->
  exists views newer,
    get_api_messages after env w
    = (MkResponse 200 (JsonMessages views) None, w) /\
    Permutation newer
      (map (view_of (db w))
           (filter (fun m => (t <? message_created_at m)%Z) (messages (db w)))) /\
    ascending newer /\
    views = firstn 100 newer /\
    length views = Nat.min 100 (length newer) /\
    ascending views /\
    (Forall (fun m => (t < message_created_at m)%Z) (messages (db w)) ->
     (length (messages (db w)) <= 100)%nat ->
     Permutation views (map (view_of (db w)) (messages (db w)))) /\
    (Forall (fun m => (message_created_at m <= t)%Z) (messages (db w)) ->
     views = []) /\
    safe_integer (max_seen t views) /\
    ((length newer <= 100)%nat ->
     forall env',
       get_api_messages (Some (number_toString (max_seen t views))) env' w
       = (MkResponse 200 (JsonMessages []) None, w) /\
       forall after',
         afterTimestamp after' = Num (max_seen t views) ->
         get_api_messages after' env' w
         = (MkResponse 200 (JsonMessages []) None, w)).
Proof.
  intros Hok Hafter Hsafe Hstamps.
  set (rows := filter (created_after (Num t))
                      (flat_map (join_users (users (db w))) (messages (db w)))).
  set (newer := map to_view (order_by_created_at rows)).
  assert (Hperm : Permutation newer
            (map (view_of (db w))
               (filter (fun m => (t <? message_created_at m)%Z)
                       (messages (db w))))).
  { unfold newer. rewrite <- (newer_views (db w) t Hok). fold rows.
    apply Permutation_map, Permutation_sym, order_by_created_at_perm. }
  assert (Hasc : ascending newer)
    by apply ascending_map_to_view, order_by_created_at_sorted.
  assert (Hviews : map to_view (select_messages (db w) (Num t))
                   = firstn 100 newer).
  { unfold select_messages, newer. fold rows. symmetry. apply firstn_map. }
  assert (Hseen : safe_integer (max_seen t (firstn 100 newer))).
  { destruct (max_seen_cases t (firstn 100 newer)) as [->|(v & Hin & ->)];
      [exact Hsafe|].
    assert (Hin' : In v newer).
    { rewrite <- (firstn_skipn 100 newer). apply in_or_app. now left. }
    apply (Permutation_in _ Hperm) in Hin'.
    apply in_map_iff in Hin' as (m & <- & Hm).
    apply filter_In in Hm as [Hm _]. rewrite Forall_forall in Hstamps.
    exact (Hstamps m Hm). }
  assert (Hagain : (length newer <= 100)%nat ->
                   forall env' after',
                     afterTimestamp after' = Num (max_seen t (firstn 100 newer)) ->
                     get_api_messages after' env' w
                     = (MkResponse 200 (JsonMessages []) None, w)).
  { intros Hshort env' after' Hafter'.
    rewrite get_api_messages_eq, Hafter'.
    rewrite select_messages_nothing_newer; [reflexivity|exact Hok|].
    intros m Hm. apply Z.ltb_ge.
    destruct (Z.leb_spec (message_created_at m) t) as [Hle|Hgt].
    + pose proof (max_seen_ge t (firstn 100 newer)) as [Hge _]. lia.
    + assert (Hin : In (view_of (db w) m) (firstn 100 newer)).
      { rewrite (firstn_all2 newer Hshort).
        apply (Permutation_in _ (Permutation_sym Hperm)).
        apply in_map. apply filter_In. split; [exact Hm|].
        now apply Z.ltb_lt. }
      pose proof (max_seen_ge t (firstn 100 newer)) as [_ Hall].
      rewrite Forall_forall in Hall. apply (Hall _ Hin). }
  exists (firstn 100 newer), newer.
  split; [rewrite get_api_messages_eq, Hafter; now rewrite Hviews|].
  split; [exact Hperm|]. split; [exact Hasc|]. split; [reflexivity|].
  split; [apply length_firstn|].
  split; [apply StronglySorted_firstn; exact Hasc|].
  split; [|split; [|split]].
  - intros Hall Hlen.
    assert (Hf : filter (fun m => (t <? message_created_at m)%Z) (messages (db w))
                 = messages (db w)).
    { apply forallb_filter_id. apply forallb_forall. intros m Hm.
      rewrite Forall_forall in Hall. apply Z.ltb_lt. now apply Hall. }
    rewrite Hf in Hperm.
    rewrite firstn_all2; [exact Hperm|].
    rewrite (Permutation_length Hperm), length_map. exact Hlen.
  - intros Hall.
    assert (Hf : filter (fun m => (t <? message_created_at m)%Z) (messages (db w))
                 = []).
    { apply filter_nil_iff. intros m Hm. rewrite Forall_forall in Hall.
      apply Z.ltb_ge. now apply Hall. }
    rewrite Hf in Hperm. cbn [map] in Hperm.
    apply Permutation_sym, Permutation_nil in Hperm.
    now rewrite Hperm.
  - exact Hseen.
  - intros Hshort env'. split; [|now apply Hagain].
    apply (Hagain Hshort). apply afterTimestamp_number.
Qed.

(** ** The sample store *)

Ltac solve_nodup :=
  repeat (apply NoDup_cons; [simpl; intuition discriminate|]); apply NoDup_nil.

Ltac solve_fk :=
  let x := fresh in
  let H := fresh in
  intros x H; simpl in H;
  repeat (destruct H as [H|H]; [subst x; vm_compute; reflexivity|]);
  destruct H.

Lemma sample_db_ok : schema_ok sample_db.
Proof.
  constructor; try solve_nodup; solve_fk.
Qed.

Lemma sample_stamps_safe :
  safe_integer 100 /\
  Forall (fun m => safe_integer (message_created_at m))
         (messages (db sample_world)).
Proof.
  split; [vm_compute; discriminate|].
  repeat constructor; vm_compute; discriminate.
Qed.

(** C3 on the sample store: asking after 100 returns the second message
    only, and asking again from the largest timestamp seen returns
    nothing. *)
Lemma list_messages_contract_witness :
  schema_ok (db sample_world) /\
  afterTimestamp (Some (js "100")) = Num 100 /\
  safe_integer 100 /\
  Forall (fun m => safe_integer (message_created_at m))
         (messages (db sample_world)) /\
  exists v,
    get_api_messages (Some (js "100")) sample_env sample_world
    = (MkResponse 200 (JsonMessages [v]) None, sample_world) /\
    view_createdAt v = 200%Z /\
    get_api_messages (Some (number_toString 200)) sample_env sample_world
    = (MkResponse 200 (JsonMessages []) None, sample_world).
Proof.
  destruct sample_stamps_safe as [Hsafe Hstamps].
  split; [exact sample_db_ok|]. split; [reflexivity|].
  split; [exact Hsafe|]. split; [exact Hstamps|].
  destruct (list_messages_contract sample_env sample_world (Some (js "100"))
              100 sample_db_ok eq_refl Hsafe Hstamps)
    as (views & newer & Hlist & Hperm & _ & _ & _ & _ & _ & _ & _ & Hagain).
  assert (Hshort : (length newer <= 100)%nat).
  { rewrite (Permutation_length Hperm). vm_compute. lia. }
  destruct (Hagain Hshort sample_env) as [Hempty _].
  assert (E : fst (get_api_messages (Some (js "100")) sample_env sample_world)
              = MkResponse 200
                  (JsonMessages
                     [MessageView 2 (js "again") (js "alice@x.com") 200])
                  None)
    by (vm_compute; reflexivity).
  rewrite Hlist in E. cbn [fst] in E. injection E as E. subst views.
  exists (MessageView 2 (js "again") (js "alice@x.com") 200).
  split; [exact Hlist|]. split; [reflexivity|].
  exact Hempty.
Defined.

Lemma nodup_of_nat (l : list nat) : NoDup l -> NoDup (map Z.of_nat l).
Proof.
  induction 1 as [|a l Ha Hl IH]; cbn [map]; constructor; [|exact IH].
  intros Hin. apply in_map_iff in Hin as (b & Hb & Hin).
  apply Nat2Z.inj in Hb. now subst b.
Qed.

Lemma crowded_db_ok : schema_ok crowded_db.
Proof.
  constructor.
  - solve_nodup.
  - solve_nodup.
  - constructor.
  - constructor.
  - unfold crowded_db. cbn [messages]. rewrite map_map. cbn [message_id].
    apply nodup_of_nat, seq_NoDup.
  - intros t [].
  - intros s [].
  - intros m Hm. unfold crowded_db in Hm. cbn [messages] in Hm.
    apply in_map_iff in Hm as (i & <- & _). reflexivity.
Qed.

(** C3, as stated, fails once the cap cuts an answer: in a store of 101
    messages list(0) returns 100 of them, not all; the largest timestamp
    seen is 100; and asking again from 100, with no new message posted,
    returns the message written at 101. *)
Lemma cap_cuts_the_listing :
  schema_ok crowded_db /\
  length (messages crowded_db) = 101%nat /\
  exists views later,
    get_api_messages (Some (js "0")) sample_env crowded_world
    = (MkResponse 200 (JsonMessages views) None, crowded_world) /\
    length views = 100%nat /\
    max_seen 0 views = 100%Z /\
    get_api_messages (Some (number_toString (max_seen 0 views))) sample_env
                     crowded_world
    = (MkResponse 200 (JsonMessages [later]) None, crowded_world) /\
    view_id later = 101%Z /\ view_createdAt later = 101%Z.
Proof.
  split; [exact crowded_db_ok|]. split; [reflexivity|].
  eexists. eexists.
  split; [vm_compute; reflexivity|].
  split; [reflexivity|]. split; [reflexivity|].
  split; [vm_compute; reflexivity|]. split; reflexivity.
Qed.

(** ** parseInt *)









(** ** Posting a message *)

Lemma validateSession_valid (env : Env) (w : World) (sid : jsstring)
  (s : session_row) (u : user_row) :
  valid_session env w sid s u ->
  Lucia.validateSession sid env w
  = (Value (Some (s, u)),
     MkWorld (db w) (S (clock_reads w)) (entropy_reads w)).
Proof.
  intros (_ & Hs & Hu & Hexp).
  unfold Lucia.validateSession, bind, get_db, ret, date_now.
  rewrite Hs, Hu. apply Z.ltb_lt in Hexp. now rewrite Hexp.
Qed.

Lemma has_user_of_find (d : Db) (id : jsstring) (u : user_row) :
  find (fun u => jsstring_eqb (user_id u) id) (users d) = Some u ->
  has_user d (user_id u) = true.
Proof.
  intros H. apply find_some in H as [Hin _].
  unfold has_user. apply existsb_exists. exists u.
  split; [exact Hin|apply jsstring_eqb_refl].
Qed.

Lemma trim_nil_length (text : jsstring) :
  (length (trim text) =? 0)%nat = true <-> trim text = [].
Proof.
  rewrite Nat.eqb_eq. destruct (trim text); simpl; split; congruence.
Qed.

(** C4 (amended).  With a valid session, POST /api/messages answers with
    a 400 validation error exactly when the trimmed text is empty or the
    text is longer than 1000 code units, and then changes nothing in the store;
    otherwise it answers "Message posted" and appends one row holding the
    author, the trimmed text as the store gives it back, and the current
    reading of the clock.  The trimmed text is the text without the white
    space at its two ends, so a text of white space only is rejected; the
    store gives back each of its units, with U+FFFD in the place of an
    unpaired surrogate (the same UTF-8 bytes), hence the trimmed text
    itself when it holds no surrogate.  A text of 1001 units is rejected, a non-blank text of 1000
    units is accepted. *)
Theorem post_message_contract (env : Env) (w : World) (sid text : jsstring)
  (s : session_row) (u : user_row) :
  valid_session env w sid s u ->
  exists resp w',
    post_api_messages (Some sid) (Some (Some text)) env w = (resp, w') /\
    trimmed_of text (trim text) /\
    (forallb is_js_space text = true -> validation_error resp) /\
    (validation_error resp <-> trim text = [] \/ (1000 < length text)%nat) /\
    (validation_error resp -> db w' = db w) /\
    (~ validation_error resp ->
     resp = json_ok "Message posted" /\
     db w' = with_message (db w) (user_id u) (stored_text (trim text))
                          (clock env (S (clock_reads w)))) /\
    Forall2 unit_stored (trim text) (stored_text (trim text)) /\
    Utf8.encode (stored_text (trim text)) = Utf8.encode (trim text) /\
    (existsb is_surrogate (trim text) = false ->
     stored_text (trim text) = trim text) /\
    (length text = 1001%nat -> validation_error resp) /\
    (length text = 1000%nat -> trim text <> [] -> ~ validation_error resp).
Proof.
  intros Hvalid.
  pose proof (validateSession_valid env w sid s u Hvalid) as Hv.
  destruct Hvalid as (Hsid & Hs & Hu & _).
  pose proof (has_user_of_find _ _ _ Hu) as Hhas.
  pose proof (trim_trimmed_of text) as Htrimmed.
  pose proof (trim_blank text) as Hblank.
  assert (Hunits : Forall2 unit_stored (trim text) (stored_text (trim text)) /\
                   Utf8.encode (stored_text (trim text))
                   = Utf8.encode (trim text))
    by (split; [apply stored_text_units|apply encode_stored_text]).
  pose proof (text_after_plain false (trim text)) as Hplain.
  fold (stored_text (trim text)) in Hplain.
  destruct sid as [|sc st]; [congruence|].
  unfold post_api_messages, try_catch, post_message_body.
  unfold bind at 1. rewrite Hv.
  destruct text as [|mc mt].
  - (* the empty string is falsy *)
    eexists. eexists. split; [reflexivity|].
    assert (E : validation_error (json_error 400 "Message cannot be empty"))
      by (split; [reflexivity|eexists; reflexivity]).
    split; [exact Htrimmed|]. split; [intros _; exact E|].
    split; [split; [intros _; now left|intros _; exact E]|].
    split; [reflexivity|].
    split; [intros Hn; elim (Hn E)|].
    split; [apply Hunits|]. split; [apply Hunits|]. split; [exact Hplain|].
    split; [intros _; exact E|].
    intros Hl; discriminate Hl.
  - cbn [req_json bind ret].
    unfold bind at 1, ret at 1.
    destruct (length (trim (mc :: mt)) =? 0)%nat eqn:Hempty.
    + eexists. eexists. split; [reflexivity|].
      apply trim_nil_length in Hempty.
      assert (E : validation_error (json_error 400 "Message cannot be empty"))
        by (split; [reflexivity|eexists; reflexivity]).
      split; [exact Htrimmed|]. split; [intros _; exact E|].
      split; [split; [intros _; now left|intros _; exact E]|].
      split; [reflexivity|].
      split; [intros Hn; elim (Hn E)|].
      split; [apply Hunits|]. split; [apply Hunits|]. split; [exact Hplain|].
      split; [intros _; exact E|].
      intros _ Hnb. elim (Hnb Hempty).
    + assert (Hnonblank : trim (mc :: mt) <> []).
      { intros E. apply trim_nil_length in E. congruence. }
      destruct (1000 <? length (mc :: mt))%nat eqn:Hlong.
      * eexists. eexists. split; [reflexivity|].
        apply Nat.ltb_lt in Hlong.
        assert (E : validation_error
                      (json_error 400 "Message is too long (max 1000 characters)"))
          by (split; [reflexivity|eexists; reflexivity]).
        split; [exact Htrimmed|]. split; [intros _; exact E|].
        split; [split; [intros _; now right|intros _; exact E]|].
        split; [reflexivity|].
        split; [intros Hn; elim (Hn E)|].
        split; [apply Hunits|]. split; [apply Hunits|]. split; [exact Hplain|].
        split; [intros _; exact E|].
        intros Hl. lia.
      * apply Nat.ltb_ge in Hlong.
        cbv beta iota zeta delta
          [bind date_now Sql.insert_message get_db put_db ret throw].
        cbn [db clock_reads entropy_reads]. rewrite Hhas. cbn [negb].
        eexists. eexists. split; [reflexivity|].
        assert (E : ~ validation_error (json_ok "Message posted")).
        { intros [Hst _]. discriminate Hst. }
        split; [exact Htrimmed|].
        split; [intros Hsp; elim (Hnonblank (Hblank Hsp))|].
        split; [split; [intros Hr; elim (E Hr)
                       |intros [Hc|Hc]; [elim (Hnonblank Hc)|lia]]|].
        split; [intros Hr; elim (E Hr)|].
        split; [intros _; split; reflexivity|].
        split; [apply Hunits|]. split; [apply Hunits|]. split; [exact Hplain|].
        split; [intros Hl; lia|].
        intros _ _. exact E.
Qed.

Lemma sample_session_valid :
  valid_session sample_env sample_world (js "sessalice")
                (SessionRow (js "sessalice") (js "user_1_A") 9000) alice.
Proof.
  split; [discriminate|]. split; [reflexivity|]. split; [reflexivity|].
  reflexivity.
Qed.

(** C4 on the sample store: a text with white space at both ends and an
    unpaired surrogate inside is stored trimmed, with U+FFFD in the place
    of the surrogate. *)
Lemma post_message_contract_witness :
  valid_session sample_env sample_world (js "sessalice")
                (SessionRow (js "sessalice") (js "user_1_A") 9000) alice /\
  exists w',
    post_api_messages (Some (js "sessalice"))
                      (Some (Some [32; 9; 120; 0xD800; 121; 10; 0xA0]%N))
                      sample_env sample_world
    = (json_ok "Message posted", w') /\
    db w' = with_message sample_db (js "user_1_A") [120; 0xFFFD; 121]%N 1001.
Proof.
  split; [exact sample_session_valid|].
  destruct (post_message_contract sample_env sample_world (js "sessalice")
              [32; 9; 120; 0xD800; 121; 10; 0xA0]%N _ _ sample_session_valid)
    as (resp & w' & Heq & _ & _ & Hrej & _ & Hacc & _).
  assert (Hok : ~ validation_error resp).
  { intros Hr. apply Hrej in Hr as [Hr|Hr].
    - vm_compute in Hr. discriminate Hr.
    - vm_compute in Hr. lia. }
  destruct (Hacc Hok) as [-> Hdb].
  exists w'. split; [exact Heq|].
  rewrite Hdb. reflexivity.
Defined.

(** C4, as stated, fails for a text with an unpaired surrogate: the text
    is accepted, but the row holds U+FFFD in the place of the surrogate,
    not the trimmed text. *)
Lemma surrogate_is_not_stored :
  valid_session sample_env sample_world (js "sessalice")
                (SessionRow (js "sessalice") (js "user_1_A") 9000) alice /\
  trim [120; 0xD800; 121]%N = [120; 0xD800; 121]%N /\
  exists w',
    post_api_messages (Some (js "sessalice"))
                      (Some (Some [120; 0xD800; 121]%N))
                      sample_env sample_world
    = (json_ok "Message posted", w') /\
    db w' = with_message sample_db (js "user_1_A") [120; 0xFFFD; 121]%N 1001 /\
    db w' <> with_message sample_db (js "user_1_A")
                          (trim [120; 0xD800; 121]%N) 1001.
Proof.
  split; [exact sample_session_valid|]. split; [reflexivity|].
  eexists. split; [vm_compute; reflexivity|].
  split; [reflexivity|]. cbn [db]. intros E.
  apply (f_equal (fun d => map message_message (messages d))) in E.
  vm_compute in E. discriminate E.
Qed.

(** ** Login *)

Lemma find_email_exists (us : list user_row) (e : jsstring) :
  (exists u, In u us /\ user_email u = e) ->
  exists u', find (fun u => jsstring_eqb (user_email u) e) us = Some u'.
Proof.
  intros (u & Hin & He).
  destruct (find (fun u => jsstring_eqb (user_email u) e) us) as [u'|] eqn:F.
  - now exists u'.
  - apply (find_none _ _ F) in Hin. rewrite He, jsstring_eqb_refl in Hin.
    discriminate.
Qed.


Lemma unique_by {A B} (f : A -> B) (l : list A) (a b : A) :
  NoDup (map f l) -> In a l -> In b l -> f a = f b -> a = b.
Proof.
  induction l as [|x l IH]; simpl; [intros _ []|].
  intros Hnd Ha Hb Hf. apply NoDup_cons_iff in Hnd as [Hx Hnd].
  destruct Ha as [->|Ha], Hb as [->|Hb].
  - reflexivity.
  - elim Hx. rewrite Hf. now apply in_map.
  - elim Hx. rewrite <- Hf. now apply in_map.
  - now apply IH.
Qed.

(** With unique emails, the row found for an email is the user's row. *)
Lemma find_email_unique (d : Db) (u : user_row) :
  schema_ok d -> In u (users d) ->
  find (fun x => jsstring_eqb (user_email x) (user_email u)) (users d) = Some u.
Proof.
  intros Hok Hin.
  destruct (find_email_exists (users d) (user_email u)) as [u' F];
    [now exists u|].
  rewrite F. f_equal.
  apply find_some in F as [Hin' He]. apply jsstring_eqb_eq in He.
  apply (unique_by user_email (users d)); [apply Hok|assumption..].
Qed.

Section LoginCases.

Variable verify : jsstring -> jsstring -> M bool.
Variables (env : Env) (w : World) (e p : jsstring).
Hypothesis e_given : e <> [].
Hypothesis p_given : p <> [].

Let request := Some (MkCredentials (Some e) (Some p)).
Let user := find (fun u => jsstring_eqb (user_email u) e) (users (db w)).

Lemma login_no_user :
  user = None ->
  login_with verify request env w
  = (json_error 401 "Invalid email or password", w).
Proof.
  unfold user, request. intros F.
  destruct e as [|ec et]; [congruence|]. destruct p as [|pc pt]; [congruence|].
  cbv beta iota zeta delta
    [login_with try_catch login_body bind ret req_json email password
     Sql.select_user_by_email get_db].
  now rewrite F.
Qed.

Lemma login_unverified (u : user_row) :
  user = Some u -> user_verified u = 0%Z ->
  login_with verify request env w
  = (json_error 401 "Please verify your email first", w).
Proof.
  unfold user, request. intros F Hv.
  destruct e as [|ec et]; [congruence|]. destruct p as [|pc pt]; [congruence|].
  cbv beta iota zeta delta
    [login_with try_catch login_body bind ret req_json email password
     Sql.select_user_by_email get_db].
  rewrite F, Hv. reflexivity.
Qed.

(** A verified account: the answer is decided by the verifier and then by
    the session insert. *)
Lemma login_verified (u : user_row) :
  user = Some u -> user_verified u <> 0%Z ->
  login_with verify request env w
  = match verify (user_password_hash u) p env w with
    | (Value false, w1) => (json_error 401 "Invalid email or password", w1)
    | (Value true, w1) =>
        match Lucia.createSession (user_id u) env w1 with
        | (Value session, w2) =>
            (MkResponse 200 (JsonOk (js "Login successful"))
               (Some (Lucia.createSessionCookie (session_id session))), w2)
        | (Thrown, w2) => (json_error 500 "Login failed", w2)
        end
    | (Thrown, w1) => (json_error 500 "Login failed", w1)
    end.
Proof.
  unfold user, request. intros F Hv. apply Z.eqb_neq in Hv.
  destruct e as [|ec et]; [congruence|]. destruct p as [|pc pt]; [congruence|].
  cbv beta iota zeta delta
    [login_with try_catch login_body bind ret req_json email password
     Sql.select_user_by_email get_db].
  rewrite F, Hv.
  destruct (verify (user_password_hash u) (pc :: pt) env w) as [[[|]|] w1];
    cbn [negb]; try reflexivity.
  destruct (Lucia.createSession (user_id u) env w1) as [[session|] w2];
    reflexivity.
Qed.

End LoginCases.


(** A request without an email or without a password, or with an empty
    one, is turned away before anything is looked up, whatever the
    verifier. *)
Lemma login_missing_field (verify : jsstring -> jsstring -> M bool)
  (env : Env) (w : World) (email password : option jsstring) :
  email = None \/ email = Some [] \/ password = None \/ password = Some [] ->
  login_with verify (Some (MkCredentials email password)) env w
  = (json_error 400 "Email and password are required", w).
Proof.
  intros H.
  destruct email as [[|ec et]|], password as [[|pc pt]|]; try reflexivity.
  destruct H as [H|[H|[H|H]]]; discriminate H.
Qed.




(** C9 (amended).  For an existing user whose verified flag is 0, a login
    with the user's (non-empty) email and any non-empty password is
    answered "Please verify your email first" and changes nothing,
    whatever [verifyPassword] would do (answer either way, throw, or
    write): the handler returns before the call.  In particular this is
    the answer of the handler as deployed.  A request whose password is
    missing or empty, whatever its email, is answered 400 "Email and
    password are required" instead, again before the verifier is
    called. *)
Theorem login_unverified_before_password (verify : jsstring -> jsstring -> M bool)
  (env : Env) (w : World) (u : user_row) (p : jsstring) :
  schema_ok (db w) -> In u (users (db w)) -> user_verified u = 0%Z ->
  user_email u <> [] -> p <> [] ->
  login_with verify (Some (MkCredentials (Some (user_email u)) (Some p))) env w
  = (json_error 401 "Please verify your email first", w) /\
  post_api_login (Some (MkCredentials (Some (user_email u)) (Some p))) env w
  = (json_error 401 "Please verify your email first", w) /\
  (forall email password,
      password = None \/ password = Some [] ->
      login_with verify (Some (MkCredentials email password)) env w
      = (json_error 400 "Email and password are required", w)).
Proof.
  intros Hok Hin Hz He Hp. unfold post_api_login.
  split; [|split];
    try (apply (login_unverified _ env w (user_email u) p He Hp u);
         try exact Hz; now apply find_email_unique).
  intros email password H. apply login_missing_field. tauto.
Qed.

(** C9 on the sample store, with a verifier that throws. *)
Lemma login_unverified_before_password_witness :
  schema_ok (db sample_world) /\ In bob (users (db sample_world)) /\
  user_verified bob = 0%Z /\ user_email bob <> [] /\ js "battery staple" <> [] /\
  login_with (fun _ _ => throw)
    (Some (MkCredentials (Some (user_email bob)) (Some (js "battery staple"))))
    sample_env sample_world
  = (json_error 401 "Please verify your email first", sample_world).
Proof.
  assert (Hin : In bob (users (db sample_world))) by (right; left; reflexivity).
  assert (He : user_email bob <> []) by discriminate.
  assert (Hp : js "battery staple" <> []) by discriminate.
  split; [exact sample_db_ok|]. split; [exact Hin|]. split; [reflexivity|].
  split; [exact He|]. split; [exact Hp|].
  apply (login_unverified_before_password (fun _ _ => throw) sample_env
           sample_world bob _ sample_db_ok Hin eq_refl He Hp).
Defined.

(** C9, as stated, fails for the empty password: the unverified user is
    told that email and password are required. *)
Lemma unverified_login_empty_password :
  In bob (users (db sample_world)) /\
  user_verified bob = 0%Z /\
  post_api_login (Some (MkCredentials (Some (user_email bob)) (Some [])))
                 sample_env sample_world
  = (json_error 400 "Email and password are required", sample_world).
Proof.
  split; [right; left; reflexivity|]. split; reflexivity.
Qed.

(** ** Registration *)




(** Validation comes first: missing fields, then a short password, then
    the email lookup. *)
Lemma register_existing (env : Env) (w : World) (e p : jsstring) (u : user_row) :
  e <> [] -> (8 <= length p)%nat ->
  find (fun u => jsstring_eqb (user_email u) e) (users (db w)) = Some u ->
  post_api_register (Some (MkCredentials (Some e) (Some p))) env w
  = (json_error 400 "Email already registered", w).
Proof.
  intros He Hp F.
  destruct e as [|ec et]; [congruence|].
  destruct p as [|pc pt]; [simpl in Hp; lia|].
  apply Nat.ltb_ge in Hp.
  cbv beta iota zeta delta
    [post_api_register try_catch register_body bind ret req_json email
     password Sql.select_user_by_email get_db].
  now rewrite Hp, F.
Qed.


(** C6 (amended).  When a user with the (non-empty) email already exists,
    Register answers 400 "Email already registered" for every password of
    at least 8 code units, the same for any two such passwords, and leaves
    the store and the rest of the world unchanged. *)
Theorem register_duplicate_email (env : Env) (w : World) (e p1 p2 : jsstring) :
  e <> [] -> (8 <= length p1)%nat -> (8 <= length p2)%nat ->
  (exists u, In u (users (db w)) /\ user_email u = e) ->
  post_api_register (Some (MkCredentials (Some e) (Some p1))) env w
  = (json_error 400 "Email already registered", w) /\
  post_api_register (Some (MkCredentials (Some e) (Some p2))) env w
  = (json_error 400 "Email already registered", w).
Proof.
  intros He Hp1 Hp2 Hex.
  destruct (find_email_exists _ _ Hex) as [u F].
  split; now apply (register_existing env w e _ u).
Qed.

Lemma register_duplicate_email_witness :
  js "bob@x.com" <> [] /\
  (8 <= length (js "battery staple"))%nat /\
  (8 <= length (js "another password"))%nat /\
  (exists u, In u (users (db sample_world)) /\ user_email u = js "bob@x.com") /\
  post_api_register
    (Some (MkCredentials (Some (js "bob@x.com")) (Some (js "battery staple"))))
    sample_env sample_world
  = (json_error 400 "Email already registered", sample_world) /\
  post_api_register
    (Some (MkCredentials (Some (js "bob@x.com")) (Some (js "another password"))))
    sample_env sample_world
  = (json_error 400 "Email already registered", sample_world).
Proof.
  assert (He : js "bob@x.com" <> []) by discriminate.
  assert (H1 : (8 <= length (js "battery staple"))%nat) by (simpl; lia).
  assert (H2 : (8 <= length (js "another password"))%nat) by (simpl; lia).
  assert (Hex : exists u, In u (users (db sample_world))
                          /\ user_email u = js "bob@x.com")
    by (exists bob; split; [right; left; reflexivity|reflexivity]).
  split; [exact He|]. split; [exact H1|]. split; [exact H2|].
  split; [exact Hex|].
  exact (register_duplicate_email sample_env sample_world _ _ _ He H1 H2 Hex).
Defined.

(** C6, as stated, fails for a short password: the email is taken, but
    the answer is the length error, not the conflict. *)
Lemma register_taken_email_short_password :
  (exists u, In u (users (db sample_world)) /\ user_email u = js "bob@x.com") /\
  post_api_register
    (Some (MkCredentials (Some (js "bob@x.com")) (Some (js "short"))))
    sample_env sample_world
  = (json_error 400 "Password must be at least 8 characters", sample_world) /\
  json_error 400 "Password must be at least 8 characters"
  <> json_error 400 "Email already registered".
Proof.
  split; [exists bob; split; [right; left; reflexivity|reflexivity]|].
  split; [reflexivity|].
  intros H. apply (f_equal body) in H. vm_compute in H. discriminate H.
Qed.




(** The same with a mail service that answers 503. *)
Example register_mail_rejected :
  exists w',
    post_api_register
      (Some (MkCredentials (Some (js "carol@x.com")) (Some (js "longpassword"))))
      failing_mail_env sample_world
    = (json_error 500 "Failed to send email: 503", w') /\
    map user_verified (users (db w')) = [1; 0; 0]%Z /\
    length (email_verification_tokens (db w')) = 2%nat.
Proof. eexists. split; [vm_compute; reflexivity|]. split; reflexivity. Qed.

(** ** Email verification *)

Lemma existsb_session_fresh (ss : list session_row) (id : jsstring) :
  (forall s, In s ss -> session_id s <> id) ->
  existsb (fun s => jsstring_eqb (session_id s) id) ss = false.
Proof.
  intros H. induction ss as [|s ss IH]; simpl; [reflexivity|].
  rewrite IH by (intros s' Hs'; apply H; now right).
  replace (jsstring_eqb (session_id s) id) with false; [reflexivity|].
  symmetry. apply jsstring_eqb_neq. apply H. now left.
Qed.

Lemma set_verified_id (uid : jsstring) (u : user_row) :
  user_id (Sql.set_verified uid u) = user_id u.
Proof. unfold Sql.set_verified. now destruct (jsstring_eqb (user_id u) uid). Qed.

Lemma has_user_marked (d : Db) (t : token_row) (id : jsstring) :
  has_user (with_verification d t) id = has_user d id.
Proof.
  unfold has_user, with_verification. cbn [users].
  induction (users d) as [|u us IH]; [reflexivity|].
  cbn [map existsb]. now rewrite set_verified_id, IH.
Qed.

Lemma find_after_delete (ts : list token_row) (token : jsstring) :
  find (fun t => jsstring_eqb (token_token t) token)
       (filter (fun x => negb (jsstring_eqb (token_token x) token)) ts)
  = None.
Proof.
  induction ts as [|t ts IH]; [reflexivity|].
  cbn [filter]. destruct (jsstring_eqb (token_token t) token) eqn:E;
    cbn [negb]; [exact IH|].
  cbn [find]. now rewrite E.
Qed.

Lemma createSession_fresh (env : Env) (w : World) (uid : jsstring) :
  has_user (db w) uid = true ->
  (forall s, In s (sessions (db w)) -> session_id s <> next_session_id env w) ->
  Lucia.createSession uid env w
  = (Value (SessionRow (next_session_id env w) uid
                       (clock env (clock_reads w) + session_ttl env)),
     MkWorld (with_session (db w)
                (SessionRow (next_session_id env w) uid
                            (clock env (clock_reads w) + session_ttl env)))
             (S (clock_reads w))
             (entropy_reads w + session_id_length env)).
Proof.
  intros Hu Hfresh. apply existsb_session_fresh in Hfresh.
  cbv beta iota zeta delta
    [Lucia.createSession Lucia.insert_session bind ret throw ask
     getRandomValues date_now get_db put_db].
  cbn [db clock_reads entropy_reads].
  fold (next_session_id env w). now rewrite Hfresh, Hu.
Qed.

Lemma verify_unknown (env : Env) (w : World) (token : jsstring) :
  token <> [] -> stored_token (db w) token = None ->
  get_verify (Some token) env w
  = (html "<h1>Invalid or expired verification link</h1>", w).
Proof.
  unfold stored_token. intros Hne F. destruct token as [|tc tl]; [congruence|].
  cbv beta iota zeta delta
    [get_verify try_catch verify_body bind ret Sql.select_token get_db].
  now rewrite F.
Qed.

Lemma verify_expired (env : Env) (w : World) (token : jsstring) (t : token_row) :
  token <> [] -> stored_token (db w) token = Some t ->
  (token_expires_at t < clock env (clock_reads w))%Z ->
  get_verify (Some token) env w
  = (html "<h1>Verification link has expired</h1>",
     MkWorld (without_token (db w) token) (S (clock_reads w)) (entropy_reads w)).
Proof.
  unfold stored_token. intros Hne F Hexp. apply Z.ltb_lt in Hexp.
  destruct token as [|tc tl]; [congruence|].
  cbv beta iota zeta delta
    [get_verify try_catch verify_body bind ret Sql.select_token get_db
     date_now Sql.delete_token put_db].
  rewrite F. cbn [db clock_reads entropy_reads]. now rewrite Hexp.
Qed.

Lemma stored_token_name (d : Db) (token : jsstring) (t : token_row) :
  stored_token d token = Some t ->
  In t (email_verification_tokens d) /\ token_token t = token.
Proof.
  unfold stored_token. intros F. apply find_some in F as [Hin He].
  now apply jsstring_eqb_eq in He.
Qed.

(** A token that is stored and not past its expiry: the owner is marked,
    the token deleted, and then a session is created. *)
Lemma verify_in_time (env : Env) (w : World) (token : jsstring) (t : token_row) :
  token <> [] -> stored_token (db w) token = Some t ->
  (clock env (clock_reads w) <= token_expires_at t)%Z ->
  get_verify (Some token) env w
  = match Lucia.createSession (token_user_id t) env
            (MkWorld (with_verification (db w) t) (S (clock_reads w))
                     (entropy_reads w)) with
    | (Value session, w') =>
        (MkResponse 302 (Redirect (js "/chat"))
           (Some (Lucia.createSessionCookie (session_id session))), w')
    | (Thrown, w') => (html "<h1>Verification failed</h1>", w')
    end.
Proof.
  intros Hne F Hin_time.
  destruct (stored_token_name _ _ _ F) as [_ Hname].
  unfold stored_token in F. apply Z.ltb_ge in Hin_time.
  destruct token as [|tc tl]; [congruence|].
  cbv beta iota zeta delta
    [get_verify try_catch verify_body bind ret Sql.select_token get_db
     date_now Sql.delete_token Sql.update_user_verified put_db].
  rewrite F. cbn [db clock_reads entropy_reads users
                  email_verification_tokens sessions messages].
  rewrite Hin_time.
  unfold with_verification. rewrite Hname.
  destruct (Lucia.createSession _ _ _) as [[session|] w']; reflexivity.
Qed.

(** C2 (amended).  In a store that satisfies its schema, and when the
    session identifier about to be drawn is not already taken, GET /verify
    with a non-empty token redirects (accepts) exactly when the token is
    stored and the clock is not past its expiry, [now <= expires_at] (at
    [now = expires_at] it is still accepted).  An unknown token is
    reported invalid and nothing changes.  A token past its expiry is
    deleted and reported expired, and no user row changes.  An accepted
    token marks its owner verified, is deleted, and a session is created.
    In every case the token is not stored afterwards, so a second call
    with the same token reports it invalid: no token verifies twice. *)
Theorem verification_token_single_use (env env2 : Env) (w : World)
  (token : jsstring) :
  token <> [] ->
  schema_ok (db w) ->
  (forall s, In s (sessions (db w)) -> session_id s <> next_session_id env w) ->
  exists resp w',
    get_verify (Some token) env w = (resp, w') /\
    (status resp = 302%Z <->
     exists t, stored_token (db w) token = Some t /\
               (clock env (clock_reads w) <= token_expires_at t)%Z) /\
    (stored_token (db w) token = None ->
     resp = html "<h1>Invalid or expired verification link</h1>" /\ w' = w) /\
    (forall t, stored_token (db w) token = Some t ->
               (token_expires_at t < clock env (clock_reads w))%Z ->
     resp = html "<h1>Verification link has expired</h1>" /\
     db w' = without_token (db w) token /\
     users (db w') = users (db w)) /\
    (forall t, stored_token (db w) token = Some t ->
               (clock env (clock_reads w) <= token_expires_at t)%Z ->
     resp = MkResponse 302 (Redirect (js "/chat"))
              (Some (Lucia.createSessionCookie (next_session_id env w))) /\
     db w' = with_session (with_verification (db w) t)
               (SessionRow (next_session_id env w) (token_user_id t)
                           (clock env (S (clock_reads w)) + session_ttl env))) /\
    stored_token (db w') token = None /\
    fst (get_verify (Some token) env2 w')
    = html "<h1>Invalid or expired verification link</h1>".
Proof.
  intros Hne Hok Hfresh.
  destruct (stored_token (db w) token) as [t|] eqn:F.
  - destruct (Z.lt_ge_cases (token_expires_at t) (clock env (clock_reads w)))
      as [Hexp|Hin_time].
    + (* past its expiry *)
      rewrite (verify_expired env w token t Hne F Hexp).
      eexists. eexists. split; [reflexivity|].
      assert (Hgone : stored_token
                        (db (MkWorld (without_token (db w) token)
                                     (S (clock_reads w)) (entropy_reads w)))
                        token = None) by apply find_after_delete.
      split; [split; [discriminate|intros (t' & Ht' & Hle)]|].
      { injection Ht' as <-. lia. }
      split; [discriminate|].
      split; [intros t' _ _; repeat split|].
      split; [intros t' Ht' Hle; injection Ht' as <-; lia|].
      split; [exact Hgone|].
      match goal with
      | |- fst (get_verify _ _ ?w2) = _ =>
          now rewrite (verify_unknown env2 w2 token Hne Hgone)
      end.
    + (* in time *)
      destruct (stored_token_name _ _ _ F) as [Hin Hname].
      assert (Hu : has_user (with_verification (db w) t) (token_user_id t) = true).
      { rewrite has_user_marked. now apply (tokens_fk Hok). }
      rewrite (verify_in_time env w token t Hne F Hin_time).
      rewrite createSession_fresh; [|exact Hu|exact Hfresh].
      unfold next_session_id. cbn [db clock_reads entropy_reads].
      fold (next_session_id env w).
      eexists. eexists. split; [reflexivity|].
      assert (Hgone : stored_token
                        (with_session (with_verification (db w) t)
                           (SessionRow (next_session_id env w) (token_user_id t)
                              (clock env (S (clock_reads w)) + session_ttl env)))
                        token = None).
      { unfold stored_token, with_session, with_verification.
        cbn [email_verification_tokens]. rewrite Hname.
        apply find_after_delete. }
      split; [split; [intros _; now exists t|reflexivity]|].
      split; [discriminate|].
      split; [intros t' Ht' Hlt; injection Ht' as <-; lia|].
      split; [intros t' Ht' _; injection Ht' as <-; split; reflexivity|].
      cbn [db]. split; [exact Hgone|].
      match goal with
      | |- fst (get_verify _ _ ?w2) = _ =>
          now rewrite (verify_unknown env2 w2 token Hne Hgone)
      end.
  - rewrite (verify_unknown env w token Hne F).
    eexists. eexists. split; [reflexivity|].
    split; [split; [discriminate|intros (t' & Ht' & _); discriminate Ht']|].
    split; [intros _; split; reflexivity|].
    split; [intros t' Ht'; discriminate Ht'|].
    split; [intros t' Ht'; discriminate Ht'|].
    split; [exact F|].
    now rewrite (verify_unknown env2 w token Hne F).
Qed.

Lemma sample_session_id_fresh :
  forall s, In s (sessions (db sample_world)) ->
            session_id s <> next_session_id sample_env sample_world.
Proof. intros s [<-|[]]. vm_compute. discriminate. Qed.

(** C2 on the sample store: the pending token of the second account is
    accepted once and refused the second time. *)
Lemma verification_token_single_use_witness :
  js "tokbob" <> [] /\
  schema_ok (db sample_world) /\
  (forall s, In s (sessions (db sample_world)) ->
             session_id s <> next_session_id sample_env sample_world) /\
  exists resp w',
    get_verify (Some (js "tokbob")) sample_env sample_world = (resp, w') /\
    status resp = 302%Z /\
    map user_verified (users (db w')) = [1; 1]%Z /\
    email_verification_tokens (db w') = [] /\
    fst (get_verify (Some (js "tokbob")) sample_env w')
    = html "<h1>Invalid or expired verification link</h1>".
Proof.
  assert (Hne : js "tokbob" <> []) by discriminate.
  split; [exact Hne|]. split; [exact sample_db_ok|].
  split; [exact sample_session_id_fresh|].
  destruct (verification_token_single_use sample_env sample_env sample_world
              (js "tokbob") Hne sample_db_ok sample_session_id_fresh)
    as (resp & w' & Heq & Hacc & _ & _ & Hdone & _ & Hagain).
  assert (F : stored_token (db sample_world) (js "tokbob")
              = Some (TokenRow (js "tokbob") (js "user_2_B") 5000))
    by reflexivity.
  assert (Hle : (clock sample_env (clock_reads sample_world) <= 5000)%Z)
    by (vm_compute; discriminate).
  destruct (Hdone _ F Hle) as [Hresp Hdb].
  exists resp, w'. split; [exact Heq|].
  split; [apply Hacc; eexists; split; [exact F|exact Hle]|].
  rewrite Hdb. split; [reflexivity|]. split; [reflexivity|exact Hagain].
Defined.

(** C2, as stated, fails at the instant of expiry: with [now] equal to
    [expires_at] the predicate [now < expires_at] is false, yet the token is
    accepted and its owner becomes verified. *)
Lemma token_accepted_at_expiry_instant :
  stored_token (db sample_world) (js "tokbob")
  = Some (TokenRow (js "tokbob") (js "user_2_B") 5000) /\
  clock expiry_instant_env (clock_reads sample_world) = 5000%Z /\
  ~ (clock expiry_instant_env (clock_reads sample_world) < 5000)%Z /\
  status (fst (get_verify (Some (js "tokbob")) expiry_instant_env sample_world))
  = 302%Z /\
  map user_verified
      (users (db (snd (get_verify (Some (js "tokbob")) expiry_instant_env
                                  sample_world))))
  = [1; 1]%Z.
Proof.
  split; [reflexivity|]. split; [reflexivity|].
  split; [vm_compute; discriminate|].
  split; vm_compute; reflexivity.
Qed.

(** ** Properties kept by every handler *)

(** A relation between the worlds before and after a handler holds as
    soon as it is transitive, holds when the store is untouched, and is
    established by each of the statements that write. *)
Section Frames.

Variable P : World -> World -> Prop.
Hypothesis P_db : forall w w', db w' = db w -> P w w'.
Hypothesis P_trans : forall a b c, P a b -> P b c -> P a c.
Hypothesis P_insert_token :
  forall t u x, framed P (Sql.insert_token t u x).
Hypothesis P_delete_token : forall t, framed P (Sql.delete_token t).
Hypothesis P_insert_message :
  forall u m x, framed P (Sql.insert_message u m x).
Hypothesis P_insert_session :
  forall i u x, framed P (Lucia.insert_session i u x).
Hypothesis P_delete_session : forall i, framed P (Lucia.delete_session i).

Lemma framed_ret {A} (a : A) : framed P (ret a).
Proof. intros env w. now apply P_db. Qed.

Lemma framed_throw {A} : framed P (@throw A).
Proof. intros env w. now apply P_db. Qed.

Lemma framed_bind {A B} (m : M A) (k : A -> M B) :
  framed P m -> (forall a, framed P (k a)) -> framed P (bind m k).
Proof.
  intros Hm Hk env w. unfold bind. specialize (Hm env w).
  destruct (m env w) as [[a|] w1]; cbn [snd] in *; [|exact Hm].
  apply (P_trans _ _ _ Hm). apply Hk.
Qed.

Lemma framed_try_catch {A} (body : M A) (fallback : A) (env : Env) (w : World) :
  framed P body -> P w (snd (try_catch body fallback env w)).
Proof.
  intros Hb. unfold try_catch. specialize (Hb env w).
  now destruct (body env w) as [[a|] w1].
Qed.

Lemma framed_ask : framed P ask.
Proof. intros env w. now apply P_db. Qed.

Lemma framed_get_db : framed P get_db.
Proof. intros env w. now apply P_db. Qed.

Lemma framed_date_now : framed P date_now.
Proof. intros env w. now apply P_db. Qed.

Lemma framed_getRandomValues (n : nat) : framed P (getRandomValues n).
Proof. intros env w. now apply P_db. Qed.

Lemma framed_req_json {A} (parsed : option A) : framed P (req_json parsed).
Proof. destruct parsed; [apply framed_ret|apply framed_throw]. Qed.

Lemma framed_select_user_by_email (e : jsstring) :
  framed P (Sql.select_user_by_email e).
Proof. intros env w. now apply P_db. Qed.

Lemma framed_select_token (t : jsstring) : framed P (Sql.select_token t).
Proof. intros env w. now apply P_db. Qed.

Ltac framed_step :=
  first
    [ apply framed_select_user_by_email | apply framed_select_token
    | apply P_insert_token | apply P_delete_token
    | apply P_insert_message | apply P_insert_session
    | apply P_delete_session
    | apply framed_ret | apply framed_throw | apply framed_ask
    | apply framed_get_db | apply framed_date_now
    | apply framed_getRandomValues | apply framed_req_json
    | assumption
    | match goal with
      | H : forall i e h c, framed P (Sql.insert_user i e h c) |- _ => apply H
      | H : forall i, framed P (Sql.update_user_verified i) |- _ => apply H
      | H : forall h p, framed P (_ h p) |- _ => apply H
      | |- framed P (match ?x with _ => _ end) => destruct x
      end
    | progress cbv zeta
    | apply framed_bind; [|intros ?] ].

Lemma framed_createSession (u : jsstring) : framed P (Lucia.createSession u).
Proof. unfold Lucia.createSession. repeat framed_step. Qed.

Lemma framed_validateSession (i : jsstring) : framed P (Lucia.validateSession i).
Proof. unfold Lucia.validateSession. repeat framed_step. Qed.

Lemma framed_generateTokenM (n : nat) : framed P (generateTokenM n).
Proof. unfold generateTokenM. repeat framed_step. Qed.

Lemma framed_generateUserId : framed P generateUserId.
Proof.
  unfold generateUserId.
  repeat first [apply framed_generateTokenM|framed_step].
Qed.

Lemma framed_hashPasswordM (p : jsstring) : framed P (hashPasswordM p).
Proof. unfold hashPasswordM. repeat framed_step. Qed.

Lemma framed_sendEmail (o : EmailOptions) : framed P (sendEmail o).
Proof. unfold sendEmail. repeat framed_step. Qed.

Lemma framed_generateVerificationEmail (u : jsstring) :
  framed P (generateVerificationEmail u).
Proof. unfold generateVerificationEmail. repeat framed_step. Qed.

Ltac framed_auto :=
  repeat first
    [ apply framed_createSession | apply framed_validateSession
    | apply framed_generateTokenM | apply framed_generateUserId
    | apply framed_hashPasswordM | apply framed_sendEmail
    | apply framed_generateVerificationEmail
    | framed_step ].

Lemma framed_login_body (verify : jsstring -> jsstring -> M bool)
  (json : option credentials) :
  (forall h p, framed P (verify h p)) -> framed P (login_body verify json).
Proof. intros Hv. unfold login_body. framed_auto. Qed.

Lemma framed_logout_body (sid : option jsstring) : framed P (logout_body sid).
Proof.
  unfold logout_body, Lucia.invalidateSession.
  apply framed_bind; [|intros ?; apply framed_ret].
  destruct sid as [[|sc st]|]; framed_auto.
Qed.

Lemma framed_user_body (sid : option jsstring) : framed P (user_body sid).
Proof. unfold user_body. framed_auto. Qed.

Lemma framed_post_message_body (sid : option jsstring)
  (json : option (option jsstring)) :
  framed P (post_message_body sid json).
Proof. unfold post_message_body. framed_auto. Qed.

Lemma framed_messages_body (after : option jsstring) :
  framed P (messages_body after).
Proof. unfold messages_body. framed_auto. Qed.

Lemma framed_register_body (json : option credentials) :
  (forall i e h c, framed P (Sql.insert_user i e h c)) ->
  framed P (register_body json).
Proof. intros Hins. unfold register_body. framed_auto. Qed.

Lemma framed_verify_body (query_token : option jsstring) :
  (forall i, framed P (Sql.update_user_verified i)) ->
  framed P (verify_body query_token).
Proof. intros Hupd. unfold verify_body. framed_auto. Qed.

(** The same for every route. *)
Lemma framed_handle (r : request) (env : Env) (w : World) :
  (forall i e h c, framed P (Sql.insert_user i e h c)) ->
  (forall i, framed P (Sql.update_user_verified i)) ->
  P w (snd (handle r env w)).
Proof.
  intros Hins Hupd. destruct r; cbn [handle].
  - now apply framed_try_catch, framed_register_body.
  - now apply framed_try_catch, framed_verify_body.
  - apply framed_try_catch, framed_login_body.
    intros h p env' w'. now apply P_db.
  - apply framed_try_catch, framed_logout_body.
  - apply framed_try_catch, framed_user_body.
  - apply framed_try_catch, framed_post_message_body.
  - apply framed_try_catch, framed_messages_body.
Qed.

End Frames.

(** ** What the handlers do to the user rows *)

(** The statements that leave the [users] table alone. *)
Lemma insert_token_users (t u : jsstring) (x : Z) (env : Env) (w : World) :
  users (db (snd (Sql.insert_token t u x env w))) = users (db w).
Proof.
  unfold Sql.insert_token, bind, get_db, put_db, throw.
  now destruct (existsb _ _ || _).
Qed.

Lemma delete_token_users (t : jsstring) (env : Env) (w : World) :
  users (db (snd (Sql.delete_token t env w))) = users (db w).
Proof. reflexivity. Qed.

Lemma insert_message_users (u m : jsstring) (x : Z) (env : Env) (w : World) :
  users (db (snd (Sql.insert_message u m x env w))) = users (db w).
Proof.
  unfold Sql.insert_message, bind, get_db, put_db, throw.
  now destruct (negb _).
Qed.

Lemma insert_session_users (i u : jsstring) (x : Z) (env : Env) (w : World) :
  users (db (snd (Lucia.insert_session i u x env w))) = users (db w).
Proof.
  unfold Lucia.insert_session, bind, get_db, put_db, throw.
  now destruct (existsb _ _ || _).
Qed.

Lemma delete_session_users (i : jsstring) (env : Env) (w : World) :
  users (db (snd (Lucia.delete_session i env w))) = users (db w).
Proof. reflexivity. Qed.

Section UserFrames.

Variable P : World -> World -> Prop.
Hypothesis P_users : forall w w', users (db w') = users (db w) -> P w w'.

Lemma users_frame_db (w w' : World) : db w' = db w -> P w w'.
Proof. intros E. apply P_users. now rewrite E. Qed.

Lemma users_frame_insert_token (t u : jsstring) (x : Z) :
  framed P (Sql.insert_token t u x).
Proof. intros env w. apply P_users, insert_token_users. Qed.

Lemma users_frame_delete_token (t : jsstring) : framed P (Sql.delete_token t).
Proof. intros env w. apply P_users, delete_token_users. Qed.

Lemma users_frame_insert_message (u m : jsstring) (x : Z) :
  framed P (Sql.insert_message u m x).
Proof. intros env w. apply P_users, insert_message_users. Qed.

Lemma users_frame_insert_session (i u : jsstring) (x : Z) :
  framed P (Lucia.insert_session i u x).
Proof. intros env w. apply P_users, insert_session_users. Qed.

Lemma users_frame_delete_session (i : jsstring) :
  framed P (Lucia.delete_session i).
Proof. intros env w. apply P_users, delete_session_users. Qed.

End UserFrames.

Lemma same_users_of_eq (w w' : World) :
  users (db w') = users (db w) -> same_users w w'.
Proof. trivial. Qed.

Lemma same_users_trans (a b c : World) :
  same_users a b -> same_users b c -> same_users a c.
Proof. unfold same_users. congruence. Qed.

Lemma adds_unverified_of_eq (w w' : World) :
  users (db w') = users (db w) -> adds_unverified w w'.
Proof. intros H. exists []. now rewrite app_nil_r. Qed.

Lemma adds_unverified_trans (a b c : World) :
  adds_unverified a b -> adds_unverified b c -> adds_unverified a c.
Proof.
  intros (n1 & E1 & F1) (n2 & E2 & F2). exists (n1 ++ n2).
  rewrite E2, E1, app_assoc. split; [reflexivity|]. apply Forall_app. now split.
Qed.

(** The INSERT of POST /api/register writes verified = 0. *)
Lemma insert_user_adds_unverified (i e h : jsstring) (c : Z) :
  framed adds_unverified (Sql.insert_user i e h c).
Proof.
  intros env w. unfold Sql.insert_user, bind, get_db, put_db, throw.
  destruct (has_user (db w) i || _); cbn [snd db users].
  - now apply adds_unverified_of_eq.
  - exists [UserRow i e h 0 c]. split; [reflexivity|]. now repeat constructor.
Qed.

Lemma same_users_of_db (w w' : World) : db w' = db w -> same_users w w'.
Proof. apply users_frame_db, same_users_of_eq. Qed.

Lemma adds_unverified_of_db (w w' : World) :
  db w' = db w -> adds_unverified w w'.
Proof. apply users_frame_db, adds_unverified_of_eq. Qed.

(** Discharges the premises of the frame lemmas for a relation that only
    looks at the user rows. *)
Ltac users_frames P Peq Pdb Ptrans :=
  first
    [ exact Pdb | exact Ptrans
    | exact (users_frame_insert_token P Peq)
    | exact (users_frame_delete_token P Peq)
    | exact (users_frame_insert_message P Peq)
    | exact (users_frame_insert_session P Peq)
    | exact (users_frame_delete_session P Peq) ].

Ltac same_users_frames :=
  users_frames same_users same_users_of_eq same_users_of_db same_users_trans.

Ltac adds_unverified_frames :=
  users_frames adds_unverified adds_unverified_of_eq adds_unverified_of_db
               adds_unverified_trans.

Lemma verifyPasswordM_same_users (h p : jsstring) :
  framed same_users (verifyPasswordM h p).
Proof. intros env w. reflexivity. Qed.

Lemma createSession_same_users (u : jsstring) (env : Env) (w : World) :
  users (db (snd (Lucia.createSession u env w))) = users (db w).
Proof.
  change (same_users w (snd (Lucia.createSession u env w))).
  apply (framed_createSession same_users); same_users_frames.
Qed.

Lemma get_verify_users (t : option jsstring) (env : Env) (w : World) :
  users (db (snd (get_verify t env w))) = users (db w) \/
  exists uid,
    users (db (snd (get_verify t env w)))
    = map (Sql.set_verified uid) (users (db w)).
Proof.
  destruct t as [[|tc tl]|]; try (left; reflexivity).
  assert (Hne : tc :: tl <> []) by discriminate.
  destruct (stored_token (db w) (tc :: tl)) as [tk|] eqn:F.
  - destruct (Z.lt_ge_cases (token_expires_at tk) (clock env (clock_reads w)))
      as [Hexp|Hin_time].
    + rewrite (verify_expired env w _ tk Hne F Hexp). now left.
    + rewrite (verify_in_time env w _ tk Hne F Hin_time). right.
      exists (token_user_id tk).
      pose proof (createSession_same_users (token_user_id tk) env
                    (MkWorld (with_verification (db w) tk) (S (clock_reads w))
                             (entropy_reads w))) as Hs.
      destruct (Lucia.createSession _ _ _) as [[session|] w']; exact Hs.
  - rewrite (verify_unknown env w _ Hne F). now left.
Qed.

(** What one request does to the user rows. *)
Lemma handle_users (r : request) (env : Env) (w : World) :
  match r with
  | PostRegister _ => adds_unverified w (snd (handle r env w))
  | GetVerify _ =>
      users (db (snd (handle r env w))) = users (db w) \/
      exists uid,
        users (db (snd (handle r env w)))
        = map (Sql.set_verified uid) (users (db w))
  | _ => same_users w (snd (handle r env w))
  end.
Proof.
  destruct r; cbn [handle].
  - unfold post_api_register.
    apply (framed_try_catch adds_unverified), framed_register_body;
      first [exact insert_user_adds_unverified|adds_unverified_frames].
  - apply get_verify_users.
  - unfold post_api_login, login_with.
    apply (framed_try_catch same_users), framed_login_body;
      first [exact verifyPasswordM_same_users|same_users_frames].
  - unfold post_api_logout.
    apply (framed_try_catch same_users), framed_logout_body;
      same_users_frames.
  - unfold get_api_user.
    apply (framed_try_catch same_users), framed_user_body; same_users_frames.
  - unfold post_api_messages.
    apply (framed_try_catch same_users), framed_post_message_body;
      same_users_frames.
  - unfold get_api_messages.
    apply (framed_try_catch same_users), framed_messages_body;
      same_users_frames.
Qed.

Lemma set_verified_keeps (uid : jsstring) (u : user_row) :
  user_id (Sql.set_verified uid u) = user_id u /\
  user_email (Sql.set_verified uid u) = user_email u /\
  (user_verified u <> 0%Z -> user_verified (Sql.set_verified uid u) <> 0%Z).
Proof.
  unfold Sql.set_verified. destruct (jsstring_eqb (user_id u) uid); cbn.
  - repeat split. discriminate.
  - now repeat split.
Qed.

(** A verified user is still there, and still verified, after any
    request. *)
Lemma handle_keeps_verified (r : request) (env : Env) (w : World) (u : user_row) :
  In u (users (db w)) -> user_verified u <> 0%Z ->
  exists u', In u' (users (db (snd (handle r env w)))) /\
             user_id u' = user_id u /\ user_email u' = user_email u /\
             user_verified u' <> 0%Z.
Proof.
  intros Hin Hv. pose proof (handle_users r env w) as H.
  assert (Hsame : users (db (snd (handle r env w))) = users (db w) ->
                  exists u', In u' (users (db (snd (handle r env w)))) /\
                             user_id u' = user_id u /\
                             user_email u' = user_email u /\
                             user_verified u' <> 0%Z).
  { intros E. exists u. rewrite E. now repeat split. }
  destruct r; try (now apply Hsame).
  - destruct H as (new & E & _). exists u. rewrite E.
    split; [apply in_or_app; now left|now repeat split].
  - destruct H as [E|(uid & E)]; [now apply Hsame|].
    exists (Sql.set_verified uid u). rewrite E.
    split; [now apply in_map|].
    destruct (set_verified_keeps uid u) as (Hi & He & Hk).
    repeat split; [exact Hi|exact He|now apply Hk].
Qed.

(** ** The schema is an invariant of the server *)

Lemma nodup_snoc {A} (l : list A) (x : A) :
  NoDup l -> ~ In x l -> NoDup (l ++ [x]).
Proof.
  intros Hl Hx. apply NoDup_app; [exact Hl|repeat constructor; intros []|].
  intros a Ha [<-|[]]. now apply Hx.
Qed.

Lemma nodup_map_filter {A B} (f : A -> B) (g : A -> bool) (l : list A) :
  NoDup (map f l) -> NoDup (map f (filter g l)).
Proof.
  induction l as [|a l IH]; [trivial|]. cbn [map filter].
  intros H. apply NoDup_cons_iff in H as [Ha Hl].
  destruct (g a); [|now apply IH]. cbn [map]. constructor; [|now apply IH].
  intros Hin. apply Ha. apply in_map_iff in Hin as (b & Hb & Hin).
  apply filter_In in Hin as [Hin _]. rewrite <- Hb. now apply in_map.
Qed.

Lemma key_absent {A} (key : A -> jsstring) (k : jsstring) (l : list A) :
  existsb (fun r => jsstring_eqb (key r) k) l = false -> ~ In k (map key l).
Proof.
  intros H Hin. apply in_map_iff in Hin as (r & Hr & Hin).
  assert (E : existsb (fun r => jsstring_eqb (key r) k) l = true).
  { apply existsb_exists. exists r. split; [exact Hin|].
    rewrite Hr. apply jsstring_eqb_refl. }
  congruence.
Qed.

Lemma has_user_same_ids (d d' : Db) (id : jsstring) :
  map user_id (users d') = map user_id (users d) ->
  has_user d' id = has_user d id.
Proof.
  unfold has_user. generalize (users d) (users d').
  induction l as [|u us IH]; intros [|u' us']; try discriminate;
    [reflexivity|].
  cbn [map existsb]. intros E. injection E as -> E. now rewrite (IH us').
Qed.

Lemma map_set_verified_ids (uid : jsstring) (us : list user_row) :
  map user_id (map (Sql.set_verified uid) us) = map user_id us.
Proof.
  rewrite map_map. apply map_ext. intros u. apply set_verified_id.
Qed.

Lemma map_set_verified_emails (uid : jsstring) (us : list user_row) :
  map user_email (map (Sql.set_verified uid) us) = map user_email us.
Proof.
  rewrite map_map. apply map_ext. intros u. unfold Sql.set_verified.
  now destruct (jsstring_eqb (user_id u) uid).
Qed.

Lemma next_message_id_above (ms : list message_row) (m : message_row) :
  In m ms -> (message_id m < Sql.next_message_id ms)%Z.
Proof.
  unfold Sql.next_message_id. induction ms as [|x ms IH]; [intros []|].
  cbn [fold_right]. intros [->|Hin]; [lia|]. specialize (IH Hin). lia.
Qed.

Lemma keeps_schema_db (w w' : World) : db w' = db w -> keeps_schema w w'.
Proof. intros E H. now rewrite E. Qed.

Lemma keeps_schema_trans (a b c : World) :
  keeps_schema a b -> keeps_schema b c -> keeps_schema a c.
Proof. unfold keeps_schema. tauto. Qed.

Lemma insert_user_keeps_schema (i e h : jsstring) (c : Z) :
  framed keeps_schema (Sql.insert_user i e h c).
Proof.
  intros env w Hok. unfold Sql.insert_user, bind, get_db, put_db, throw.
  destruct (has_user (db w) i || _) eqn:E; cbn [snd db]; [exact Hok|].
  apply orb_false_iff in E as [Eid Eemail].
  assert (Hgrow : forall x, has_user (db w) x = true ->
                            has_user (MkDb (users (db w) ++ [UserRow i e h 0 c])
                                           (email_verification_tokens (db w))
                                           (sessions (db w)) (messages (db w)))
                                     x = true).
  { intros x Hx. unfold has_user in *. cbn [users]. rewrite existsb_app, Hx.
    reflexivity. }
  destruct Hok as [Hupk Huem Htpk Hspk Hmpk Htfk Hsfk Hmfk].
  constructor; cbn [users email_verification_tokens sessions messages];
    try assumption.
  - rewrite map_app. apply nodup_snoc; [assumption|].
    now apply (key_absent user_id).
  - rewrite map_app. apply nodup_snoc; [assumption|].
    now apply (key_absent user_email).
  - intros t Ht. apply Hgrow. auto.
  - intros s Hs. apply Hgrow. auto.
  - intros m Hm. apply Hgrow. auto.
Qed.

Lemma update_user_verified_keeps_schema (i : jsstring) :
  framed keeps_schema (Sql.update_user_verified i).
Proof.
  intros env w Hok. unfold Sql.update_user_verified, bind, get_db, put_db.
  cbn [snd db].
  assert (Hsame : forall x,
             has_user (MkDb (map (Sql.set_verified i) (users (db w)))
                            (email_verification_tokens (db w))
                            (sessions (db w)) (messages (db w))) x
             = has_user (db w) x).
  { intros x. apply has_user_same_ids. cbn [users]. apply map_set_verified_ids. }
  destruct Hok as [Hupk Huem Htpk Hspk Hmpk Htfk Hsfk Hmfk].
  constructor; cbn [users email_verification_tokens sessions messages];
    try assumption.
  - now rewrite map_set_verified_ids.
  - now rewrite map_set_verified_emails.
  - intros t Ht. rewrite Hsame. auto.
  - intros s Hs. rewrite Hsame. auto.
  - intros m Hm. rewrite Hsame. auto.
Qed.

Lemma insert_token_keeps_schema (t u : jsstring) (x : Z) :
  framed keeps_schema (Sql.insert_token t u x).
Proof.
  intros env w Hok. unfold Sql.insert_token, bind, get_db, put_db, throw.
  destruct (existsb _ _ || _) eqn:E; cbn [snd db]; [exact Hok|].
  apply orb_false_iff in E as [Etok Euser]. apply negb_false_iff in Euser.
  destruct Hok as [Hupk Huem Htpk Hspk Hmpk Htfk Hsfk Hmfk].
  constructor; cbn [users email_verification_tokens sessions messages];
    try assumption.
  - rewrite map_app. apply nodup_snoc; [assumption|].
    now apply (key_absent token_token).
  - intros r Hr. apply in_app_or in Hr as [Hr|[<-|[]]];
      [exact (Htfk r Hr)|exact Euser].
Qed.

Lemma delete_token_keeps_schema (t : jsstring) :
  framed keeps_schema (Sql.delete_token t).
Proof.
  intros env w Hok. unfold Sql.delete_token, bind, get_db, put_db.
  cbn [snd db].
  destruct Hok as [Hupk Huem Htpk Hspk Hmpk Htfk Hsfk Hmfk].
  constructor; cbn [users email_verification_tokens sessions messages];
    try assumption.
  - now apply nodup_map_filter.
  - intros r Hr. apply filter_In in Hr as [Hr _]. exact (Htfk r Hr).
Qed.

Lemma insert_message_keeps_schema (u m : jsstring) (x : Z) :
  framed keeps_schema (Sql.insert_message u m x).
Proof.
  intros env w Hok. unfold Sql.insert_message, bind, get_db, put_db, throw.
  destruct (negb _) eqn:E; cbn [snd db]; [exact Hok|].
  apply negb_false_iff in E.
  destruct Hok as [Hupk Huem Htpk Hspk Hmpk Htfk Hsfk Hmfk].
  constructor; cbn [users email_verification_tokens sessions messages];
    try assumption.
  - rewrite map_app. apply nodup_snoc; [assumption|]. cbn [map message_id].
    intros Hin. apply in_map_iff in Hin as (r & Hr & Hin).
    apply next_message_id_above in Hin. lia.
  - intros r Hr. apply in_app_or in Hr as [Hr|[<-|[]]];
      [exact (Hmfk r Hr)|exact E].
Qed.

Lemma insert_session_keeps_schema (i u : jsstring) (x : Z) :
  framed keeps_schema (Lucia.insert_session i u x).
Proof.
  intros env w Hok. unfold Lucia.insert_session, bind, get_db, put_db, throw.
  destruct (existsb _ _ || _) eqn:E; cbn [snd db]; [exact Hok|].
  apply orb_false_iff in E as [Eid Euser]. apply negb_false_iff in Euser.
  destruct Hok as [Hupk Huem Htpk Hspk Hmpk Htfk Hsfk Hmfk].
  constructor; cbn [users email_verification_tokens sessions messages];
    try assumption.
  - rewrite map_app. apply nodup_snoc; [assumption|].
    now apply (key_absent session_id).
  - intros r Hr. apply in_app_or in Hr as [Hr|[<-|[]]];
      [exact (Hsfk r Hr)|exact Euser].
Qed.

Lemma delete_session_keeps_schema (i : jsstring) :
  framed keeps_schema (Lucia.delete_session i).
Proof.
  intros env w Hok. unfold Lucia.delete_session, bind, get_db, put_db.
  cbn [snd db].
  destruct Hok as [Hupk Huem Htpk Hspk Hmpk Htfk Hsfk Hmfk].
  constructor; cbn [users email_verification_tokens sessions messages];
    try assumption.
  - now apply nodup_map_filter.
  - intros r Hr. apply filter_In in Hr as [Hr _]. exact (Hsfk r Hr).
Qed.

Lemma empty_db_ok : schema_ok empty_db.
Proof. constructor; cbn; try constructor; intros ? []. Qed.

(** Every request keeps the constraints of the schema, so every store
    the server reaches from the empty one satisfies them. *)
Lemma handle_keeps_schema (r : request) (env : Env) (w : World) :
  schema_ok (db w) -> schema_ok (db (snd (handle r env w))).
Proof.
  apply (framed_handle keeps_schema).
  - exact keeps_schema_db.
  - exact keeps_schema_trans.
  - exact insert_token_keeps_schema.
  - exact delete_token_keeps_schema.
  - exact insert_message_keeps_schema.
  - exact insert_session_keeps_schema.
  - exact delete_session_keeps_schema.
  - exact insert_user_keeps_schema.
  - exact update_user_verified_keeps_schema.
Qed.

Lemma run_keeps_schema (trace : list (Env * request)) (w : World) :
  schema_ok (db w) -> schema_ok (db (run trace w)).
Proof.
  revert w. induction trace as [|[env r] rest IH]; intros w Hok; [exact Hok|].
  cbn [run]. apply IH. now apply handle_keeps_schema.
Qed.

Lemma reachable_schema_ok (trace : list (Env * request)) (c e : nat) :
  schema_ok (db (run trace (MkWorld empty_db c e))).
Proof. apply run_keeps_schema. exact empty_db_ok. Qed.

(** C8.  The verified flag only goes up.  A request to POST /api/register
    leaves the existing rows as they are and can only add rows whose flag
    is 0; GET /verify either leaves the rows as they are or rewrites them
    with [UPDATE users SET verified = 1 WHERE id = ?]; every other request
    leaves the user rows untouched.  Hence along any run of the server a
    user whose flag is set is still present, under the same id and email,
    with the flag set. *)
Theorem verified_flag_monotonic :
  (forall r env w,
      match r with
      | PostRegister _ =>
          exists new,
            users (db (snd (handle r env w))) = users (db w) ++ new /\
            Forall (fun u => user_verified u = 0%Z) new
      | GetVerify _ =>
          users (db (snd (handle r env w))) = users (db w) \/
          exists uid,
            users (db (snd (handle r env w)))
            = map (Sql.set_verified uid) (users (db w))
      | _ => users (db (snd (handle r env w))) = users (db w)
      end) /\
  (forall uid u, user_verified (Sql.set_verified uid u) = 1%Z
                 \/ Sql.set_verified uid u = u) /\
  (forall trace w u,
      In u (users (db w)) -> user_verified u <> 0%Z ->
      exists u', In u' (users (db (run trace w))) /\
                 user_id u' = user_id u /\ user_email u' = user_email u /\
                 user_verified u' <> 0%Z).
Proof.
  split; [|split].
  - intros r env w. pose proof (handle_users r env w) as H.
    destruct r; exact H.
  - intros uid u. unfold Sql.set_verified.
    destruct (jsstring_eqb (user_id u) uid); [now left|now right].
  - intros trace. induction trace as [|[env r] rest IH]; intros w u Hin Hv.
    + exists u. now repeat split.
    + cbn [run].
      destruct (handle_keeps_verified r env w u Hin Hv)
        as (u1 & Hin1 & Hid1 & Hem1 & Hv1).
      destruct (IH _ u1 Hin1 Hv1) as (u' & Hin' & Hid' & Hem' & Hv').
      exists u'. repeat split; [exact Hin'|congruence|congruence|exact Hv'].
Qed.

(** ** Checks of the embedded platform functions *)

Example sha256_abc :
  to_hex (Sha256.digest (Utf8.encode (js "abc")))
  = js "ba7816bf8f01cfea414140de5dae2223b00361a396177a9cb410ff61f20015ad".
Proof. vm_compute. reflexivity. Qed.

Example sha256_empty :
  to_hex (Sha256.digest [])
  = js "e3b0c44298fc1c149afbf4c8996fb92427ae41e4649b934ca495991b7852b855".
Proof. vm_compute. reflexivity. Qed.

Example sha256_two_blocks :
  to_hex (Sha256.digest
            (Utf8.encode
               (js "abcdbcdecdefdefgefghfghighijhijkijkljklmklmnlmnomnopnopq")))
  = js "248d6a61d20638b8e5c026930c3e6039a33ce45964ff2167f6ecedd419db06c1".
Proof. vm_compute. reflexivity. Qed.

Example utf8_samples :
  Utf8.encode [0x20AC; 0xD83D; 0xDE00; 0xD800; 0xE9]%N
  = [0xE2; 0x82; 0xAC; 0xF0; 0x9F; 0x98; 0x80; 0xEF; 0xBF; 0xBD; 0xC3; 0xA9]%N.
Proof. reflexivity. Qed.

Example parseInt_samples :
  parseInt (js "1700000000005") = Num 1700000000005 /\
  parseInt (js "  -0x1fz") = Num (-31) /\
  parseInt (js "12abc") = Num 12 /\
  parseInt (js "0x") = NaN /\
  parseInt (js "abc") = NaN /\
  parseInt (js " ") = NaN.
Proof. repeat split; reflexivity. Qed.

Example number_toString_samples :
  number_toString 1700000000000 = js "1700000000000" /\
  number_toString 0 = js "0" /\
  number_toString 503 = js "503".
Proof. repeat split; reflexivity. Qed.

Example trim_sample : trim (js "  hi there ") = js "hi there".
Proof. reflexivity. Qed.

Example list_after_100_sample :
  fst (get_api_messages (Some (js "100")) sample_env sample_world)
  = MkResponse 200
      (JsonMessages [MessageView 2 (js "again") (js "alice@x.com") 200]) None.
Proof. vm_compute. reflexivity. Qed.

Example login_sample :
  status (fst (post_api_login
                 (Some (MkCredentials (Some (js "alice@x.com"))
                                      (Some (js "correct horse"))))
                 sample_env sample_world)) = 200%Z /\
  fst (post_api_login
         (Some (MkCredentials (Some (js "alice@x.com"))
                              (Some (js "wrong horse"))))
         sample_env sample_world)
  = json_error 401 "Invalid email or password" /\
  fst (post_api_login
         (Some (MkCredentials (Some (js "nobody@x.com"))
                              (Some (js "correct horse"))))
         sample_env sample_world)
  = json_error 401 "Invalid email or password".
Proof. repeat split; vm_compute; reflexivity. Qed.

(* ================================================================== *)
(** * Further properties of the code *)

(** ** generateToken and the format of a stored digest *)

Lemma forallb_nth_in (f : N -> bool) (l : list N) (i : nat) :
  forallb f l = true -> (i < length l)%nat -> f (nth i l 0%N) = true.
Proof.
  intros H Hi. rewrite forallb_forall in H. apply H. now apply nth_In.
Qed.

Lemma generateToken_alnum (rv : list N) :
  forallb is_alnum (generateToken rv) = true.
Proof.
  unfold generateToken. apply forallb_forall. intros c Hc.
  apply in_map_iff in Hc as [v [<- _]].
  apply forallb_nth_in; [vm_compute; reflexivity|].
  assert (v mod N.of_nat (length token_chars) < N.of_nat (length token_chars))%N
    by (apply N.mod_lt; vm_compute; discriminate).
  lia.
Qed.

Lemma draw_length (env : Env) (pos n : nat) : length (draw env pos n) = n.
Proof. unfold draw. now rewrite length_map, length_seq. Qed.

(** X1.  [generateToken(length)] returns exactly [length] characters, all
    of them letters or digits, whatever bytes the entropy source gives; it
    consumes [length] bytes and touches nothing else. *)
Theorem generateToken_shape (n : nat) (env : Env) (w : World) :
  exists token,
    generateTokenM n env w
    = (Value token, MkWorld (db w) (clock_reads w) (entropy_reads w + n)) /\
    token = generateToken (draw env (entropy_reads w) n) /\
    length token = n /\
    forallb is_alnum token = true /\
    Forall (fun c => c <> colon) token.
Proof.
  exists (generateToken (draw env (entropy_reads w) n)).
  split; [reflexivity|]. split; [reflexivity|].
  split; [now rewrite generateToken_length, draw_length|].
  split; [apply generateToken_alnum|apply generateToken_no_colon].
Qed.

Lemma hex_byte_lower_hex (b : N) :
  (b < 256)%N -> forallb is_lower_hex (hex_byte b) = true.
Proof.
  intros Hb.
  apply (below_forallb (fun b => forallb is_lower_hex (hex_byte b)) 256);
    [vm_compute; reflexivity|exact Hb].
Qed.

Lemma to_hex_lower_hex (bs : list N) :
  Forall (fun b => (b < 256)%N) bs -> forallb is_lower_hex (to_hex bs) = true.
Proof.
  induction 1 as [|b bs Hb _ IH]; [reflexivity|].
  rewrite to_hex_cons, forallb_app, hex_byte_lower_hex, IH by exact Hb.
  reflexivity.
Qed.

(** X2.  Every digest [hashPassword] returns has the form [salt:hex]: a
    salt of 16 letters or digits, one colon, and 64 lowercase hexadecimal
    characters, 81 characters in all; splitting it at the colon gives back
    exactly the salt and the hexadecimal part. *)
Theorem hashPassword_shape (env : Env) (w : World) (p : jsstring) :
  exists salt hex h,
    hashPasswordM p env w
    = (Value h, MkWorld (db w) (clock_reads w) (entropy_reads w + 16)) /\
    h = salt ++ [colon] ++ hex /\
    length salt = 16%nat /\ forallb is_alnum salt = true /\
    length hex = 64%nat /\ forallb is_lower_hex hex = true /\
    length h = 81%nat /\
    split_on colon h = [salt; hex].
Proof.
  set (salt := generateToken (draw env (entropy_reads w) 16)).
  set (hex := to_hex (Sha256.digest (Utf8.encode (salt ++ p)))).
  assert (Hs : length salt = 16%nat)
    by (unfold salt; now rewrite generateToken_length, draw_length).
  assert (Hh : length hex = 64%nat).
  { unfold hex. rewrite to_hex_length by apply digest_bytes.
    now rewrite digest_length. }
  exists salt, hex, (salt ++ [colon] ++ hex).
  split; [reflexivity|]. split; [reflexivity|]. split; [exact Hs|].
  split; [apply generateToken_alnum|]. split; [exact Hh|].
  split; [apply to_hex_lower_hex, digest_bytes|].
  split; [rewrite !length_app, Hs, Hh; reflexivity|].
  change (salt ++ [colon] ++ hex) with (salt ++ colon :: hex).
  rewrite split_on_first by apply generateToken_no_colon.
  now rewrite split_on_free by apply to_hex_no_colon, digest_bytes.
Qed.

(** ** verifyPassword on any stored value *)

(** The body of [verifyPassword] once the two parts are known. *)
Lemma verifyPassword_of_parts (hash salt stored : jsstring)
  (rest : list jsstring) (computed p : jsstring) :
  split_on colon hash = salt :: stored :: rest ->
  computed = to_hex (Sha256.digest (Utf8.encode (salt ++ p))) ->
  verifyPassword hash p
  = if falsy (Some salt) || falsy (Some stored) then false
    else if negb (Nat.eqb (length computed) (length stored)) then false
         else N.eqb (compare_loop (length computed) 0 computed stored 0%N) 0%N.
Proof.
  intros Hsplit ->. unfold verifyPassword. rewrite Hsplit. reflexivity.
Qed.

Lemma computed_hash_length (s : jsstring) :
  length (to_hex (Sha256.digest (Utf8.encode s))) = 64%nat.
Proof.
  rewrite to_hex_length by apply digest_bytes. now rewrite digest_length.
Qed.

Lemma verifyPassword_iff_parts (hash p : jsstring) :
  verifyPassword hash p = true <->
  exists salt stored rest,
    split_on colon hash = salt :: stored :: rest /\
    salt <> [] /\
    stored = to_hex (Sha256.digest (Utf8.encode (salt ++ p))).
Proof.
  destruct (split_on colon hash) as [|salt [|stored rest]] eqn:Hsplit.
  - unfold verifyPassword. rewrite Hsplit. cbn [nth_error].
    split; [discriminate|intros (s & t & r & E & _); discriminate E].
  - unfold verifyPassword. rewrite Hsplit. cbn [nth_error].
    split; [discriminate|intros (s & t & r & E & _); discriminate E].
  - pose proof (computed_hash_length (salt ++ p)) as Hlen.
    remember (to_hex (Sha256.digest (Utf8.encode (salt ++ p)))) as computed
      eqn:Hc.
    rewrite (verifyPassword_of_parts hash salt stored rest computed p Hsplit Hc).
    split.
    + intros H. exists salt, stored, rest. split; [reflexivity|].
      destruct salt as [|s0 salt]; [discriminate H|].
      split; [discriminate|]. rewrite <- Hc. cbn [falsy orb] in H.
      destruct stored as [|h0 stored]; [discriminate H|]. cbn [falsy] in H.
      destruct (Nat.eqb (length computed) (length (h0 :: stored))) eqn:El;
        [|discriminate H].
      cbn [negb] in H. apply Nat.eqb_eq in El.
      symmetry. now apply (compare_loop_eq computed (h0 :: stored) El).
    + intros (s & t & r & E & Hne & Ht). injection E as <- <- <-.
      rewrite <- Hc in Ht. subst stored.
      destruct salt as [|s0 salt]; [congruence|]. cbn [falsy orb].
      destruct computed as [|c0 computed]; [discriminate Hlen|]. cbn [falsy].
      rewrite Nat.eqb_refl. cbn [negb].
      now apply compare_loop_eq.
Qed.

(** X3.  [verifyPassword] accepts exactly when the stored value splits at
    colons into at least two parts, the first (the salt) is not empty, and
    the second equals the hexadecimal SHA-256 digest of salt + candidate;
    anything after a second colon is ignored.  In every other case it
    returns false: in particular for a stored value without a colon, with
    an empty salt, or whose second part is not 64 characters long. *)
Theorem verifyPassword_accepts_iff (hash p : jsstring) :
  (verifyPassword hash p = true <->
   exists salt stored rest,
     split_on colon hash = salt :: stored :: rest /\
     salt <> [] /\
     stored = to_hex (Sha256.digest (Utf8.encode (salt ++ p)))) /\
  (Forall (fun c => c <> colon) hash -> verifyPassword hash p = false) /\
  (forall stored, verifyPassword (colon :: stored) p = false) /\
  (forall salt stored,
      Forall (fun c => c <> colon) salt ->
      Forall (fun c => c <> colon) stored ->
      length stored <> 64%nat ->
      verifyPassword (salt ++ colon :: stored) p = false).
Proof.
  split; [apply verifyPassword_iff_parts|]. split; [|split].
  - intros Hfree. apply not_true_is_false. intros H.
    apply verifyPassword_iff_parts in H as (s & t & r & E & _).
    rewrite split_on_free in E by exact Hfree. discriminate E.
  - intros stored. apply not_true_is_false. intros H.
    apply verifyPassword_iff_parts in H as (s & t & r & E & Hne & _).
    change (colon :: stored) with ([] ++ colon :: stored) in E.
    rewrite split_on_first in E by constructor.
    injection E as <- _. now apply Hne.
  - intros salt stored Hs Ht Hlen. apply not_true_is_false. intros H.
    apply verifyPassword_iff_parts in H as (s & t & r & E & _ & Heq).
    rewrite split_on_first, split_on_free in E by assumption.
    injection E as <- <- _. apply Hlen. rewrite Heq.
    apply computed_hash_length.
Qed.

(** ** ASCII passwords *)

Lemma encode_ascii (s : jsstring) :
  forallb is_ascii s = true -> Utf8.encode s = s.
Proof.
  induction s as [|c s IH]; [reflexivity|]. cbn [forallb].
  intros H. apply andb_true_iff in H as [Hc Hs].
  unfold is_ascii in Hc. cbn [Utf8.encode].
  change (0x80)%N with 128%N. rewrite Hc. now rewrite IH.
Qed.

Lemma alnum_is_ascii (s : jsstring) :
  forallb is_alnum s = true -> forallb is_ascii s = true.
Proof.
  rewrite !forallb_forall. intros H c Hc. specialize (H c Hc).
  unfold is_alnum in H. unfold is_ascii.
  apply N.ltb_lt.
  repeat (apply orb_true_iff in H as [H|H]);
    apply andb_true_iff in H as [_ H]; apply N.leb_le in H; lia.
Qed.

(** X4.  For passwords made of ASCII characters the salted data hashed
    is salt + password itself, so a candidate other than the registered
    password is accepted only if two different byte strings, salt +
    candidate and salt + password, have the same SHA-256 digest. *)
Theorem ascii_password_verification (env : Env) (w : World) (p p' : jsstring) :
  forallb is_ascii p = true -> forallb is_ascii p' = true ->
  let salt := generateToken (salt_bytes env w) in
  let h := hashPassword (salt_bytes env w) p in
  Utf8.encode (salt ++ p) = salt ++ p /\
  Utf8.encode (salt ++ p') = salt ++ p' /\
  (verifyPassword h p' = true <->
   Sha256.digest (salt ++ p') = Sha256.digest (salt ++ p)) /\
  (p' <> p -> salt ++ p' <> salt ++ p).
Proof.
  intros Hp Hp' salt h.
  assert (Hsalt : forallb is_ascii salt = true)
    by apply alnum_is_ascii, generateToken_alnum.
  assert (E : Utf8.encode (salt ++ p) = salt ++ p)
    by (apply encode_ascii; now rewrite forallb_app, Hsalt, Hp).
  assert (E' : Utf8.encode (salt ++ p') = salt ++ p')
    by (apply encode_ascii; now rewrite forallb_app, Hsalt, Hp').
  split; [exact E|]. split; [exact E'|]. split.
  - unfold h, hashPassword. fold salt. rewrite <- E at 2. rewrite <- E' at 1.
    apply verifyPassword_salted.
    + unfold salt, salt_bytes. intros Hnil.
      apply (f_equal (@length N)) in Hnil.
      rewrite generateToken_length, draw_length in Hnil. discriminate Hnil.
    + apply generateToken_no_colon.
  - intros Hne Heq. apply Hne. now apply app_inv_head in Heq.
Qed.

Lemma ascii_password_verification_witness :
  forallb is_ascii (js "hunter22") = true /\
  forallb is_ascii (js "hunter23") = true /\
  verifyPassword (hashPassword (salt_bytes sample_env sample_world)
                               (js "hunter22"))
                 (js "hunter23") = false.
Proof.
  split; [reflexivity|]. split; [reflexivity|].
  destruct (ascii_password_verification sample_env sample_world
              (js "hunter22") (js "hunter23") eq_refl eq_refl)
    as (_ & _ & Hiff & _).
  apply not_true_is_false. intros H. apply Hiff in H.
  vm_compute in H. discriminate H.
Defined.

(** ** parseInt reads back what a number prints *)

(** X5.  The cursor round trip of the chat page: for every safe integer
    [n], the text that [`after=${n}`] puts in the query is read back by
    [parseInt] as [n], so GET /api/messages filters on exactly the
    timestamp the page sent; text after the number that starts with
    neither a digit nor an x does not change the value. *)
Theorem parseInt_reads_back_number (n : Z) (rest : jsstring) :
  (Z.abs n <= max_safe_integer)%Z ->
  stops_number rest = true ->
  parseInt (number_toString n ++ rest) = Num n /\
  parseInt (number_toString n) = Num n /\
  afterTimestamp (Some (number_toString n)) = Num n.
Proof.
  intros _ Hrest.
  assert (H : parseInt (number_toString n) = Num n).
  { rewrite <- (app_nil_r (number_toString n)). now apply parseInt_decimal. }
  split; [now apply parseInt_decimal|]. split; [exact H|].
  pose proof (number_toString_not_empty n) as Hne.
  unfold afterTimestamp. destruct (number_toString n); [congruence|exact H].
Qed.

Lemma parseInt_reads_back_number_witness :
  (Z.abs 1700000000005 <= max_safe_integer)%Z /\
  stops_number (js "&x=1") = true /\
  parseInt (number_toString 1700000000005 ++ js "&x=1") = Num 1700000000005 /\
  afterTimestamp (Some (number_toString 1700000000005)) = Num 1700000000005.
Proof.
  assert (Hs : (Z.abs 1700000000005 <= max_safe_integer)%Z)
    by (vm_compute; discriminate).
  split; [exact Hs|]. split; [reflexivity|].
  destruct (parseInt_reads_back_number 1700000000005 (js "&x=1") Hs eq_refl)
    as (H1 & _ & H3).
  split; [exact H1|exact H3].
Defined.

(** ** generateUserId *)

Lemma generateUserId_eq (env : Env) (w : World) :
  generateUserId env w
  = (Value (register_user_id env w),
     MkWorld (db w) (S (clock_reads w)) (entropy_reads w + 16)).
Proof. reflexivity. Qed.

Lemma user_id_time (env : Env) (w : World) :
  parseInt (skipn 5 (register_user_id env w))
  = Num (clock env (clock_reads w)).
Proof.
  unfold register_user_id.
  change (skipn 5 (js "user_" ++ ?x)) with x.
  now apply parseInt_decimal.
Qed.

(** X6.  [generateUserId] returns ["user_"], the reading of the clock in
    decimal, an underscore and 16 letters or digits; the clock reading can
    be read back from the id, so two ids made at different (safe integer)
    clock readings are different whatever the random parts are. *)
Theorem user_ids_differ_across_time (env env' : Env) (w w' : World) :
  (Z.abs (clock env (clock_reads w)) <= max_safe_integer)%Z ->
  (Z.abs (clock env' (clock_reads w')) <= max_safe_integer)%Z ->
  clock env (clock_reads w) <> clock env' (clock_reads w') ->
  exists id id' w1 w1',
    generateUserId env w = (Value id, w1) /\
    generateUserId env' w' = (Value id', w1') /\
    firstn 5 id = js "user_" /\
    parseInt (skipn 5 id) = Num (clock env (clock_reads w)) /\
    id <> [] /\
    id <> id'.
Proof.
  intros _ _ Hdiff.
  exists (register_user_id env w), (register_user_id env' w').
  eexists. eexists.
  split; [apply generateUserId_eq|]. split; [apply generateUserId_eq|].
  split; [reflexivity|]. split; [apply user_id_time|].
  split; [discriminate|].
  intros E. apply Hdiff.
  pose proof (user_id_time env w) as H. rewrite E, user_id_time in H.
  now injection H.
Qed.

Lemma user_ids_differ_across_time_witness :
  (Z.abs (clock sample_env (clock_reads sample_world)) <= max_safe_integer)%Z /\
  (Z.abs (clock sample_env (clock_reads (MkWorld sample_db 1 0)))
   <= max_safe_integer)%Z /\
  clock sample_env (clock_reads sample_world)
  <> clock sample_env (clock_reads (MkWorld sample_db 1 0)) /\
  register_user_id sample_env sample_world
  <> register_user_id sample_env (MkWorld sample_db 1 0).
Proof.
  assert (H1 : (Z.abs (clock sample_env (clock_reads sample_world))
                <= max_safe_integer)%Z) by (vm_compute; discriminate).
  assert (H2 : (Z.abs (clock sample_env (clock_reads (MkWorld sample_db 1 0)))
                <= max_safe_integer)%Z) by (vm_compute; discriminate).
  assert (H3 : clock sample_env (clock_reads sample_world)
               <> clock sample_env (clock_reads (MkWorld sample_db 1 0)))
    by (vm_compute; discriminate).
  split; [exact H1|]. split; [exact H2|]. split; [exact H3|].
  destruct (user_ids_differ_across_time sample_env sample_env sample_world
              (MkWorld sample_db 1 0) H1 H2 H3)
    as (id & id' & w1 & w1' & E & E' & _ & _ & _ & Hne).
  rewrite generateUserId_eq in E, E'.
  injection E as <- _. injection E' as <- _. exact Hne.
Defined.

(** ** sendEmail *)

(** X7.  [sendEmail] never throws and never touches the store or the
    clock; it reports success exactly when the mail service answered with
    a status from 200 to 299, and a failure always carries a message:
    "Failed to send email: <status>" for an answer outside that range
    whose body could be read, "Failed to send email" when the request or
    the reading of the body failed. *)
Theorem sendEmail_outcomes (options : EmailOptions) (env : Env) (w : World) :
  exists r,
    sendEmail options env w = (Value r, w) /\
    (success r = true <->
     exists st text, resend_fetch env options = FetchResponse st text /\
                     (200 <= st <= 299)%Z) /\
    (success r = true -> error r = None) /\
    (success r = false ->
     (error r = Some (js "Failed to send email") /\
      (resend_fetch env options = FetchRejects \/
       exists st, resend_fetch env options = FetchResponse st None)) \/
     (exists st body,
         resend_fetch env options = FetchResponse st (Some body) /\
         error r = Some (js "Failed to send email: " ++ number_toString st))).
Proof.
  exists (send_result_of (resend_fetch env options)).
  split; [reflexivity|].
  destruct (resend_fetch env options) as [st text|]; cbn [send_result_of].
  - destruct ((200 <=? st) && (st <=? 299))%Z eqn:Hok.
    + apply andb_true_iff in Hok as [Hl Hu]. apply Z.leb_le in Hl, Hu.
      split; [split; [intros _; exists st, text; now split|reflexivity]|].
      split; [reflexivity|discriminate].
    + assert (Hrange : ~ (200 <= st <= 299)%Z).
      { intros [Hl Hu]. apply Z.leb_le in Hl, Hu. rewrite Hl, Hu in Hok.
        discriminate Hok. }
      destruct text as [body|]; cbn [success error].
      * split; [split; [discriminate|]|].
        { intros (st' & text' & E & Hr). injection E as <- _. now elim Hrange. }
        split; [discriminate|]. intros _. right. exists st, body.
        split; reflexivity.
      * split; [split; [discriminate|]|].
        { intros (st' & text' & E & Hr). injection E as <- _. now elim Hrange. }
        split; [discriminate|]. intros _. left.
        split; [reflexivity|right; now exists st].
  - cbn [success error].
    split; [split; [discriminate|intros (st' & text' & E & _); discriminate E]|].
    split; [discriminate|]. intros _. left. split; [reflexivity|now left].
Qed.

(** ** POST /api/register on any input *)


Lemma register_invalid_input (env : Env) (w : World) (json : option credentials) :
  match json with
  | Some (MkCredentials (Some (_ :: _)) (Some p)) => (length p < 8)%nat
  | _ => True
  end ->
  post_api_register json env w
  = (match json with
     | None => json_error 500 "Registration failed"
     | Some (MkCredentials (Some (_ :: _)) (Some (_ :: _))) =>
         json_error 400 "Password must be at least 8 characters"
     | Some _ => json_error 400 "Email and password are required"
     end, w).
Proof.
  destruct json as [[[[|ec et]|] [[|pc pt]|]]|]; intros H; try reflexivity.
  apply Nat.ltb_lt in H.
  cbv beta iota zeta delta
    [post_api_register try_catch register_body bind ret req_json email
     password].
  now rewrite H.
Qed.

(** X8.  POST /api/register rejects bad input before touching anything:
    a body that is not JSON is answered 500 "Registration failed", a
    missing or empty email or password 400 "Email and password are
    required", a password shorter than 8 code units 400 "Password must be
    at least 8 characters"; in each case the store, the clock and the
    entropy source are left as they were. *)
Theorem register_validation (env : Env) (w : World) :
  post_api_register None env w
  = (json_error 500 "Registration failed", w) /\
  (forall e p, falsy e || falsy p = true ->
     post_api_register (Some (MkCredentials e p)) env w
     = (json_error 400 "Email and password are required", w)) /\
  (forall e p, e <> [] -> p <> [] -> (length p < 8)%nat ->
     post_api_register (Some (MkCredentials (Some e) (Some p))) env w
     = (json_error 400 "Password must be at least 8 characters", w)).
Proof.
  split; [reflexivity|]. split.
  - intros [[|ec et]|] [[|pc pt]|] H; try reflexivity. discriminate H.
  - intros [|ec et] [|pc pt] He Hp Hlen; try congruence.
    now rewrite register_invalid_input.
Qed.


Lemma find_app_new {A} (f : A -> bool) (l : list A) (x : A) :
  find f l = None -> f x = true -> find f (l ++ [x]) = Some x.
Proof.
  induction l as [|a l IH]; cbn [find app]; intros Hn Hx.
  - now rewrite Hx.
  - destruct (f a); [discriminate Hn|now apply IH].
Qed.








(** ** Sessions: /api/logout and /api/user *)

Lemma validateSession_cases (sid : jsstring) (env : Env) (w : World) :
  Lucia.validateSession sid env w
  = match find (fun s => jsstring_eqb (session_id s) sid) (sessions (db w)) with
    | None => (Value None, w)
    | Some s =>
        match find (fun u => jsstring_eqb (user_id u) (session_user_id s))
                   (users (db w)) with
        | None => (Value None, w)
        | Some u =>
            if (clock env (clock_reads w) <? session_expires_at s)%Z
            then (Value (Some (s, u)),
                  MkWorld (db w) (S (clock_reads w)) (entropy_reads w))
            else (Value None,
                  MkWorld (without_session (db w) sid) (S (clock_reads w))
                          (entropy_reads w))
        end
    end.
Proof.
  cbv beta iota zeta delta
    [Lucia.validateSession Lucia.delete_session bind ret get_db put_db date_now].
  destruct (find _ (sessions (db w))) as [s|]; [|reflexivity].
  destruct (find _ (users (db w))) as [u|]; [|reflexivity].
  cbn [db clock_reads entropy_reads].
  destruct (clock env (clock_reads w) <? session_expires_at s)%Z; reflexivity.
Qed.

Lemma find_session_after_delete (ss : list session_row) (sid : jsstring) :
  find (fun s => jsstring_eqb (session_id s) sid)
       (filter (fun s => negb (jsstring_eqb (session_id s) sid)) ss)
  = None.
Proof.
  induction ss as [|s ss IH]; [reflexivity|].
  cbn [filter]. destruct (jsstring_eqb (session_id s) sid) eqn:E;
    cbn [negb]; [exact IH|].
  cbn [find]. now rewrite E.
Qed.

Lemma filter_twice {A} (f : A -> bool) (l : list A) :
  filter f (filter f l) = filter f l.
Proof.
  induction l as [|a l IH]; [reflexivity|]. cbn [filter].
  destruct (f a) eqn:E; [|exact IH]. cbn [filter]. now rewrite E, IH.
Qed.

Lemma logout_eq (sid : option jsstring) (env : Env) (w : World) :
  post_api_logout sid env w
  = (logout_ok,
     match sid with
     | Some (c :: r) =>
         MkWorld (without_session (db w) (c :: r)) (clock_reads w)
                 (entropy_reads w)
     | _ => w
     end).
Proof. destruct sid as [[|c r]|]; reflexivity. Qed.

Lemma get_api_user_eq (sid : option jsstring) (env : Env) (w : World) :
  get_api_user sid env w
  = match sid with
    | Some (c :: r) =>
        match Lucia.validateSession (c :: r) env w with
        | (Value (Some (_, user)), w') =>
            (MkResponse 200
               (JsonUser (user_id user) (user_email user) (user_verified user))
               None, w')
        | (Value None, w') => (json_error 401 "Invalid session", w')
        | (Thrown, w') => (json_error 500 "Failed to get user", w')
        end
    | _ => (json_error 401 "Not authenticated", w)
    end.
Proof.
  destruct sid as [[|c r]|]; try reflexivity.
  unfold get_api_user, try_catch, user_body, bind.
  destruct (Lucia.validateSession (c :: r) env w) as [[[[s u]|]|] w'];
    reflexivity.
Qed.

(** X12.  POST /api/logout always answers 200 "Logout successful" with
    the blank cookie.  It deletes the session named by the cookie, if any,
    and nothing else: other sessions, users, tokens and messages stay.
    Afterwards that cookie no longer authenticates (GET /api/user and POST
    /api/messages answer 401 and store nothing), and logging out again
    gives the same answer and changes nothing. *)
Theorem logout_invalidates_session (sid : option jsstring) (env : Env)
  (w : World) :
  exists w',
    post_api_logout sid env w = (logout_ok, w') /\
    db w' = match sid with
            | Some (c :: r) => without_session (db w) (c :: r)
            | _ => db w
            end /\
    (forall s, In s (sessions (db w)) -> Some (session_id s) <> sid ->
               In s (sessions (db w'))) /\
    (forall env2,
        status (fst (get_api_user sid env2 w')) = 401%Z /\
        snd (get_api_user sid env2 w') = w') /\
    (forall env2 json,
        status (fst (post_api_messages sid json env2 w')) = 401%Z /\
        snd (post_api_messages sid json env2 w') = w') /\
    (forall env2, post_api_logout sid env2 w' = (logout_ok, w')).
Proof.
  rewrite logout_eq. eexists. split; [reflexivity|].
  destruct sid as [[|c r]|].
  - split; [reflexivity|]. split; [auto|].
    split; [intros; split; reflexivity|].
    split; [intros; split; reflexivity|]. reflexivity.
  - set (w' := MkWorld (without_session (db w) (c :: r)) (clock_reads w)
                       (entropy_reads w)).
    assert (Hgone : find (fun s => jsstring_eqb (session_id s) (c :: r))
                         (sessions (db w')) = None)
      by apply find_session_after_delete.
    assert (Hval : forall env2,
               Lucia.validateSession (c :: r) env2 w' = (Value None, w'))
      by (intros env2; rewrite validateSession_cases; now rewrite Hgone).
    split; [reflexivity|]. split.
    { intros s Hin Hne. cbn [db w' without_session sessions].
      apply filter_In. split; [exact Hin|].
      apply negb_true_iff, jsstring_eqb_neq. congruence. }
    split.
    { intros env2. rewrite get_api_user_eq, Hval. split; reflexivity. }
    split.
    { intros env2 json.
      unfold post_api_messages, try_catch, post_message_body, bind.
      rewrite Hval. split; reflexivity. }
    intros env2. rewrite logout_eq. unfold w'.
    cbn [db clock_reads entropy_reads]. unfold without_session.
    cbn [users email_verification_tokens sessions messages].
    now rewrite filter_twice.
  - split; [reflexivity|]. split; [auto|].
    split; [intros; split; reflexivity|].
    split; [intros; split; reflexivity|]. reflexivity.
Qed.

(** X13.  GET /api/user: without a cookie it answers 401 "Not
    authenticated"; with a cookie that names no stored session 401
    "Invalid session", both without any change; with a valid session 200
    and the id, email and verified flag of the session's owner, the store
    unchanged; with a stored session that has expired 401 "Invalid
    session", and that session is deleted.  It never touches users,
    tokens or messages. *)
Theorem current_user_cases (env : Env) (w : World) :
  get_api_user None env w = (json_error 401 "Not authenticated", w) /\
  get_api_user (Some []) env w = (json_error 401 "Not authenticated", w) /\
  (forall sid, sid <> [] ->
     find (fun s => jsstring_eqb (session_id s) sid) (sessions (db w)) = None ->
     get_api_user (Some sid) env w = (json_error 401 "Invalid session", w)) /\
  (forall sid s u, valid_session env w sid s u ->
     fst (get_api_user (Some sid) env w)
     = MkResponse 200
         (JsonUser (user_id u) (user_email u) (user_verified u)) None /\
     db (snd (get_api_user (Some sid) env w)) = db w) /\
  (forall sid s u, sid <> [] ->
     find (fun s => jsstring_eqb (session_id s) sid) (sessions (db w)) = Some s ->
     find (fun u => jsstring_eqb (user_id u) (session_user_id s)) (users (db w))
     = Some u ->
     (session_expires_at s <= clock env (clock_reads w))%Z ->
     fst (get_api_user (Some sid) env w) = json_error 401 "Invalid session" /\
     db (snd (get_api_user (Some sid) env w)) = without_session (db w) sid) /\
  (forall sid,
     users (db (snd (get_api_user sid env w))) = users (db w) /\
     email_verification_tokens (db (snd (get_api_user sid env w)))
     = email_verification_tokens (db w) /\
     messages (db (snd (get_api_user sid env w))) = messages (db w)).
Proof.
  split; [reflexivity|]. split; [reflexivity|]. split; [|split; [|split]].
  - intros [|c r] Hne F; [congruence|].
    rewrite get_api_user_eq, validateSession_cases. now rewrite F.
  - intros sid s u Hvalid.
    pose proof (validateSession_valid env w sid s u Hvalid) as Hv.
    destruct Hvalid as (Hne & _). destruct sid as [|c r]; [congruence|].
    rewrite get_api_user_eq, Hv. split; reflexivity.
  - intros [|c r] s u Hne Fs Fu Hexp; [congruence|].
    rewrite get_api_user_eq, validateSession_cases, Fs, Fu.
    apply Z.ltb_ge in Hexp. rewrite Hexp. split; reflexivity.
  - intros [[|c r]|]; try (repeat split; reflexivity).
    rewrite get_api_user_eq, validateSession_cases.
    destruct (find _ (sessions (db w))) as [s|]; [|repeat split; reflexivity].
    destruct (find _ (users (db w))) as [u|]; [|repeat split; reflexivity].
    destruct (clock env (clock_reads w) <? session_expires_at s)%Z;
      repeat split; reflexivity.
Qed.

(** ** POST /api/messages on any input *)

(** After a valid session, the answer is decided by the body. *)
Lemma post_with_session (env : Env) (w : World) (sid : jsstring)
  (s : session_row) (u : user_row) (json : option (option jsstring)) :
  valid_session env w sid s u ->
  post_api_messages (Some sid) json env w
  = match json with
    | None =>
        (json_error 500 "Failed to post message",
         MkWorld (db w) (S (clock_reads w)) (entropy_reads w))
    | Some (Some (mc :: mt)) =>
        if (length (trim (mc :: mt)) =? 0)%nat
        then (json_error 400 "Message cannot be empty",
              MkWorld (db w) (S (clock_reads w)) (entropy_reads w))
        else if (1000 <? length (mc :: mt))%nat
        then (json_error 400 "Message is too long (max 1000 characters)",
              MkWorld (db w) (S (clock_reads w)) (entropy_reads w))
        else (json_ok "Message posted",
              MkWorld (with_message (db w) (user_id u)
                                    (stored_text (trim (mc :: mt)))
                                    (clock env (S (clock_reads w))))
                      (S (S (clock_reads w))) (entropy_reads w))
    | Some _ =>
        (json_error 400 "Message cannot be empty",
         MkWorld (db w) (S (clock_reads w)) (entropy_reads w))
    end.
Proof.
  intros Hvalid.
  pose proof (validateSession_valid env w sid s u Hvalid) as Hv.
  destruct Hvalid as (Hsid & _ & Hu & _).
  pose proof (has_user_of_find _ _ _ Hu) as Hhas.
  destruct sid as [|sc st]; [congruence|].
  unfold post_api_messages, try_catch, post_message_body.
  unfold bind at 1. rewrite Hv.
  destruct json as [[[|mc mt]|]|]; try reflexivity.
  cbn [req_json bind ret]. unfold bind at 1, ret at 1.
  destruct (length (trim (mc :: mt)) =? 0)%nat; [reflexivity|].
  destruct (1000 <? length (mc :: mt))%nat; [reflexivity|].
  cbv beta iota zeta delta
    [bind date_now Sql.insert_message get_db put_db ret throw].
  cbn [db clock_reads entropy_reads]. rewrite Hhas. reflexivity.
Qed.

Lemma post_invalid_session (c : N) (r : jsstring)
  (json : option (option jsstring)) (env : Env) (w w1 : World) :
  Lucia.validateSession (c :: r) env w = (Value None, w1) ->
  post_api_messages (@Some jsstring (c :: r)) json env w
  = (json_error 401 "Invalid session", w1).
Proof.
  intros Hv. unfold post_api_messages, try_catch, post_message_body.
  unfold bind at 1. now rewrite Hv.
Qed.

(** Without a valid session nothing is read from the body. *)
Lemma post_without_session (env : Env) (w : World) (sid : option jsstring)
  (json : option (option jsstring)) :
  (forall c r s u, sid = Some (c :: r) -> ~ valid_session env w (c :: r) s u) ->
  status (fst (post_api_messages sid json env w)) = 401%Z /\
  messages (db (snd (post_api_messages sid json env w))) = messages (db w) /\
  users (db (snd (post_api_messages sid json env w))) = users (db w) /\
  email_verification_tokens (db (snd (post_api_messages sid json env w)))
  = email_verification_tokens (db w).
Proof.
  intros Hinvalid. destruct sid as [[|c r]|]; try (repeat split; reflexivity).
  pose proof (validateSession_cases (c :: r) env w) as Hv.
  destruct (find _ (sessions (db w))) as [s|] eqn:Fs;
    [|rewrite (post_invalid_session c r json env w _ Hv);
      repeat split; reflexivity].
  destruct (find _ (users (db w))) as [u|] eqn:Fu;
    [|rewrite (post_invalid_session c r json env w _ Hv);
      repeat split; reflexivity].
  destruct (clock env (clock_reads w) <? session_expires_at s)%Z eqn:Hlt;
    [|rewrite (post_invalid_session c r json env w _ Hv);
      repeat split; reflexivity].
  exfalso. apply (Hinvalid c r s u eq_refl). apply Z.ltb_lt in Hlt.
  split; [discriminate|]. split; [exact Fs|]. split; [exact Fu|exact Hlt].
Qed.

(** X14.  POST /api/messages stores a message only for a valid session
    and a body of at most 1000 code units whose trimmed text is not empty:
    either the message table is unchanged and the answer is not 200, or
    the session was valid and exactly one row was appended, holding the
    session owner's id, the trimmed text as the store gives it back and
    the clock reading, and the answer is "Message posted".  The trimmed
    text is the text without the white space at its two ends; the store
    gives back its units, with U+FFFD in the place of an unpaired
    surrogate.  Users and verification tokens are never touched. *)
Theorem post_message_effect (sid : option jsstring)
  (json : option (option jsstring)) (env : Env) (w : World) :
  exists resp w',
    post_api_messages sid json env w = (resp, w') /\
    users (db w') = users (db w) /\
    email_verification_tokens (db w') = email_verification_tokens (db w) /\
    ((messages (db w') = messages (db w) /\ status resp <> 200%Z) \/
     exists c r s u text,
       sid = Some (c :: r) /\ valid_session env w (c :: r) s u /\
       json = Some (Some text) /\
       trim text <> [] /\ (length text <= 1000)%nat /\
       trimmed_of text (trim text) /\
       Forall2 unit_stored (trim text) (stored_text (trim text)) /\
       Utf8.encode (stored_text (trim text)) = Utf8.encode (trim text) /\
       resp = json_ok "Message posted" /\
       db w' = with_message (db w) (user_id u) (stored_text (trim text))
                            (clock env (S (clock_reads w)))).
Proof.
  destruct (post_api_messages sid json env w) as [resp w'] eqn:E.
  exists resp, w'. split; [reflexivity|].
  assert (Hcases :
    (forall c r s u, sid = Some (c :: r) -> ~ valid_session env w (c :: r) s u)
    \/ exists c r s u, sid = Some (c :: r) /\ valid_session env w (c :: r) s u).
  { destruct sid as [[|c r]|]; try (left; intros; discriminate).
    destruct (find (fun s => jsstring_eqb (session_id s) (c :: r))
                   (sessions (db w))) as [s|] eqn:Fs.
    - destruct (find (fun u => jsstring_eqb (user_id u) (session_user_id s))
                     (users (db w))) as [u|] eqn:Fu.
      + destruct (Z.lt_ge_cases (clock env (clock_reads w))
                                (session_expires_at s)) as [Hlt|Hge].
        * right. exists c, r, s, u. split; [reflexivity|].
          split; [discriminate|]. now repeat split.
        * left. intros c' r' s' u' Es (_ & Fs' & _ & Hlt').
          injection Es as <- <-. rewrite Fs in Fs'. injection Fs' as <-. lia.
      + left. intros c' r' s' u' Es (_ & Fs' & Fu' & _).
        injection Es as <- <-. rewrite Fs in Fs'. injection Fs' as <-.
        rewrite Fu in Fu'. discriminate Fu'.
    - left. intros c' r' s' u' Es (_ & Fs' & _).
      injection Es as <- <-. rewrite Fs in Fs'. discriminate Fs'. }
  destruct Hcases as [Hinvalid|(c & r & s & u & -> & Hvalid)].
  - destruct (post_without_session env w sid json Hinvalid)
      as (Hst & Hm & Hu & Ht).
    rewrite E in Hst, Hm, Hu, Ht. cbn [fst snd] in *.
    split; [exact Hu|]. split; [exact Ht|]. left.
    split; [exact Hm|]. rewrite Hst. discriminate.
  - pose proof (eq_trans (eq_sym E)
                  (post_with_session env w (c :: r) s u json Hvalid)) as E'.
    clear E.
    destruct json as [[[|mc mt]|]|];
      try (injection E' as -> ->; split; [reflexivity|];
           split; [reflexivity|]; left; split; [reflexivity|discriminate]).
    destruct (length (trim (mc :: mt)) =? 0)%nat eqn:Hempty;
      [injection E' as -> ->; split; [reflexivity|];
       split; [reflexivity|]; left; split; [reflexivity|discriminate]|].
    destruct (1000 <? length (mc :: mt))%nat eqn:Hlong;
      [injection E' as -> ->; split; [reflexivity|];
       split; [reflexivity|]; left; split; [reflexivity|discriminate]|].
    injection E' as -> ->. split; [reflexivity|]. split; [reflexivity|].
    right. exists c, r, s, u, (mc :: mt).
    split; [reflexivity|]. split; [exact Hvalid|]. split; [reflexivity|].
    split.
    { intros Hnil. apply trim_nil_length in Hnil. congruence. }
    split; [now apply Nat.ltb_ge in Hlong|].
    split; [apply trim_trimmed_of|]. split; [apply stored_text_units|].
    split; [apply encode_stored_text|]. split; reflexivity.
Qed.

(** ** A posted message is listed *)

Lemma jsstring_eqb_sym (a b : jsstring) : jsstring_eqb a b = jsstring_eqb b a.
Proof.
  destruct (jsstring_eqb b a) eqn:E.
  - apply jsstring_eqb_eq in E. subst. apply jsstring_eqb_refl.
  - apply jsstring_eqb_neq in E. apply jsstring_eqb_neq. congruence.
Qed.

Lemma find_ext {A} (f g : A -> bool) (l : list A) :
  (forall x, f x = g x) -> find f l = find g l.
Proof.
  intros H. induction l as [|a l IH]; [reflexivity|].
  cbn [find]. now rewrite H, IH.
Qed.

(** Everything newer than [t], when it fits under the LIMIT. *)
Lemma select_messages_all_newer (d : Db) (t : Z) (m : message_row) :
  schema_ok d -> (length (messages d) <= 100)%nat ->
  In m (messages d) -> (t < message_created_at m)%Z ->
  In (view_of d m) (map to_view (select_messages d (Num t))).
Proof.
  intros Hok Hlen Hin Hnew. unfold select_messages.
  set (rows := filter (created_after (Num t))
                      (flat_map (join_users (users d)) (messages d))).
  assert (Hrows : map to_view rows
                  = map (view_of d)
                      (filter (fun m => (t <? message_created_at m)%Z)
                              (messages d)))
    by apply (newer_views d t Hok).
  assert (Hshort : (length (order_by_created_at rows) <= 100)%nat).
  { rewrite <- (Permutation_length (order_by_created_at_perm rows)).
    rewrite <- (length_map to_view rows), Hrows, length_map.
    etransitivity; [apply filter_length_le|exact Hlen]. }
  rewrite firstn_all2 by exact Hshort.
  apply (Permutation_in _ (Permutation_map to_view
                             (order_by_created_at_perm rows))).
  rewrite Hrows. apply in_map. apply filter_In. split; [exact Hin|].
  now apply Z.ltb_lt.
Qed.

(** X15.  Posting and listing compose: after an accepted post, while the
    store holds at most 100 messages, GET /api/messages with a cursor
    below the post's timestamp returns the new message with its id, its
    trimmed text as the store gives it back (U+FFFD in the place of an
    unpaired surrogate), the email of the poster and its timestamp.  The
    cursor and the timestamp are integers a JavaScript number holds
    exactly. *)
Theorem posted_message_is_listed (env env2 : Env) (w : World)
  (sid text : jsstring) (s : session_row) (u : user_row)
  (after : option jsstring) (t : Z) :
  valid_session env w sid s u ->
  schema_ok (db w) ->
  trim text <> [] -> (length text <= 1000)%nat ->
  (length (messages (db w)) < 100)%nat ->
  afterTimestamp after = Num t ->
  safe_integer t -> safe_integer (clock env (S (clock_reads w))) ->
  (t < clock env (S (clock_reads w)))%Z ->
  exists w' views,
    post_api_messages (Some sid) (Some (Some text)) env w
    = (json_ok "Message posted", w') /\
    get_api_messages after env2 w'
    = (MkResponse 200 (JsonMessages views) None, w') /\
    In (MessageView (Sql.next_message_id (messages (db w)))
                    (stored_text (trim text))
                    (user_email u) (clock env (S (clock_reads w))))
       views /\
    Forall2 unit_stored (trim text) (stored_text (trim text)) /\
    trimmed_of text (trim text).
Proof.
  intros Hvalid Hok Htrim Hlen Hroom Hafter _ _ Hnew.
  pose proof (post_with_session env w sid s u (Some (Some text)) Hvalid) as Hpost.
  pose proof (handle_keeps_schema (PostMessage (Some sid) (Some (Some text)))
                env w Hok) as Hok'.
  cbn [handle] in Hok'.
  pose proof (stored_text_units (trim text)) as Hunits.
  pose proof (trim_trimmed_of text) as Htrimmed.
  destruct text as [|mc mt]; [now elim Htrim|].
  replace (length (trim (mc :: mt)) =? 0)%nat with false in Hpost
    by (symmetry; apply Nat.eqb_neq; intros E; apply Htrim;
        now apply length_zero_iff_nil).
  replace (1000 <? length (mc :: mt))%nat with false in Hpost
    by (symmetry; now apply Nat.ltb_ge).
  rewrite Hpost in Hok'. cbn [snd db] in Hok'.
  eexists. eexists. split; [exact Hpost|].
  split; [rewrite get_api_messages_eq, Hafter; reflexivity|].
  split; [|split; [exact Hunits|exact Htrimmed]].
  cbn [db].
  set (d' := with_message (db w) (user_id u) (stored_text (trim (mc :: mt)))
                          (clock env (S (clock_reads w)))) in *.
  set (m := MessageRow (Sql.next_message_id (messages (db w))) (user_id u)
                       (stored_text (trim (mc :: mt)))
                       (clock env (S (clock_reads w)))).
  assert (Hview : view_of d' m
                  = MessageView (Sql.next_message_id (messages (db w)))
                                (stored_text (trim (mc :: mt))) (user_email u)
                                (clock env (S (clock_reads w)))).
  { unfold view_of, author_email, m. cbn [message_id message_message
      message_created_at message_user_id d' with_message users].
    destruct Hvalid as (_ & _ & Fu & _).
    pose proof Fu as Fu'. apply find_some in Fu' as [_ Hid].
    apply jsstring_eqb_eq in Hid.
    rewrite (find_ext _ (fun x => jsstring_eqb (user_id x) (session_user_id s)))
      by (intros x; rewrite jsstring_eqb_sym; now rewrite Hid).
    now rewrite Fu. }
  rewrite <- Hview. apply select_messages_all_newer.
  - exact Hok'.
  - unfold d', with_message. cbn [messages]. rewrite length_app. cbn [length]. lia.
  - unfold d', with_message. cbn [messages]. apply in_or_app. right. now left.
  - exact Hnew.
Qed.

Lemma posted_message_is_listed_witness :
  valid_session sample_env sample_world (js "sessalice")
                (SessionRow (js "sessalice") (js "user_1_A") 9000) alice /\
  schema_ok (db sample_world) /\
  trim [32; 104; 0xD800; 105; 9]%N <> [] /\
  (length (messages (db sample_world)) < 100)%nat /\
  afterTimestamp (Some (js "200")) = Num 200 /\
  safe_integer 200 /\
  safe_integer (clock sample_env (S (clock_reads sample_world))) /\
  (200 < clock sample_env (S (clock_reads sample_world)))%Z /\
  exists w' views,
    post_api_messages (Some (js "sessalice"))
                      (Some (Some [32; 104; 0xD800; 105; 9]%N))
                      sample_env sample_world
    = (json_ok "Message posted", w') /\
    get_api_messages (Some (js "200")) sample_env w'
    = (MkResponse 200 (JsonMessages views) None, w') /\
    In (MessageView 3 [104; 0xFFFD; 105]%N (js "alice@x.com") 1001) views.
Proof.
  assert (H1 : trim [32; 104; 0xD800; 105; 9]%N <> [])
    by (vm_compute; discriminate).
  assert (H2 : (length [32; 104; 0xD800; 105; 9]%N <= 1000)%nat)
    by (simpl; lia).
  assert (H3 : (length (messages (db sample_world)) < 100)%nat) by (simpl; lia).
  assert (H4 : afterTimestamp (Some (js "200")) = Num 200) by reflexivity.
  assert (H5 : (200 < clock sample_env (S (clock_reads sample_world)))%Z)
    by (vm_compute; reflexivity).
  assert (H6 : safe_integer 200) by (vm_compute; discriminate).
  assert (H7 : safe_integer (clock sample_env (S (clock_reads sample_world))))
    by (vm_compute; discriminate).
  split; [exact sample_session_valid|]. split; [exact sample_db_ok|].
  split; [exact H1|]. split; [exact H3|].
  split; [exact H4|]. split; [exact H6|]. split; [exact H7|].
  split; [exact H5|].
  destruct (posted_message_is_listed sample_env sample_env sample_world
              (js "sessalice") [32; 104; 0xD800; 105; 9]%N _ alice
              (Some (js "200")) 200
              sample_session_valid sample_db_ok H1 H2 H3 H4 H6 H7 H5)
    as (w' & views & Hpost & Hlist & Hin & _).
  exists w', views. split; [exact Hpost|]. split; [exact Hlist|exact Hin].
Defined.

(** ** From registration to the first login *)



Lemma createSession_session_world (env : Env) (w : World) (uid : jsstring) :
  has_user (db w) uid = true ->
  (forall s, In s (sessions (db w)) -> session_id s <> next_session_id env w) ->
  Lucia.createSession uid env w
  = (Value (next_session env w uid), session_world env w uid).
Proof. apply createSession_fresh. Qed.




(** ** The tables each route can touch *)

Lemma filter_all {A} (l : list A) : filter (fun _ => true) l = l.
Proof. induction l as [|a l IH]; [reflexivity|]. cbn [filter]. now rewrite IH. Qed.

Lemma filter_filter {A} (f g : A -> bool) (l : list A) :
  filter g (filter f l) = filter (fun x => f x && g x) l.
Proof.
  induction l as [|a l IH]; [reflexivity|]. cbn [filter].
  destruct (f a); cbn [filter andb]; [destruct (g a)|]; now rewrite IH.
Qed.

Section Tables.

Context {A : Type}.
Variable tbl : Db -> list A.

Lemma keeps_db (w w' : World) : db w' = db w -> keeps tbl w w'.
Proof. unfold keeps. now intros ->. Qed.

Lemma keeps_trans (a b c : World) :
  keeps tbl a b -> keeps tbl b c -> keeps tbl a c.
Proof. unfold keeps. congruence. Qed.

Lemma only_deletes_db (w w' : World) : db w' = db w -> only_deletes tbl w w'.
Proof. intros E. exists (fun _ => true). now rewrite filter_all, E. Qed.

Lemma only_deletes_trans (a b c : World) :
  only_deletes tbl a b -> only_deletes tbl b c -> only_deletes tbl a c.
Proof.
  intros [f Ef] [g Eg]. exists (fun x => f x && g x).
  now rewrite Eg, Ef, filter_filter.
Qed.

Lemma only_appends_db (w w' : World) : db w' = db w -> only_appends tbl w w'.
Proof. intros E. exists []. now rewrite app_nil_r, E. Qed.

Lemma only_appends_trans (a b c : World) :
  only_appends tbl a b -> only_appends tbl b c -> only_appends tbl a c.
Proof.
  intros [n1 E1] [n2 E2]. exists (n1 ++ n2). now rewrite E2, E1, app_assoc.
Qed.

End Tables.

(** One statement against the store, or the password check, run to its
    end. *)
Ltac statement_frame :=
  intros; unfold framed; intros;
  unfold keeps, only_deletes, only_appends;
  cbv beta iota zeta delta
    [Sql.insert_user Sql.insert_token Sql.delete_token Sql.insert_message
     Sql.update_user_verified Lucia.insert_session Lucia.delete_session
     verifyPasswordM bind get_db put_db throw ret];
  try match goal with
      | |- context [if ?c then _ else _] => destruct c
      end;
  cbn [snd db users email_verification_tokens sessions messages];
  first [ reflexivity
        | exists []; now rewrite app_nil_r
        | exists (fun _ => true); now rewrite filter_all
        | eexists; reflexivity ].

Ltac table_frames :=
  first [ apply keeps_db | apply keeps_trans
        | apply only_deletes_db | apply only_deletes_trans
        | apply only_appends_db | apply only_appends_trans
        | statement_frame ].

(** X17.  The tables each route can touch.  Registration only appends
    users and tokens; GET /verify only deletes tokens and appends
    sessions, and keeps the ids of the user rows; login only appends
    sessions;
    logout and GET /api/user only delete sessions; POST /api/messages only
    appends messages and deletes sessions; GET /api/messages writes
    nothing.  In particular no route deletes or rewrites a message, and
    no route deletes a user. *)
Theorem route_footprints (r : request) (env : Env) (w : World) :
  let w' := snd (handle r env w) in
  match r with
  | PostRegister _ =>
      only_appends users w w' /\ only_appends email_verification_tokens w w' /\
      keeps sessions w w' /\ keeps messages w w'
  | GetVerify _ =>
      map user_id (users (db w')) = map user_id (users (db w)) /\
      only_deletes email_verification_tokens w w' /\
      only_appends sessions w w' /\ keeps messages w w'
  | PostLogin _ =>
      keeps users w w' /\ keeps email_verification_tokens w w' /\
      only_appends sessions w w' /\ keeps messages w w'
  | PostLogout _ | GetUser _ =>
      keeps users w w' /\ keeps email_verification_tokens w w' /\
      only_deletes sessions w w' /\ keeps messages w w'
  | PostMessage _ _ =>
      keeps users w w' /\ keeps email_verification_tokens w w' /\
      only_deletes sessions w w' /\ only_appends messages w w'
  | GetMessages _ => db w' = db w
  end.
Proof.
  cbv zeta. destruct r; cbn [handle].
  - unfold post_api_register.
    repeat split;
      (apply framed_try_catch, framed_register_body; table_frames).
  - split.
    { destruct (get_verify_users query_token env w) as [E|(uid & E)];
        rewrite E; [reflexivity|apply map_set_verified_ids]. }
    unfold get_verify.
    repeat split;
      (apply framed_try_catch, framed_verify_body; table_frames).
  - unfold post_api_login, login_with.
    repeat split;
      (apply framed_try_catch, framed_login_body; table_frames).
  - unfold post_api_logout.
    repeat split;
      (apply framed_try_catch, framed_logout_body; table_frames).
  - unfold get_api_user.
    repeat split;
      (apply framed_try_catch, framed_user_body; table_frames).
  - unfold post_api_messages.
    repeat split;
      (apply framed_try_catch, framed_post_message_body; table_frames).
  - now rewrite get_api_messages_eq.
Qed.

(** ** Sessions and messages belong to verified users *)

Lemma createSession_cases (env : Env) (w : World) (uid : jsstring) :
  Lucia.createSession uid env w
  = if existsb (fun s => jsstring_eqb (session_id s) (next_session_id env w))
               (sessions (db w))
       || negb (has_user (db w) uid)
    then (Thrown, MkWorld (db w) (S (clock_reads w))
                          (entropy_reads w + session_id_length env))
    else (Value (next_session env w uid), session_world env w uid).
Proof.
  cbv beta iota zeta delta
    [Lucia.createSession Lucia.insert_session bind ret throw ask
     getRandomValues date_now get_db put_db].
  cbn [db clock_reads entropy_reads].
  fold (next_session_id env w).
  now destruct (existsb _ _ || _).
Qed.

Lemma session_validity_cases (sid : option jsstring) (env : Env) (w : World) :
  (forall c r s u, sid = Some (c :: r) -> ~ valid_session env w (c :: r) s u)
  \/ exists c r s u, sid = Some (c :: r) /\ valid_session env w (c :: r) s u.
Proof.
  destruct sid as [[|c r]|]; try (left; intros; discriminate).
  destruct (find (fun s => jsstring_eqb (session_id s) (c :: r))
                 (sessions (db w))) as [s|] eqn:Fs.
  - destruct (find (fun u => jsstring_eqb (user_id u) (session_user_id s))
                   (users (db w))) as [u|] eqn:Fu.
    + destruct (Z.lt_ge_cases (clock env (clock_reads w))
                              (session_expires_at s)) as [Hlt|Hge].
      * right. exists c, r, s, u. split; [reflexivity|].
        split; [discriminate|]. now repeat split.
      * left. intros c' r' s' u' Es (_ & Fs' & _ & Hlt').
        injection Es as <- <-. rewrite Fs in Fs'. injection Fs' as <-. lia.
    + left. intros c' r' s' u' Es (_ & Fs' & Fu' & _).
      injection Es as <- <-. rewrite Fs in Fs'. injection Fs' as <-.
      rewrite Fu in Fu'. discriminate Fu'.
  - left. intros c' r' s' u' Es (_ & Fs' & _).
    injection Es as <- <-. rewrite Fs in Fs'. discriminate Fs'.
Qed.

Lemma verified_in_appended (d d' : Db) (new : list user_row) (uid : jsstring) :
  users d' = users d ++ new -> verified_in d uid -> verified_in d' uid.
Proof.
  intros E (u & Hin & Hid & Hv). exists u. rewrite E.
  split; [apply in_or_app; now left|now split].
Qed.

Lemma verified_in_marked (d d' : Db) (x uid : jsstring) :
  users d' = map (Sql.set_verified x) (users d) ->
  verified_in d uid -> verified_in d' uid.
Proof.
  intros E (u & Hin & Hid & Hv). exists (Sql.set_verified x u). rewrite E.
  destruct (set_verified_keeps x u) as (Hi & _ & Hk).
  split; [now apply in_map|]. split; [congruence|now apply Hk].
Qed.

Lemma verified_in_same (d d' : Db) (uid : jsstring) :
  users d' = users d -> verified_in d uid -> verified_in d' uid.
Proof. intros E (u & H). exists u. now rewrite E. Qed.

Lemma accounts_ok_mono (d d' : Db) :
  (forall uid, verified_in d uid -> verified_in d' uid) ->
  incl (sessions d') (sessions d) -> messages d' = messages d ->
  accounts_ok d -> accounts_ok d'.
Proof.
  intros Hu Hs Hm [Is Im]. split.
  - intros s Hin. apply Hu, Is, Hs, Hin.
  - intros m Hin. rewrite Hm in Hin. destruct (Im m Hin) as (Hv & Hrest).
    split; [now apply Hu|exact Hrest].
Qed.

Lemma accounts_ok_frames (w w' : World) :
  keeps users w w' -> only_deletes sessions w w' -> keeps messages w w' ->
  accounts_ok (db w) -> accounts_ok (db w').
Proof.
  intros Hu [f Hs] Hm. apply accounts_ok_mono.
  - intros uid. now apply verified_in_same.
  - rewrite Hs. intros s Hin. now apply filter_In in Hin.
  - exact Hm.
Qed.

Lemma accounts_ok_with_session (d : Db) (s : session_row) :
  verified_in d (session_user_id s) -> accounts_ok d ->
  accounts_ok (with_session d s).
Proof.
  intros Hv [Is Im]. split.
  - intros x Hin. unfold with_session in Hin. cbn [sessions] in Hin.
    apply in_app_or in Hin as [Hin|[<-|[]]].
    + apply (verified_in_same d); [reflexivity|now apply Is].
    + apply (verified_in_same d); [reflexivity|exact Hv].
  - intros m Hin. destruct (Im m Hin) as (Hm & Hrest).
    split; [|exact Hrest]. now apply (verified_in_same d).
Qed.

Lemma accounts_ok_with_message (d : Db) (uid text : jsstring) (t : Z) :
  verified_in d uid -> text <> [] -> trim text = text ->
  (length text <= 1000)%nat ->
  accounts_ok d -> accounts_ok (with_message d uid text t).
Proof.
  intros Hv Hne Htrim Hlen [Is Im]. split.
  - intros s Hin. apply (verified_in_same d); [reflexivity|now apply Is].
  - intros m Hin. unfold with_message in Hin. cbn [messages] in Hin.
    apply in_app_or in Hin as [Hin|[<-|[]]].
    + destruct (Im m Hin) as (Hm & Hrest). split; [|exact Hrest].
      now apply (verified_in_same d).
    + cbn [message_user_id message_message].
      split; [now apply (verified_in_same d)|]. now repeat split.
Qed.

Lemma createSession_accounts_ok (env : Env) (w : World) (uid : jsstring) :
  verified_in (db w) uid -> accounts_ok (db w) ->
  accounts_ok (db (snd (Lucia.createSession uid env w))).
Proof.
  intros Hv Hok. rewrite createSession_cases.
  destruct (existsb _ _ || _); cbn [snd db]; [exact Hok|].
  unfold session_world. cbn [db]. now apply accounts_ok_with_session.
Qed.

Lemma register_accounts_ok (json : option credentials) (env : Env) (w : World) :
  accounts_ok (db w) -> accounts_ok (db (snd (post_api_register json env w))).
Proof.
  destruct (handle_users (PostRegister json) env w) as (new & E & _).
  cbn [handle] in E.
  assert (Hs : keeps sessions w (snd (post_api_register json env w)))
    by (unfold post_api_register;
        apply framed_try_catch, framed_register_body; table_frames).
  assert (Hm : keeps messages w (snd (post_api_register json env w)))
    by (unfold post_api_register;
        apply framed_try_catch, framed_register_body; table_frames).
  apply accounts_ok_mono.
  - intros uid. now apply (verified_in_appended _ _ new).
  - rewrite Hs. apply incl_refl.
  - exact Hm.
Qed.

Lemma verify_accounts_ok (t : option jsstring) (env : Env) (w : World) :
  accounts_ok (db w) -> accounts_ok (db (snd (get_verify t env w))).
Proof.
  intros Hok. destruct t as [[|tc tl]|]; try exact Hok.
  assert (Hne : tc :: tl <> []) by discriminate.
  destruct (stored_token (db w) (tc :: tl)) as [tk|] eqn:F.
  - destruct (Z.lt_ge_cases (token_expires_at tk) (clock env (clock_reads w)))
      as [Hexp|Hin_time].
    + rewrite (verify_expired env w _ tk Hne F Hexp). cbn [snd db].
      revert Hok. apply accounts_ok_mono; try reflexivity.
      * intros uid. now apply verified_in_same.
      * apply incl_refl.
    + rewrite (verify_in_time env w _ tk Hne F Hin_time).
      set (marked := MkWorld (with_verification (db w) tk) (S (clock_reads w))
                             (entropy_reads w)).
      assert (Hmarked : accounts_ok (db marked)).
      { revert Hok. apply accounts_ok_mono; try reflexivity.
        - intros uid. now apply (verified_in_marked _ _ (token_user_id tk)).
        - apply incl_refl. }
      pose proof (createSession_cases env marked (token_user_id tk)) as Hc.
      destruct (existsb _ _) eqn:Etaken; cbn [orb] in Hc;
        [rewrite Hc; exact Hmarked|].
      destruct (has_user (db marked) (token_user_id tk)) eqn:Huser;
        cbn [negb] in Hc; rewrite Hc; [|exact Hmarked].
      cbn [snd]. unfold session_world. cbn [db].
      apply accounts_ok_with_session; [|exact Hmarked].
      cbn [next_session session_user_id].
      unfold has_user in Huser. apply existsb_exists in Huser as (u & Hin & Hid).
      apply jsstring_eqb_eq in Hid. exists u.
      split; [exact Hin|]. split; [exact Hid|].
      unfold marked, with_verification in Hin. cbn [db users] in Hin.
      apply in_map_iff in Hin as (u0 & <- & _).
      rewrite set_verified_id in Hid.
      unfold Sql.set_verified. rewrite Hid, jsstring_eqb_refl.
      cbn [user_verified]. discriminate.
  - now rewrite (verify_unknown env w _ Hne F).
Qed.

Lemma login_accounts_ok (json : option credentials) (env : Env) (w : World) :
  accounts_ok (db w) -> accounts_ok (db (snd (post_api_login json env w))).
Proof.
  intros Hok.
  destruct json as [[[[|ec et]|] [[|pc pt]|]]|]; try exact Hok.
  assert (He : ec :: et <> []) by discriminate.
  assert (Hp : pc :: pt <> []) by discriminate.
  unfold post_api_login.
  destruct (find (fun u => jsstring_eqb (user_email u) (ec :: et))
                 (users (db w))) as [u|] eqn:F.
  - destruct (Z.eq_dec (user_verified u) 0) as [Hz|Hnz].
    + now rewrite (login_unverified verifyPasswordM env w _ _ He Hp u F Hz).
    + rewrite (login_verified verifyPasswordM env w _ _ He Hp u F Hnz).
      unfold verifyPasswordM, ret.
      destruct (verifyPassword (user_password_hash u) (pc :: pt));
        [|exact Hok].
      assert (Hv : verified_in (db w) (user_id u)).
      { apply find_some in F as [Hin _]. now exists u. }
      pose proof (createSession_accounts_ok env w (user_id u) Hv Hok) as H.
      now destruct (Lucia.createSession (user_id u) env w) as [[session|] w2].
  - now rewrite (login_no_user verifyPasswordM env w _ _ He Hp F).
Qed.

Lemma post_message_accounts_ok (sid : option jsstring)
  (json : option (option jsstring)) (env : Env) (w : World) :
  accounts_ok (db w) ->
  accounts_ok (db (snd (post_api_messages sid json env w))).
Proof.
  intros Hok.
  destruct (session_validity_cases sid env w)
    as [Hinvalid|(c & r & s & u & -> & Hvalid)].
  - destruct (post_without_session env w sid json Hinvalid)
      as (_ & Hm & Hu & _).
    revert Hok. apply accounts_ok_frames; [exact Hu| |exact Hm].
    unfold post_api_messages.
    apply framed_try_catch, framed_post_message_body; table_frames.
  - pose proof (post_with_session env w (c :: r) s u json Hvalid) as E.
    change (accounts_ok
              (db (snd (post_api_messages (@Some jsstring (c :: r)) json
                                          env w)))).
    rewrite E. clear E.
    destruct json as [[[|mc mt]|]|]; try exact Hok.
    destruct (length (trim (mc :: mt)) =? 0)%nat eqn:Hempty; [exact Hok|].
    destruct (1000 <? length (mc :: mt))%nat eqn:Hlong; [exact Hok|].
    cbn [snd db]. apply accounts_ok_with_message; [| | | |exact Hok].
    + destruct Hvalid as (_ & Fs & Fu & _).
      apply find_some in Fs as [Hs _]. apply find_some in Fu as [_ Hid].
      apply jsstring_eqb_eq in Hid. rewrite Hid. destruct Hok as [Is _].
      now apply Is.
    + apply stored_text_not_empty. intros Hnil.
      apply trim_nil_length in Hnil. congruence.
    + apply stored_text_trimmed.
    + apply Nat.ltb_ge in Hlong. rewrite stored_text_length.
      etransitivity; [apply trim_length|exact Hlong].
Qed.

Lemma handle_accounts_ok (r : request) (env : Env) (w : World) :
  accounts_ok (db w) -> accounts_ok (db (snd (handle r env w))).
Proof.
  destruct r; cbn [handle].
  - apply register_accounts_ok.
  - apply verify_accounts_ok.
  - apply login_accounts_ok.
  - apply accounts_ok_frames; unfold post_api_logout;
      (apply framed_try_catch, framed_logout_body; table_frames).
  - apply accounts_ok_frames; unfold get_api_user;
      (apply framed_try_catch, framed_user_body; table_frames).
  - apply post_message_accounts_ok.
  - now rewrite get_api_messages_eq.
Qed.

(** X18.  Sessions and messages belong to verified users.  If every
    stored session and every stored message belongs to a user whose flag
    is set, and every stored text is trimmed, non-empty and at most 1000
    code units long, then the same holds after any request; hence it
    holds in every store the server reaches from the empty one. *)
Theorem accounts_invariant :
  (forall r env w,
      accounts_ok (db w) -> accounts_ok (db (snd (handle r env w)))) /\
  (forall trace c e, accounts_ok (db (run trace (MkWorld empty_db c e)))).
Proof.
  split; [exact handle_accounts_ok|].
  intros trace c e.
  assert (Hrun : forall w, accounts_ok (db w) -> accounts_ok (db (run trace w))).
  { induction trace as [|[env r] rest IH]; intros w Hok; [exact Hok|].
    cbn [run]. apply IH. now apply handle_accounts_ok. }
  apply Hrun. split; intros x [].
Qed.

(** ** The schema along a run *)

(** X19.  The constraints of the schema are kept by every request, so
    they hold in every store the server reaches from the empty one.
    There the lookup by email of a stored account finds that very row,
    and the join of GET /api/messages yields exactly one row for every
    stored message: none is dropped for want of an author, none is
    doubled. *)
Theorem schema_invariant :
  (forall r env w,
      schema_ok (db w) -> schema_ok (db (snd (handle r env w)))) /\
  (forall trace c e,
      let d := db (run trace (MkWorld empty_db c e)) in
      schema_ok d /\
      (forall u, In u (users d) ->
         find (fun x => jsstring_eqb (user_email x) (user_email u)) (users d)
         = Some u) /\
      (forall m, In m (messages d) ->
         map to_view (join_users (users d) m) = [view_of d m])).
Proof.
  split; [exact handle_keeps_schema|].
  intros trace c e. cbv zeta.
  pose proof (reachable_schema_ok trace c e) as Hok.
  split; [exact Hok|]. split.
  - intros u Hin. now apply find_email_unique.
  - intros m Hin. apply join_users_view; [apply Hok|].
    now apply (messages_fk Hok).
Qed.

(** ** The session of a login *)

Lemma find_id_unique (d : Db) (u : user_row) :
  schema_ok d -> In u (users d) ->
  find (fun x => jsstring_eqb (user_id x) (user_id u)) (users d) = Some u.
Proof.
  intros Hok Hin.
  destruct (find (fun x => jsstring_eqb (user_id x) (user_id u)) (users d))
    as [u'|] eqn:F.
  - f_equal. apply find_some in F as [Hin' He]. apply jsstring_eqb_eq in He.
    apply (unique_by user_id (users d)); [apply Hok|assumption..].
  - apply (find_none _ _ F) in Hin. rewrite jsstring_eqb_refl in Hin.
    discriminate.
Qed.

Lemma find_session_new (ss : list session_row) (s : session_row) :
  (forall x, In x ss -> session_id x <> session_id s) ->
  find (fun x => jsstring_eqb (session_id x) (session_id s)) (ss ++ [s])
  = Some s.
Proof.
  intros Hfresh. apply find_app_new; [|apply jsstring_eqb_refl].
  destruct (find _ ss) as [x|] eqn:F; [|reflexivity].
  apply find_some in F as [Hin He]. apply jsstring_eqb_eq in He.
  now elim (Hfresh x Hin).
Qed.

(** X20.  The cookie of a login opens the session of that account.  For
    a stored, verified account and a password its digest accepts, when the
    session identifier drawn is not taken, POST /api/login answers "Login
    successful" with a cookie, and GET /api/user with the value of that
    cookie, before the session expires, answers with the id, the email
    and the flag of that account and writes nothing. *)
Theorem login_opens_session (env env2 : Env) (w : World) (u : user_row)
  (p : jsstring) :
  schema_ok (db w) -> In u (users (db w)) ->
  user_verified u <> 0%Z -> user_email u <> [] -> p <> [] ->
  verifyPassword (user_password_hash u) p = true ->
  (forall s, In s (sessions (db w)) -> session_id s <> next_session_id env w) ->
  session_id_length env <> 0%nat ->
  (clock env2 (S (clock_reads w))
   < clock env (clock_reads w) + session_ttl env)%Z ->
  post_api_login (Some (MkCredentials (Some (user_email u)) (Some p))) env w
  = (MkResponse 200 (JsonOk (js "Login successful"))
       (Some (Lucia.createSessionCookie (next_session_id env w))),
     session_world env w (user_id u)) /\
  Lucia.cookie_value (Lucia.createSessionCookie (next_session_id env w))
  = next_session_id env w /\
  get_api_user (Some (next_session_id env w)) env2
               (session_world env w (user_id u))
  = (MkResponse 200
       (JsonUser (user_id u) (user_email u) (user_verified u)) None,
     MkWorld (db (session_world env w (user_id u)))
             (S (S (clock_reads w)))
             (entropy_reads w + session_id_length env)).
Proof.
  intros Hok Hin Hv He Hp Hpass Hfresh Hlen Hlive.
  pose proof (find_email_unique (db w) u Hok Hin) as F.
  assert (Huser : has_user (db w) (user_id u) = true).
  { unfold has_user. apply existsb_exists. exists u.
    split; [exact Hin|apply jsstring_eqb_refl]. }
  split; [|split; [reflexivity|]].
  - unfold post_api_login.
    rewrite (login_verified verifyPasswordM env w _ p He Hp u F Hv).
    unfold verifyPasswordM, ret. rewrite Hpass.
    now rewrite (createSession_session_world env w (user_id u) Huser Hfresh).
  - assert (Hsid : next_session_id env w <> []).
    { intros E. apply (f_equal (@length N)) in E. unfold next_session_id in E.
      rewrite generateToken_length in E. unfold draw in E.
      rewrite length_map, length_seq in E. now apply Hlen. }
    destruct (next_session_id env w) as [|c r] eqn:Eid; [congruence|].
    rewrite get_api_user_eq, validateSession_cases.
    unfold session_world, with_session, next_session.
    cbn [db sessions users clock_reads entropy_reads]. rewrite Eid.
    pose proof (find_session_new (sessions (db w))
                  (SessionRow (c :: r) (user_id u)
                              (clock env (clock_reads w) + session_ttl env)))
      as Fs.
    cbn [session_id] in Fs. rewrite (Fs Hfresh).
    cbn [session_user_id session_expires_at].
    rewrite (find_id_unique (db w) u Hok Hin).
    apply Z.ltb_lt in Hlive. now rewrite Hlive.
Qed.

Lemma login_opens_session_witness :
  schema_ok (db sample_world) /\ In alice (users (db sample_world)) /\
  user_verified alice <> 0%Z /\
  verifyPassword (user_password_hash alice) (js "correct horse") = true /\
  post_api_login
    (Some (MkCredentials (Some (user_email alice)) (Some (js "correct horse"))))
    sample_env sample_world
  = (MkResponse 200 (JsonOk (js "Login successful"))
       (Some (Lucia.createSessionCookie
                (next_session_id sample_env sample_world))),
     session_world sample_env sample_world (user_id alice)).
Proof.
  assert (Hin : In alice (users (db sample_world))) by (now left).
  assert (Hv : user_verified alice <> 0%Z) by discriminate.
  assert (He : user_email alice <> []) by discriminate.
  assert (Hp : js "correct horse" <> []) by discriminate.
  assert (Hpass : verifyPassword (user_password_hash alice)
                                 (js "correct horse") = true)
    by (vm_compute; reflexivity).
  assert (Hlen : session_id_length sample_env <> 0%nat) by discriminate.
  assert (Hlive : (clock sample_env (S (clock_reads sample_world))
                   < clock sample_env (clock_reads sample_world)
                     + session_ttl sample_env)%Z)
    by (vm_compute; reflexivity).
  split; [exact sample_db_ok|]. split; [exact Hin|]. split; [exact Hv|].
  split; [exact Hpass|].
  apply (login_opens_session sample_env sample_env sample_world alice _
           sample_db_ok Hin Hv He Hp Hpass sample_session_id_fresh Hlen Hlive).
Defined.
